(** * kratt: earliest attestations in a dated corpus

    A shallow embedding of [src/kratt/cli.py] (the query command) and
    [src/kratt/scan_books.py] (the metadata builder), with the properties of
    the date cascade, the ordering of works, the scanner and the snippet
    renderer.

    Conventions.
    - A Python [str] is a sequence of Unicode code points: [list N].  Offsets
      and lengths count code points, as they do in Python.
    - A Python [int] is a [Z]; [None] is [None] of an [option].
    - A [dict] is a [gmap], a [set] a [gset].
    - List positions produced by [str.find] are natural numbers and the
      result [-1] is [None]. *)

From Stdlib Require Import ZArith List Lia Bool Ascii String.
From Stdlib Require Import Sorting.Sorted Sorting.Permutation Recdef.
From stdpp Require Import gmap list pretty.
Import ListNotations.
Open Scope Z_scope.
Set Warnings "-clear-no-such-hyp".

Abbreviation str := (list N).

(** ** Python strings *)

Module Py.

(** Source literals are written as UTF-8 text and decoded to code points. *)

Fixpoint bytes_of (s : string) : list N :=
  match s with
  | EmptyString => []
  | String a s' => N_of_ascii a :: bytes_of s'
  end.

Fixpoint utf8_decode (bs : list N) : str :=
  match bs with
  | [] => []
  | b0 :: r0 =>
    if (b0 <? 0x80)%N then b0 :: utf8_decode r0
    else if (b0 <? 0xE0)%N then
      match r0 with
      | b1 :: r1 => ((b0 - 0xC0) * 64 + (b1 - 0x80))%N :: utf8_decode r1
      | _ => []
      end
    else if (b0 <? 0xF0)%N then
      match r0 with
      | b1 :: b2 :: r2 =>
        ((b0 - 0xE0) * 4096 + (b1 - 0x80) * 64 + (b2 - 0x80))%N
          :: utf8_decode r2
      | _ => []
      end
    else
      match r0 with
      | b1 :: b2 :: b3 :: r3 =>
        ((b0 - 0xF0) * 262144 + (b1 - 0x80) * 4096
           + (b2 - 0x80) * 64 + (b3 - 0x80))%N :: utf8_decode r3
      | _ => []
      end
  end.

Definition lit (s : string) : str := utf8_decode (bytes_of s).
Arguments lit s%_string.

(** [str(n)] for an integer. *)
Definition str_of_Z (z : Z) : str := lit (pretty z).

(** [len(s)] *)
Definition len (s : str) : Z := Z.of_nat (length s).

(** [not s] for a string: true on the empty string. *)
Definition is_empty (s : str) : bool :=
  match s with [] => true | _ => false end.

(** [a == b] on strings. *)
Definition str_eqb (a b : str) : bool := bool_decide (a = b).

(** [a < b] on strings: lexicographic on code points. *)
Fixpoint str_ltb (a b : str) : bool :=
  match a, b with
  | _, [] => false
  | [], _ :: _ => true
  | x :: a', y :: b' =>
    if (x <? y)%N then true
    else if (y <? x)%N then false
    else str_ltb a' b'
  end.

(** The characters [str.strip()] removes when called without argument
    (the code points for which [str.isspace] holds). *)
Definition isspace (c : N) : bool :=
  ((9 <=? c) && (c <=? 13) || (28 <=? c) && (c <=? 32)
   || (c =? 0x85) || (c =? 0xA0) || (c =? 0x1680)
   || (0x2000 <=? c) && (c <=? 0x200A)
   || (c =? 0x2028) || (c =? 0x2029) || (c =? 0x202F)
   || (c =? 0x205F) || (c =? 0x3000))%N.

Fixpoint lstrip_by (p : N -> bool) (s : str) : str :=
  match s with
  | [] => []
  | c :: r => if p c then lstrip_by p r else s
  end.

Definition rstrip_by (p : N -> bool) (s : str) : str :=
  rev (lstrip_by p (rev s)).

Definition lstrip (s : str) : str := lstrip_by isspace s.
Definition rstrip (s : str) : str := rstrip_by isspace s.
Definition strip (s : str) : str := rstrip (lstrip s).

(** [line.rstrip("\n")] *)
Definition rstrip_nl (s : str) : str := rstrip_by (N.eqb 10) s.

(** [line.replace("\t", " ")] *)
Definition replace_tab (s : str) : str :=
  map (fun c => if (c =? 9)%N then 32%N else c) s.

(** [s.startswith(t)] *)
Fixpoint startswith (s t : str) : bool :=
  match t, s with
  | [], _ => true
  | _ :: _, [] => false
  | x :: t', y :: s' => (x =? y)%N && startswith s' t'
  end.

(** [line.find(term, start)] for [0 <= start]: the least position
    [>= start] at which [term] occurs, [None] for [-1]. *)
Fixpoint find_from (s term : str) (pos : nat) : option nat :=
  if startswith s term then Some pos
  else match s with
       | [] => None
       | _ :: s' => find_from s' term (S pos)
       end.

Definition find (line term : str) (start : nat) : option nat :=
  if (length line <? start)%nat then None
  else find_from (drop start line) term start.

(** [t in s] *)
Definition contains (s t : str) : bool :=
  match find s t 0 with Some _ => true | None => false end.

(** [s[a:b]] with Python's treatment of negative and out-of-range bounds. *)
Definition slice_index (n i : Z) : Z :=
  let j := if i <? 0 then i + n else i in
  Z.max 0 (Z.min n j).

Definition slice (s : str) (a b : Z) : str :=
  let a' := slice_index (len s) a in
  let b' := slice_index (len s) b in
  take (Z.to_nat (b' - a')) (drop (Z.to_nat a') s).

(** [list.sort(key=...)]: the stable arrangement by [<] on the keys.  An
    element moves past exactly the elements whose key is strictly smaller
    than its own, so elements with equal keys keep their order. *)
Section Sort.
Context {A K : Type} (ltb : K -> K -> bool) (key : A -> K).

Fixpoint insert_by (x : A) (l : list A) : list A :=
  match l with
  | [] => [x]
  | y :: l' =>
    if ltb (key y) (key x) then y :: insert_by x l' else x :: l
  end.

Fixpoint sort_by (l : list A) : list A :=
  match l with
  | [] => []
  | x :: l' => insert_by x (sort_by l')
  end.
End Sort.

(** [x is not None] *)
Definition is_not_none {A} (x : option A) : bool :=
  match x with Some _ => true | None => false end.

(** [a < b] on pairs of integers (tuple comparison). *)
Definition pair_ltb (p q : Z * Z) : bool :=
  if negb (fst p =? fst q) then fst p <? fst q else snd p <? snd q.

End Py.

(** ** scan_books.py: the metadata builder *)

Module ScanBooks.
Import Py.

(** Heuristic dynasty ranges. *)
Definition DEFAULT_DYNASTY_RANGES : gmap str (Z * Z) :=
  list_to_map
    [ (lit "西周", (-1046, -771)); (lit "東周", (-770, -256));
      (lit "周", (-1046, -256)); (lit "春秋", (-770, -476));
      (lit "戰國", (-475, -221)); (lit "秦", (-221, -206));
      (lit "西漢", (-206, 8)); (lit "新", (9, 23));
      (lit "東漢", (25, 220)); (lit "漢", (-206, 220));
      (lit "三國", (220, 280)); (lit "魏", (220, 266));
      (lit "蜀", (221, 263)); (lit "吳", (229, 280));
      (lit "西晉", (266, 316)); (lit "東晉", (317, 420));
      (lit "晉", (266, 420)); (lit "北魏", (386, 534));
      (lit "東魏", (534, 550)); (lit "西魏", (535, 557));
      (lit "北齊", (550, 577)); (lit "北周", (557, 581));
      (lit "劉宋", (420, 479)); (lit "南齊", (479, 502));
      (lit "梁", (502, 557)); (lit "陳", (557, 589));
      (lit "南北朝", (420, 589)); (lit "南朝", (420, 589));
      (lit "北朝", (386, 581)); (lit "隋", (581, 618));
      (lit "唐", (618, 907)); (lit "五代", (907, 960));
      (lit "五代十國", (907, 979)); (lit "北宋", (960, 1127));
      (lit "南宋", (1127, 1279)); (lit "宋", (960, 1279));
      (lit "遼", (907, 1125)); (lit "西夏", (1038, 1227));
      (lit "金", (1115, 1234)); (lit "元", (1271, 1368));
      (lit "明", (1368, 1644)); (lit "清", (1644, 1912));
      (lit "民國", (1912, 1949)) ].

Definition DYNASTY_ALIASES : gmap str str :=
  list_to_map
    [ (lit "前漢", lit "西漢"); (lit "後漢", lit "東漢");
      (lit "蜀漢", lit "蜀"); (lit "東吳", lit "吳");
      (lit "孫吳", lit "吳"); (lit "南朝宋", lit "劉宋");
      (lit "宋(南朝)", lit "劉宋") ].

Definition PREFERRED_FUNCTIONS : gset str :=
  list_to_set
    [ lit "撰"; lit "著"; lit "編"; lit "纂"; lit "輯"; lit "譯"; lit "注";
      lit "註"; lit "疏"; lit "述"; lit "校"; lit "校訂"; lit "考";
      lit "考補"; lit "解"; lit "傳"; lit "音義" ].

(** Only iterated over by [any], so the order of the elements is immaterial. *)
Definition UNKNOWN_AUTHOR_MARKERS : list str :=
  [ lit "佚名"; lit "闕名"; lit "不詳"; lit "未知"; lit "失名";
    lit "不著撰人"; lit "作者不詳"; lit "不知撰人" ].

Module Book.
Record t := mk {
  collection : str;
  work_id : str;
  title : str;
  dynasty_label : str;
  author_label : str;
  filename : str;
  path : str
}.
End Book.

Module PersonEvidence.
Record t := mk {
  work_id : str;
  person_name : str;
  function : str;
  dynasty_label : str;
  raw_dates : str;
  date_not_before : option Z;
  date_not_after : option Z
}.
End PersonEvidence.

Module CBDBPerson.
Record t := mk {
  person_id : str;
  name : str;
  birth_year : option Z;
  death_year : option Z;
  fl_earliest : option Z;
  fl_latest : option Z
}.
End CBDBPerson.

(** One row of the resolved-date table.  The two date cells hold an integer
    or are blank; a blank cell is [None]. *)
Module DateRow.
Record t := mk {
  work_id : str;
  source : str;
  date_not_before : option Z;
  date_not_after : option Z;
  date_type : str;
  confidence : str;
  note : str;
  ref : str
}.
End DateRow.

(** [PAREN_RE.sub("", name)] for [PAREN_RE = [（(][^）)]*[）)]]: an opening
    parenthesis starts a match when a closing one follows somewhere, and the
    match runs up to the first closing one. *)
Definition is_open_paren (c : N) : bool := ((c =? 0xFF08) || (c =? 40))%N.
Definition is_close_paren (c : N) : bool := ((c =? 0xFF09) || (c =? 41))%N.

Fixpoint paren_sub_from (inside : bool) (s : str) : str :=
  match s with
  | [] => []
  | c :: r =>
    if inside then
      paren_sub_from (negb (is_close_paren c)) r
    else if is_open_paren c && existsb is_close_paren r then
      paren_sub_from true r
    else c :: paren_sub_from false r
  end.

Definition paren_sub (s : str) : str := paren_sub_from false s.

Definition normalize_author_name (author_label : str) : option str :=
  let name := strip author_label in
  if is_empty name then None
  else
    let name := strip (paren_sub name) in
    if is_empty name then None
    else if existsb (fun marker => contains name marker) UNKNOWN_AUTHOR_MARKERS
    then None
    else Some name.

Definition resolve_dynasty_range (dynasty_label : str)
    (ranges : gmap str (Z * Z)) : option Z * option Z * str :=
  if is_empty dynasty_label then (None, None, lit "missing dynasty label")
  else
    let normalized := default dynasty_label (DYNASTY_ALIASES !! dynasty_label) in
    match ranges !! normalized with
    | None => (None, None, lit "unmapped dynasty label=" ++ dynasty_label)
    | Some (date_not_before, date_not_after) =>
      if negb (str_eqb normalized dynasty_label) then
        (Some date_not_before, Some date_not_after,
         lit "dynasty_label=" ++ dynasty_label ++ lit " alias=" ++ normalized)
      else
        (Some date_not_before, Some date_not_after,
         lit "dynasty_label=" ++ dynasty_label)
    end.

(** The score computed in the body of the loop of [choose_best_evidence]. *)
Definition score (item : PersonEvidence.t) : Z :=
  let score := 0 in
  let score :=
    if is_not_none (PersonEvidence.date_not_before item)
       && is_not_none (PersonEvidence.date_not_after item)
    then score + 2
    else if is_not_none (PersonEvidence.date_not_before item)
            || is_not_none (PersonEvidence.date_not_after item)
    then score + 1
    else score in
  if bool_decide (PersonEvidence.function item ∈ PREFERRED_FUNCTIONS)
  then score + 1 else score.

(** The loop of [choose_best_evidence], from a state [(best, best_score)]. *)
Fixpoint choose_best_loop (evidence : list PersonEvidence.t)
    (best : option PersonEvidence.t) (best_score : Z)
    : option PersonEvidence.t :=
  match evidence with
  | [] => best
  | item :: rest =>
    if best_score <? score item
    then choose_best_loop rest (Some item) (score item)
    else choose_best_loop rest best best_score
  end.

Definition choose_best_evidence (evidence : list PersonEvidence.t)
    : option PersonEvidence.t :=
  choose_best_loop evidence None (-1).

Definition choose_cbdb_person (candidates : list CBDBPerson.t)
    : option CBDBPerson.t :=
  match candidates with
  | [] => None
  | [person] => Some person
  | _ => None
  end.

Definition cbdb_date_range (person : CBDBPerson.t)
    : option Z * option Z * str :=
  match CBDBPerson.birth_year person, CBDBPerson.death_year person with
  | Some b, Some d => (Some b, Some d, lit "author_lifespan_bound")
  | _, _ =>
    match CBDBPerson.fl_earliest person, CBDBPerson.fl_latest person with
    | Some e, Some l => (Some e, Some l, lit "floruit_bound")
    | _, _ => (None, None, [])
    end
  end.

(** The body of the loop of [write_publication_date_ranges], one tier at a
    time.  Each tier either writes the row of the book and moves on to the
    next book ([Some row]) or falls through to the next tier ([None]). *)

Definition cbdb_tier (book : Book.t)
    (cbdb_people : gmap str (list CBDBPerson.t)) : option DateRow.t :=
  match normalize_author_name (Book.author_label book) with
  | None => None
  | Some author_name =>
    let cbdb_candidates := default [] (cbdb_people !! author_name) in
    match choose_cbdb_person cbdb_candidates with
    | None => None
    | Some cbdb_person =>
      match cbdb_date_range cbdb_person with
      | (Some date_not_before, Some date_not_after, date_type) =>
        Some {| DateRow.work_id := Book.work_id book;
                DateRow.source := lit "cbdb";
                DateRow.date_not_before := Some date_not_before;
                DateRow.date_not_after := Some date_not_after;
                DateRow.date_type := date_type;
                DateRow.confidence := lit "medium";
                DateRow.note :=
                  lit "name=" ++ CBDBPerson.name cbdb_person
                  ++ lit " id=" ++ CBDBPerson.person_id cbdb_person;
                DateRow.ref := lit "CBDB_20240208_DATA2" |}
      | _ => None
      end
    end
  end.

Definition catalog_tier (book : Book.t)
    (kr_evidence : gmap str (list PersonEvidence.t)) : option DateRow.t :=
  let evidence := default [] (kr_evidence !! Book.work_id book) in
  let best :=
    match evidence with
    | [] => None
    | _ :: _ => choose_best_evidence evidence
    end in
  match best with
  | None => None
  | Some best =>
    let confidence :=
      if negb (is_not_none (PersonEvidence.date_not_before best))
         || negb (is_not_none (PersonEvidence.date_not_after best))
      then lit "low" else lit "medium" in
    Some {| DateRow.work_id := Book.work_id book;
            DateRow.source := lit "kr_catalog";
            DateRow.date_not_before := PersonEvidence.date_not_before best;
            DateRow.date_not_after := PersonEvidence.date_not_after best;
            DateRow.date_type := lit "author_lifespan_bound";
            DateRow.confidence := confidence;
            DateRow.note :=
              lit "person=" ++ PersonEvidence.person_name best
              ++ lit " function=" ++ PersonEvidence.function best
              ++ lit " dates=" ++ PersonEvidence.raw_dates best;
            DateRow.ref := lit "KR-Catalog" |}
  end.

Definition dynasty_tier (book : Book.t) (ranges : gmap str (Z * Z))
    : DateRow.t :=
  let '(date_not_before, date_not_after, note) :=
    resolve_dynasty_range (Book.dynasty_label book) ranges in
  {| DateRow.work_id := Book.work_id book;
     DateRow.source := lit "filename_dynasty";
     DateRow.date_not_before := date_not_before;
     DateRow.date_not_after := date_not_after;
     DateRow.date_type := lit "dynasty_bound";
     DateRow.confidence := lit "low";
     DateRow.note := note;
     DateRow.ref := [] |}.

Definition date_row (book : Book.t) (ranges : gmap str (Z * Z))
    (kr_evidence : gmap str (list PersonEvidence.t))
    (cbdb_people : gmap str (list CBDBPerson.t)) : DateRow.t :=
  match cbdb_tier book cbdb_people with
  | Some row => row
  | None =>
    match catalog_tier book kr_evidence with
    | Some row => row
    | None => dynasty_tier book ranges
    end
  end.

(** The rows [write_publication_date_ranges] writes after the header. *)
Definition write_publication_date_ranges (books : list Book.t)
    (ranges : gmap str (Z * Z))
    (kr_evidence : gmap str (list PersonEvidence.t))
    (cbdb_people : gmap str (list CBDBPerson.t)) : list DateRow.t :=
  map (fun book => date_row book ranges kr_evidence cbdb_people) books.

(** The state of [_parse_kr_catalog_file] that [flush_person] reads and
    writes. *)
Module Parser.
Record t := mk {
  current_work_id : option str;
  current_person : option str;
  current_props : gmap str str;
  evidence_by_work : gmap str (list PersonEvidence.t)
}.
End Parser.

Section FlushPerson.
(** [parse_dates] reads the numbers out of the raw date text with a
    regular expression; [flush_person] only looks at which of the two
    bounds it returns. *)
Variable parse_dates : str -> option Z * option Z.

Definition reset_person (st : Parser.t) : Parser.t :=
  {| Parser.current_work_id := Parser.current_work_id st;
     Parser.current_person := None;
     Parser.current_props := ∅;
     Parser.evidence_by_work := Parser.evidence_by_work st |}.

Definition flush_person (st : Parser.t) : Parser.t :=
  match Parser.current_work_id st, Parser.current_person st with
  | Some current_work_id, Some current_person =>
    if is_empty current_work_id || is_empty current_person
    then reset_person st
    else
      let props := Parser.current_props st in
      let raw_dates := strip (default [] (props !! lit "DATES")) in
      if is_empty raw_dates then reset_person st
      else
        match parse_dates raw_dates with
        | (None, None) => reset_person st
        | (date_not_before, date_not_after) =>
          let item :=
            {| PersonEvidence.work_id := current_work_id;
               PersonEvidence.person_name := current_person;
               PersonEvidence.function :=
                 strip (default [] (props !! lit "FUNCTION"));
               PersonEvidence.dynasty_label :=
                 strip (default [] (props !! lit "DYNASTY"));
               PersonEvidence.raw_dates := raw_dates;
               PersonEvidence.date_not_before := date_not_before;
               PersonEvidence.date_not_after := date_not_after |} in
          let by_work := Parser.evidence_by_work st in
          {| Parser.current_work_id := Some current_work_id;
             Parser.current_person := None;
             Parser.current_props := ∅;
             Parser.evidence_by_work :=
               <[current_work_id :=
                   default [] (by_work !! current_work_id) ++ [item]]>
                 by_work |}
        end
  | _, _ => reset_person st
  end.
End FlushPerson.

(** *** The remaining readers of scan_books.py *)

(** [s.rsplit(sep, maxsplit)] for a separator of one character: the string
    before the last separator and the string after it, if there is one. *)
Fixpoint split_last (sep : N) (s : str) : option (str * str) :=
  match s with
  | [] => None
  | c :: r =>
    match split_last sep r with
    | Some (a, b) => Some (c :: a, b)
    | None => if (c =? sep)%N then Some ([], r) else None
    end
  end.

Fixpoint rsplit (sep : N) (s : str) (maxsplit : nat) : list str :=
  match maxsplit with
  | O => [s]
  | S n =>
    match split_last sep s with
    | Some (a, b) => rsplit sep a n ++ [b]
    | None => [s]
    end
  end.

Definition parse_metadata (label : str) : str * str * str :=
  match map strip (rsplit 45 label 2) with
  | [title; dynasty_label; author_label] =>
    (title, dynasty_label, author_label)
  | [title; dynasty_label] => (title, dynasty_label, [])
  | parts => (hd [] parts, [], [])
  end.

(** What the functions modelled below can raise. *)
Inductive exn :=
| ValueError (msg : str)
| IndexError.

Inductive result (A : Type) :=
| Ok (a : A)
| Raise (e : exn).
Arguments Ok {A} a.
Arguments Raise {A} e.

(** A row of [csv.DictReader]: a dict from column name to the field, which is
    [None] when the line is shorter than the header. *)
Abbreviation Row := (gmap str (option str)).

(** [(row.get(key) or "").strip()] *)
Definition get_stripped (row : Row) (key : str) : str :=
  strip (match row !! key with
         | Some (Some value) => value
         | _ => []
         end).

(** [header.index(name)] *)
Fixpoint index_of (header : list str) (name : str) : result nat :=
  match header with
  | [] => Raise (ValueError name)
  | column :: rest =>
    if str_eqb column name then Ok 0%nat
    else match index_of rest name with
         | Ok i => Ok (S i)
         | Raise e => Raise e
         end
  end.

(** The columns [load_cbdb_people] looks up in the header. *)
Module Columns.
Record t := mk {
  idx_name : nat;
  idx_person : nat;
  idx_birth : nat;
  idx_death : nat;
  idx_fl_earliest : nat;
  idx_fl_latest : nat
}.
End Columns.

Definition find_columns (header : list str) : result Columns.t :=
  match index_of header (lit "c_name_chn") with
  | Raise e => Raise e
  | Ok idx_name =>
  match index_of header (lit "c_personid") with
  | Raise e => Raise e
  | Ok idx_person =>
  match index_of header (lit "c_birthyear") with
  | Raise e => Raise e
  | Ok idx_birth =>
  match index_of header (lit "c_deathyear") with
  | Raise e => Raise e
  | Ok idx_death =>
  match index_of header (lit "c_fl_earliest_year") with
  | Raise e => Raise e
  | Ok idx_fl_earliest =>
  match index_of header (lit "c_fl_latest_year") with
  | Raise e => Raise e
  | Ok idx_fl_latest =>
    Ok {| Columns.idx_name := idx_name;
          Columns.idx_person := idx_person;
          Columns.idx_birth := idx_birth;
          Columns.idx_death := idx_death;
          Columns.idx_fl_earliest := idx_fl_earliest;
          Columns.idx_fl_latest := idx_fl_latest |}
  end end end end end end.

(** The truth value of a year in [any([...])]. *)
Definition truthy (year : option Z) : bool :=
  match year with
  | Some y => negb (y =? 0)
  | None => false
  end.

(** [row[idx] if len(row) > idx else ""] *)
Definition cell_or_empty (row : list str) (idx : nat) : str :=
  default [] (row !! idx).

Section Readers.
(** [int(s)] for a string: [None] when it raises [ValueError]. *)
Variable py_int : str -> option Z.

Definition parse_year (value : str) : option Z :=
  let cleaned := strip value in
  if is_empty cleaned || str_eqb cleaned (lit "0") then None
  else
    match py_int cleaned with
    | None => None
    | Some year => if year =? 0 then None else Some year
    end.

(** The loop of [load_cbdb_people] over the rows that follow the header. *)
Fixpoint load_cbdb_rows (cols : Columns.t) (author_names : gset str)
    (rows : list (list str)) (people_by_name : gmap str (list CBDBPerson.t))
    : result (gmap str (list CBDBPerson.t)) :=
  match rows with
  | [] => Ok people_by_name
  | row :: rest =>
    if (length row <=? Columns.idx_name cols)%nat
    then load_cbdb_rows cols author_names rest people_by_name
    else
      let name := strip (cell_or_empty row (Columns.idx_name cols)) in
      if is_empty name || negb (bool_decide (name ∈ author_names))
      then load_cbdb_rows cols author_names rest people_by_name
      else
        let birth := parse_year (cell_or_empty row (Columns.idx_birth cols)) in
        let death := parse_year (cell_or_empty row (Columns.idx_death cols)) in
        let fl_earliest :=
          parse_year (cell_or_empty row (Columns.idx_fl_earliest cols)) in
        let fl_latest :=
          parse_year (cell_or_empty row (Columns.idx_fl_latest cols)) in
        if negb (truthy birth || truthy death
                 || truthy fl_earliest || truthy fl_latest)
        then load_cbdb_rows cols author_names rest people_by_name
        else
          match row !! Columns.idx_person cols with
          | None => Raise IndexError
          | Some person_id =>
            let person :=
              {| CBDBPerson.person_id := strip person_id;
                 CBDBPerson.name := name;
                 CBDBPerson.birth_year := birth;
                 CBDBPerson.death_year := death;
                 CBDBPerson.fl_earliest := fl_earliest;
                 CBDBPerson.fl_latest := fl_latest |} in
            load_cbdb_rows cols author_names rest
              (<[name := default [] (people_by_name !! name) ++ [person]]>
                 people_by_name)
          end
  end.

(** [load_cbdb_people], from the rows the export tool prints: [mdb_exists]
    is [mdb_path.exists()] and [table] is what [csv.reader] yields, the
    header first. *)
Definition load_cbdb_people (mdb_exists : bool) (author_names : gset str)
    (table : list (list str)) : result (gmap str (list CBDBPerson.t)) :=
  if negb mdb_exists || bool_decide (author_names = ∅) then Ok ∅
  else
    match table with
    | [] => Ok ∅
    | [] :: _ => Ok ∅
    | header :: rows =>
      match find_columns header with
      | Raise e => Raise e
      | Ok cols => load_cbdb_rows cols author_names rows ∅
      end
    end.

(** The loop of [load_dynasty_ranges] over the rows of the file. *)
Fixpoint load_dynasty_rows (rows : list Row) (ranges : gmap str (Z * Z))
    : result (gmap str (Z * Z)) :=
  match rows with
  | [] => Ok ranges
  | row :: rest =>
    let label := get_stripped row (lit "dynasty_label") in
    let start := get_stripped row (lit "date_not_before") in
    let end_ := get_stripped row (lit "date_not_after") in
    if is_empty label || is_empty start || is_empty end_
    then load_dynasty_rows rest ranges
    else
      match py_int start with
      | None => Raise (ValueError start)
      | Some date_not_before =>
        match py_int end_ with
        | None => Raise (ValueError end_)
        | Some date_not_after =>
          load_dynasty_rows rest
            (<[label := (date_not_before, date_not_after)]> ranges)
        end
      end
  end.

(** [load_dynasty_ranges]: [file] is [None] when no path is given or the
    path does not exist, and otherwise the rows of the file. *)
Definition load_dynasty_ranges (file : option (list Row))
    : result (gmap str (Z * Z)) :=
  match file with
  | None => Ok DEFAULT_DYNASTY_RANGES
  | Some rows => load_dynasty_rows rows ∅
  end.
End Readers.

(** The variables of [_parse_kr_catalog_file]: those [flush_person] uses and
    [in_people_section]. *)
Module Catalog.
Record t := mk {
  in_people_section : bool;
  parser : Parser.t
}.
End Catalog.

Definition set_work_id (st : Parser.t) (work_id : str) : Parser.t :=
  {| Parser.current_work_id := Some work_id;
     Parser.current_person := Parser.current_person st;
     Parser.current_props := Parser.current_props st;
     Parser.evidence_by_work := Parser.evidence_by_work st |}.

Definition set_person (st : Parser.t) (person : str) : Parser.t :=
  {| Parser.current_work_id := Parser.current_work_id st;
     Parser.current_person := Some person;
     Parser.current_props := Parser.current_props st;
     Parser.evidence_by_work := Parser.evidence_by_work st |}.

Definition set_prop (st : Parser.t) (key value : str) : Parser.t :=
  {| Parser.current_work_id := Parser.current_work_id st;
     Parser.current_person := Parser.current_person st;
     Parser.current_props := <[key := value]> (Parser.current_props st);
     Parser.evidence_by_work := Parser.evidence_by_work st |}.

Section CatalogFile.
Variable parse_dates : str -> option Z * option Z.
(** The regular expressions, as the tests the loop makes on a line:
    [WORK_RE.match] and [PERSON_RE.match] with their group, the two heading
    tests, and [PROPERTY_RE.match] with its two groups. *)
Variable work_match : str -> option str.
Variable people_section_match : str -> bool.
Variable heading4_match : str -> bool.
Variable person_match : str -> option str.
Variable property_match : str -> option (str * str).

(** The body of the loop of [_parse_kr_catalog_file] for one line. *)
Definition parse_line (st : Catalog.t) (line : str) : Catalog.t :=
  let line := rstrip_nl line in
  let p := Catalog.parser st in
  match work_match line with
  | Some work_id =>
    Catalog.mk false (set_work_id (flush_person parse_dates p) work_id)
  | None =>
    if people_section_match line
    then Catalog.mk true (flush_person parse_dates p)
    else if heading4_match line && negb (people_section_match line)
    then Catalog.mk false
           (if Catalog.in_people_section st then flush_person parse_dates p
            else p)
    else if Catalog.in_people_section st then
      match person_match line with
      | Some person =>
        Catalog.mk true (set_person (flush_person parse_dates p) (strip person))
      | None =>
        match property_match line, Parser.current_person p with
        | Some (key, value), Some (_ :: _) =>
          Catalog.mk true (set_prop p key (strip value))
        | _, _ => st
        end
      end
    else st
  end.

Definition parse_kr_catalog_file (lines : list str)
    (evidence_by_work : gmap str (list PersonEvidence.t))
    : gmap str (list PersonEvidence.t) :=
  let start := Catalog.mk false (Parser.mk None None ∅ evidence_by_work) in
  Parser.evidence_by_work
    (flush_person parse_dates
       (Catalog.parser (fold_left parse_line lines start))).

(** [parse_kr_catalog]: [files] is [None] when the directory [KR] does not
    exist, and otherwise the lines of its files [KR*.txt], in the order of
    their names. *)
Definition parse_kr_catalog (files : option (list (list str)))
    : gmap str (list PersonEvidence.t) :=
  match files with
  | None => ∅
  | Some files =>
    fold_left (fun evidence lines => parse_kr_catalog_file lines evidence)
      files ∅
  end.
End CatalogFile.

End ScanBooks.

(** ** cli.py: the query command *)

Module Cli.
Import Py.

Definition UNKNOWN_DATE_KEY : Z * Z := (10 ^ 9, 10 ^ 9).

(** A [pathlib.Path] (a POSIX path) is the sequence of the strings it was
    built from.  [p / name] adds [name], unless [name] is absolute: the
    result is then [Path(name)] and [p] is dropped.  Normalisation of paths
    is left to the file system. *)
Abbreviation Path := (list str).

(** [Path(name).is_absolute()] *)
Definition is_absolute (name : str) : bool := startswith name (lit "/").

Definition path_join (p : Path) (name : str) : Path :=
  if is_absolute name then [name] else p ++ [name].

Fixpoint join (sep : str) (l : list str) : str :=
  match l with
  | [] => []
  | [x] => x
  | x :: l' => x ++ sep ++ join sep l'
  end.

(** [str(path)] *)
Definition path_str (p : Path) : str := join (lit "/") p.

Module Book.
Record t := mk {
  work_id : str;
  title : str;
  dynasty_label : str;
  author_label : str;
  rel_path : str;
  path : Path;
  date_not_before : option Z;
  date_not_after : option Z
}.
End Book.

Module Match.
Record t := mk {
  book : Book.t;
  line_no : Z;
  offset : Z;
  term : str;
  line : str
}.
End Match.

(** A row of [csv.DictReader]: a dict from column name to the field, which is
    [None] when the line is shorter than the header.  A column the header
    does not have is not a key of the dict. *)
Abbreviation Row := (gmap str (option str)).

(** [OSError] stands for the subclasses of [OSError] other than
    [FileNotFoundError] that [open] raises for a path that exists:
    [IsADirectoryError], [PermissionError]. *)
Inductive exn :=
| FileNotFoundError (msg : str)
| KeyError (key : str)
| OSError (msg : str).

(** What the program sees of its surroundings. *)
Module Env.
Record t := mk {
  (** [path.exists()] *)
  file_exists : Path -> bool;
  (** the rows a [csv.DictReader] yields for an existing file *)
  csv_rows : Path -> list Row;
  (** the exception [open] raises for a text file of the corpus although
      the path exists (it is a directory, or may not be read) *)
  text_error : Path -> option exn;
  (** the lines a text handle yields for a file that is opened, each with
      its line terminator *)
  text_lines : Path -> list str;
  (** [Path.cwd()] *)
  cwd : Path;
  (** [Path(__file__).resolve().parents[1]] *)
  package_root : Path
}.
End Env.

Inductive result (A : Type) :=
| Ok (a : A)
| Raise (e : exn).
Arguments Ok {A} a.
Arguments Raise {A} e.

(** [path.open()] followed by [csv.DictReader(handle)] *)
Definition open_csv (env : Env.t) (path : Path) : result (list Row) :=
  if Env.file_exists env path then Ok (Env.csv_rows env path)
  else Raise (FileNotFoundError (path_str path)).

Definition has_books_csv (env : Env.t) (dir : Path) : bool :=
  Env.file_exists env (path_join dir (lit "books.csv")).

Definition resolve_data_dir (env : Env.t) (explicit : option str)
    : result Path :=
  match explicit with
  | Some (c :: e) =>
    let data_dir : Path := [c :: e] in
    if negb (has_books_csv env data_dir)
    then Raise (FileNotFoundError
                  (lit "books.csv not found in " ++ path_str data_dir))
    else Ok data_dir
  | _ =>
    let cwd_data := path_join (Env.cwd env) (lit "data") in
    if has_books_csv env cwd_data then Ok cwd_data
    else
      let package_data := path_join (Env.package_root env) (lit "data") in
      if has_books_csv env package_data then Ok package_data
      else Raise (FileNotFoundError
             (lit "could not locate data directory (expected data/books.csv)"))
  end.

(** [(row.get(key) or "").strip()] *)
Definition get_stripped (row : Row) (key : str) : str :=
  strip (match row !! key with
         | Some (Some value) => value
         | _ => []
         end).

(** The outcome of [int(row[key])]. *)
Inductive int_field :=
| IntValue (z : Z)
| IntKeyError
| IntTypeOrValueError.

(** The parsed command line. *)
Module Args.
Record t := mk {
  term : str;
  limit : Z;
  context : Z;
  data_dir : option str;
  dedup : bool
}.
End Args.

(** How a call of [main] ends: it returns an exit code, having printed
    lines on the two streams; or [parser.error] stops the program (argparse
    prints its usage message and raises [SystemExit]); or an exception
    leaves [main]. *)
Inductive outcome :=
| Return (code : Z) (stdout stderr : list str)
| ParserError (message : str)
| Uncaught (e : exn).

Section Builtins.
(** [int(s)] for a string: [None] when it raises [ValueError]. *)
Variable py_int : str -> option Z.
(** The two script converters, [OpenCC("s2t").convert] and
    [OpenCC("t2s").convert]. *)
Variable s2t t2s : str -> str.

Definition int_of_field (row : Row) (key : str) : int_field :=
  match row !! key with
  | None => IntKeyError
  | Some None => IntTypeOrValueError
  | Some (Some value) =>
    match py_int value with
    | Some z => IntValue z
    | None => IntTypeOrValueError
    end
  end.

(** The [try] block of [load_date_ranges]: [Ok None] when the handler
    catches the exception. *)
Definition try_candidate (row : Row) : result (option (Z * Z)) :=
  match int_of_field row (lit "date_not_before") with
  | IntKeyError => Raise (KeyError (lit "date_not_before"))
  | IntTypeOrValueError => Ok None
  | IntValue date_not_before =>
    match int_of_field row (lit "date_not_after") with
    | IntKeyError => Raise (KeyError (lit "date_not_after"))
    | IntTypeOrValueError => Ok None
    | IntValue date_not_after => Ok (Some (date_not_before, date_not_after))
    end
  end.

Fixpoint load_date_ranges_loop (rows : list Row) (ranges : gmap str (Z * Z))
    : result (gmap str (Z * Z)) :=
  match rows with
  | [] => Ok ranges
  | row :: rest =>
    let work_id := get_stripped row (lit "work_id") in
    if is_empty work_id then load_date_ranges_loop rest ranges
    else
      match try_candidate row with
      | Raise e => Raise e
      | Ok None => load_date_ranges_loop rest ranges
      | Ok (Some candidate) =>
        match ranges !! work_id with
        | None =>
          load_date_ranges_loop rest (<[work_id := candidate]> ranges)
        | Some current =>
          if pair_ltb candidate current
          then load_date_ranges_loop rest (<[work_id := candidate]> ranges)
          else load_date_ranges_loop rest ranges
        end
      end
  end.

Definition load_date_ranges (env : Env.t) (path : Path)
    : result (gmap str (Z * Z)) :=
  match open_csv env path with
  | Raise e => Raise e
  | Ok rows => load_date_ranges_loop rows ∅
  end.

Definition book_sort_key (book : Book.t) : Z * Z * str * str :=
  let date_key :=
    match Book.date_not_before book, Book.date_not_after book with
    | Some date_not_before, Some date_not_after =>
      (date_not_before, date_not_after)
    | _, _ => UNKNOWN_DATE_KEY
    end in
  (fst date_key, snd date_key, Book.work_id book, Book.rel_path book).

(** [a < b] on the tuples [book_sort_key] returns: the first component
    that differs decides. *)
Definition key_ltb (a b : Z * Z * str * str) : bool :=
  let '(a1, a2, a3, a4) := a in
  let '(b1, b2, b3, b4) := b in
  if negb (a1 =? b1) then a1 <? b1
  else if negb (a2 =? b2) then a2 <? b2
  else if negb (str_eqb a3 b3) then str_ltb a3 b3
  else str_ltb a4 b4.

(** The books [load_books] appends, in the order of the rows. *)
Fixpoint read_books (data_dir : Path) (date_ranges : gmap str (Z * Z))
    (rows : list Row) : list Book.t :=
  match rows with
  | [] => []
  | row :: rest =>
    let rel_path := get_stripped row (lit "path") in
    if is_empty rel_path then read_books data_dir date_ranges rest
    else
      let path := path_join data_dir rel_path in
      let date_range := date_ranges !! get_stripped row (lit "work_id") in
      {| Book.work_id := get_stripped row (lit "work_id");
         Book.title := get_stripped row (lit "title");
         Book.dynasty_label := get_stripped row (lit "dynasty_label");
         Book.author_label := get_stripped row (lit "author_label");
         Book.rel_path := rel_path;
         Book.path := path;
         Book.date_not_before := fst <$> date_range;
         Book.date_not_after := snd <$> date_range |}
      :: read_books data_dir date_ranges rest
  end.

Definition load_books (env : Env.t) (data_dir : Path)
    (date_ranges : gmap str (Z * Z)) : result (list Book.t) :=
  match open_csv env (path_join data_dir (lit "books.csv")) with
  | Raise e => Raise e
  | Ok rows =>
    Ok (sort_by key_ltb book_sort_key (read_books data_dir date_ranges rows))
  end.

Definition term_variants (term : str) : list str :=
  let variants : gset str := {[ strip term ]} ∪ {[ s2t term ]} ∪ {[ t2s term ]} in
  let variants := filter (fun variant => variant ≠ []) variants in
  sort_by str_ltb id (elements variants).

(** Termination of the [while True] loop of [iter_line_matches]: a
    position returned by [find] is not before [start], and the occurrence
    lies within the line. *)
Lemma startswith_length (s t : str) :
  startswith s t = true -> (length t <= length s)%nat.
Proof.
  revert s; induction t as [|x t IH]; intros [|y s]; simpl; try lia.
  intros H. apply andb_prop in H as [_ H]. apply IH in H. lia.
Qed.

Lemma find_from_bounds (s term : str) (pos idx : nat) :
  find_from s term pos = Some idx ->
  (pos <= idx /\ idx + length term <= pos + length s)%nat.
Proof.
  revert pos; induction s as [|c s IH]; intros pos; cbn [find_from].
  - destruct term; [intros [= <-]; simpl; lia | done].
  - destruct (startswith (c :: s) term) eqn:E.
    + intros [= <-]. apply startswith_length in E. simpl in *. lia.
    + intros H. apply IH in H. simpl. lia.
Qed.

Lemma find_bounds (line term : str) (start idx : nat) :
  find line term start = Some idx ->
  (start <= idx /\ idx + length term <= length line)%nat.
Proof.
  unfold find. destruct (length line <? start)%nat eqn:E; [done|].
  apply Nat.ltb_ge in E. intros H. apply find_from_bounds in H.
  rewrite length_drop in H. lia.
Qed.

(** The [while True] loop for a term [c :: t], which is not empty, from the
    position [start]; each round appends one pair to [matches]. *)
Function find_loop (line : str) (c : N) (t : str) (start : nat)
    {measure (fun start => (S (length line) - start)%nat) start}
    : list (nat * str) :=
  match find line (c :: t) start with
  | Some idx => (idx, c :: t) :: find_loop line c t (idx + length (c :: t))
  | None => []
  end.
Proof.
  intros line c t start idx Hfind. apply find_bounds in Hfind.
  simpl in *. lia.
Defined.

(** The body of the [for term in variants] loop: the pairs it appends. *)
Definition term_matches (line term : str) : list (nat * str) :=
  match term with
  | [] => []
  | c :: t => find_loop line c t 0
  end.

(** [a < b] on the keys [(item[0], item[1])]. *)
Definition match_ltb (a b : nat * str) : bool :=
  if negb (fst a =? fst b)%nat then (fst a <? fst b)%nat
  else str_ltb (snd a) (snd b).

Definition iter_line_matches (line : str) (variants : list str)
    : list (nat * str) :=
  sort_by match_ltb id (flat_map (term_matches line) variants).

(** The inner [for] loop of [iter_matches] over the matches of one line.
    It returns the matches yielded and the value of [remaining] at the end
    of the line, or [None] when the generator returned. *)
Fixpoint yield_line (book : Book.t) (line_no : Z) (line : str)
    (found : list (nat * str)) (remaining : option Z)
    : list Match.t * option (option Z) :=
  match found with
  | [] => ([], Some remaining)
  | (offset, term) :: found' =>
    let m := {| Match.book := book; Match.line_no := line_no;
                Match.offset := Z.of_nat offset; Match.term := term;
                Match.line := line |} in
    match remaining with
    | None =>
      let '(ms, r) := yield_line book line_no line found' None in
      (m :: ms, r)
    | Some remaining =>
      let remaining := remaining - 1 in
      if remaining <=? 0 then ([m], None)
      else
        let '(ms, r) :=
          yield_line book line_no line found' (Some remaining) in
        (m :: ms, r)
    end
  end.

(** The outer [for] loop of [iter_matches] over the lines of the file. *)
Fixpoint yield_lines (book : Book.t) (variants : list str) (line_no : Z)
    (lines : list str) (remaining : option Z) : list Match.t :=
  match lines with
  | [] => []
  | line :: rest =>
    let line := rstrip_nl line in
    match yield_line book line_no line
            (iter_line_matches line variants) remaining with
    | (ms, None) => ms
    | (ms, Some remaining) =>
      ms ++ yield_lines book variants (line_no + 1) rest remaining
    end
  end.

(** [book.path.open(encoding="utf-8", errors="replace")], for a path that
    exists: the lines of the file, or the exception [open] raises. *)
Definition open_text (env : Env.t) (path : Path) : result (list str) :=
  match Env.text_error env path with
  | Some e => Raise e
  | None => Ok (Env.text_lines env path)
  end.

(** The exception that ends the generator [iter_matches], if one does: the
    file of the book exists and [open] raises.  [open] is called before the
    first [yield], so the generator has then yielded nothing. *)
Definition iter_matches_raises (env : Env.t) (book : Book.t) : option exn :=
  if negb (Env.file_exists env (Book.path book)) then None
  else
    match open_text env (Book.path book) with
    | Raise e => Some e
    | Ok _ => None
    end.

(** The matches the generator [iter_matches] yields, in order. *)
Definition iter_matches (env : Env.t) (book : Book.t) (variants : list str)
    (max_matches : option Z) : list Match.t :=
  if negb (Env.file_exists env (Book.path book)) then []
  else
    match open_text env (Book.path book) with
    | Raise _ => []
    | Ok lines => yield_lines book variants 1 lines max_matches
    end.

Definition render_snippet (line : str) (offset : Z) (term : str)
    (context : Z) : str :=
  let line := rstrip (replace_tab line) in
  let context := Z.max context 0 in
  let start := Z.max 0 (offset - context) in
  let end_ := Z.min (len line) (offset + len term + context) in
  let prefix := slice line start offset in
  let match_ := slice line offset (offset + len term) in
  let suffix := slice line (offset + len term) end_ in
  let left_marker := if 0 <? start then lit "..." else [] in
  let right_marker := if end_ <? len line then lit "..." else [] in
  strip (left_marker ++ prefix ++ lit "[" ++ match_ ++ lit "]"
           ++ suffix ++ right_marker).

Definition format_date_range (book : Book.t) : str :=
  match Book.date_not_before book, Book.date_not_after book with
  | Some date_not_before, Some date_not_after =>
    str_of_Z date_not_before ++ lit ".." ++ str_of_Z date_not_after
  | _, _ => lit "unknown"
  end.

(** The scan loop of [main], from the state [results]: the results at its
    end, or the exception a generator raises, which leaves the loop. *)
Fixpoint scan_loop (env : Env.t) (variants : list str) (limit : Z)
    (dedup : bool) (books : list Book.t) (results : list Match.t)
    : result (list Match.t) :=
  match books with
  | [] => Ok results
  | book :: rest =>
    let remaining := limit - Z.of_nat (length results) in
    if remaining <=? 0 then Ok results
    else
      let per_book_limit := if dedup then 1 else remaining in
      match iter_matches_raises env book with
      | Some e => Raise e
      | None =>
        scan_loop env variants limit dedup rest
          (results ++ iter_matches env book variants (Some per_book_limit))
      end
  end.

Definition or_dash (label : str) : str :=
  if is_empty label then lit "-" else label.

(** The two lines printed for one result. *)
Definition result_lines (context idx : Z) (m : Match.t) : list str :=
  let book := Match.book m in
  let date_label := format_date_range book in
  let author_label := or_dash (Book.author_label book) in
  let dynasty_label := or_dash (Book.dynasty_label book) in
  let location :=
    Book.rel_path book ++ lit ":" ++ str_of_Z (Match.line_no m) in
  let snippet :=
    render_snippet (Match.line m) (Match.offset m) (Match.term m) context in
  [ str_of_Z idx ++ lit ") " ++ date_label ++ lit " | "
      ++ Book.work_id book ++ lit " | " ++ Book.title book ++ lit " | "
      ++ dynasty_label ++ lit " | " ++ author_label ++ lit " | "
      ++ location;
    lit "    " ++ snippet ].

Fixpoint print_results (context idx : Z) (results : list Match.t)
    : list str :=
  match results with
  | [] => []
  | m :: rest =>
    result_lines context idx m ++ print_results context (idx + 1) rest
  end.

Definition main (env : Env.t) (args : Args.t) : outcome :=
  let term := strip (Args.term args) in
  if is_empty term then ParserError (lit "term must be non-empty")
  else if Args.limit args <? 1 then ParserError (lit "limit must be >= 1")
  else
    match resolve_data_dir env (Args.data_dir args) with
    | Raise (FileNotFoundError exc) => Return 2 [] [lit "error: " ++ exc]
    | Raise e => Uncaught e
    | Ok data_dir =>
      match load_date_ranges env
              (path_join data_dir (lit "publication_date_range.csv")) with
      | Raise e => Uncaught e
      | Ok date_ranges =>
        match load_books env data_dir date_ranges with
        | Raise e => Uncaught e
        | Ok books =>
          let variants := term_variants term in
          match scan_loop env variants (Args.limit args) (Args.dedup args)
                  books [] with
          | Raise e => Uncaught e
          | Ok results =>
          let stdout :=
            [ lit "query: " ++ term;
              lit "variants: " ++ join (lit ", ") variants;
              lit "limit: " ++ str_of_Z (Args.limit args);
              lit "dedup: "
                ++ (if Args.dedup args then lit "on" else lit "off");
              lit "results: " ++ str_of_Z (Z.of_nat (length results));
              [] ]
            ++ print_results (Args.context args) 1 results in
          match results with
          | [] => Return 1 stdout []
          | _ :: _ => Return 0 stdout []
          end
          end
        end
      end
    end.
End Builtins.

End Cli.

(** ** Facts about the Python values *)

Module PyFacts.
Import Py.

(** *** Literals, slices and searches on examples *)

Example lit_ascii : lit "ab-1" = [97; 98; 45; 49]%N.
Proof. reflexivity. Qed.

Example lit_cjk : lit "前漢" = [0x524D; 0x6F22]%N.
Proof. reflexivity. Qed.

Example str_of_Z_neg : str_of_Z (-206) = lit "-206".
Proof. reflexivity. Qed.

Example slice_neg : slice (lit "abcdef") (-2) 100 = lit "ef".
Proof. reflexivity. Qed.

Example find_ex : find (lit "abcabc") (lit "bc") 2 = Some 4%nat.
Proof. reflexivity. Qed.

(** *** The order on strings *)

Ltac case_ltb :=
  repeat match goal with
         | |- context [(?x <? ?y)%N] => destruct (N.ltb_spec x y)
         | H : context [(?x <? ?y)%N] |- _ => destruct (N.ltb_spec x y)
         end.

Lemma str_ltb_irrefl (a : str) : str_ltb a a = false.
Proof. induction a as [|x a IH]; simpl; [done|]. case_ltb; try lia. done. Qed.

Lemma str_ltb_trans (a b c : str) :
  str_ltb a b = true -> str_ltb b c = true -> str_ltb a c = true.
Proof.
  revert b c; induction a as [|x a IH]; intros [|y b] [|z c]; simpl;
    try done.
  case_ltb; try done; try lia.
  assert (x = y) by lia. assert (y = z) by lia. subst. apply IH.
Qed.

Lemma str_ltb_total (a b : str) :
  str_ltb a b = false -> str_ltb b a = false -> a = b.
Proof.
  revert b; induction a as [|x a IH]; intros [|y b]; simpl; try done.
  case_ltb; try done; try lia.
  intros Hab Hba. assert (x = y) by lia. subst. f_equal. by apply IH.
Qed.

Lemma str_ltb_asym (a b : str) : str_ltb a b = true -> str_ltb b a = false.
Proof.
  intros H. destruct (str_ltb b a) eqn:E; [|done].
  pose proof (str_ltb_trans _ _ _ H E) as Hc.
  by rewrite str_ltb_irrefl in Hc.
Qed.

Lemma str_eqb_eq (a b : str) : str_eqb a b = true <-> a = b.
Proof. unfold str_eqb. apply bool_decide_eq_true. Qed.

(** *** Sorting *)

Section SortFacts.
Context {A K : Type} (ltb : K -> K -> bool) (key : A -> K).

(** [a] may stand before [b] in a sorted list: the key of [b] is not
    smaller. *)
Definition not_after (a b : A) : Prop := ltb (key b) (key a) = false.

Lemma insert_by_Permutation (x : A) (l : list A) :
  Permutation (insert_by ltb key x l) (x :: l).
Proof.
  induction l as [|y l IH]; simpl; [done|].
  destruct (ltb (key y) (key x)); [|done].
  rewrite IH. apply perm_swap.
Qed.

Lemma sort_by_Permutation (l : list A) : Permutation (sort_by ltb key l) l.
Proof.
  induction l as [|x l IH]; simpl; [done|].
  rewrite insert_by_Permutation. by constructor.
Qed.

Hypothesis ltb_irrefl : forall x, ltb x x = false.
Hypothesis ltb_trans :
  forall x y z, ltb x y = true -> ltb y z = true -> ltb x z = true.
Hypothesis ltb_total :
  forall x y, ltb x y = false -> ltb y x = false -> x = y.

Lemma not_after_trans (a b c : A) :
  not_after a b -> not_after b c -> not_after a c.
Proof.
  unfold not_after. intros Hab Hbc.
  destruct (ltb (key c) (key a)) eqn:Hca; [|done].
  destruct (ltb (key a) (key b)) eqn:Hab'.
  - by rewrite (ltb_trans _ _ _ Hca Hab') in Hbc.
  - rewrite (ltb_total _ _ Hab' Hab) in Hca. by rewrite Hca in Hbc.
Qed.

Lemma ltb_not_after (a b : A) : ltb (key a) (key b) = true -> not_after a b.
Proof.
  unfold not_after. intros H. destruct (ltb (key b) (key a)) eqn:E; [|done].
  pose proof (ltb_trans _ _ _ H E) as Hc. by rewrite ltb_irrefl in Hc.
Qed.

Lemma insert_by_sorted (x : A) (l : list A) :
  StronglySorted not_after l ->
  StronglySorted not_after (insert_by ltb key x l).
Proof.
  induction 1 as [|y l Hs IH Hy]; simpl; [repeat constructor|].
  destruct (ltb (key y) (key x)) eqn:E.
  - constructor; [done|].
    rewrite insert_by_Permutation. constructor; [|done].
    by apply ltb_not_after.
  - constructor; [by constructor|]. constructor; [done|].
    eapply Forall_impl; [exact Hy|]. intros z Hz.
    by apply (not_after_trans x y z).
Qed.

Lemma sort_by_sorted (l : list A) :
  StronglySorted not_after (sort_by ltb key l).
Proof.
  induction l as [|x l IH]; simpl; [constructor|].
  by apply insert_by_sorted.
Qed.
End SortFacts.

(** *** Stripping *)

Lemma lstrip_by_app (p : N -> bool) (a b : str) :
  forallb p a = true -> lstrip_by p (a ++ b) = lstrip_by p b.
Proof.
  induction a as [|c a IH]; simpl; [done|].
  intros H. apply andb_prop in H as [-> H]. by apply IH.
Qed.

Lemma lstrip_by_head (p : N -> bool) (c : N) (s : str) :
  p c = false -> lstrip_by p (c :: s) = c :: s.
Proof. intros H. simpl. by rewrite H. Qed.

Lemma rstrip_by_last (p : N -> bool) (s : str) (c : N) :
  p c = false -> rstrip_by p (s ++ [c]) = s ++ [c].
Proof.
  intros H. unfold rstrip_by. rewrite rev_app_distr. simpl. rewrite H.
  simpl. by rewrite rev_involutive.
Qed.

Lemma rstrip_by_nil (p : N -> bool) : rstrip_by p [] = [].
Proof. done. Qed.

(** What [rstrip_by] returns is empty or ends with a character that is kept,
    and it is the string without a tail of characters that are dropped. *)
Lemma lstrip_by_split (p : N -> bool) (s : str) :
  exists a, s = a ++ lstrip_by p s /\ forallb p a = true
            /\ match lstrip_by p s with
               | [] => True
               | c :: _ => p c = false
               end.
Proof.
  induction s as [|c s (a & Hs & Ha & Hc)]; simpl.
  - by exists [].
  - destruct (p c) eqn:E.
    + exists (c :: a). simpl. rewrite E, Ha. split; [by f_equal|done].
    + exists []. by rewrite E.
Qed.

Lemma rstrip_by_split (p : N -> bool) (s : str) :
  exists b, s = rstrip_by p s ++ b /\ forallb p b = true
            /\ (rstrip_by p s = []
                \/ exists r c, rstrip_by p s = r ++ [c] /\ p c = false).
Proof.
  unfold rstrip_by.
  destruct (lstrip_by_split p (rev s)) as (a & Hs & Ha & Hc).
  exists (rev a). split; [|split].
  - rewrite <- rev_app_distr, <- Hs. by rewrite rev_involutive.
  - rewrite forallb_forall in *. intros x Hx. apply Ha.
    by apply in_rev.
  - destruct (lstrip_by p (rev s)) as [|c r]; [by left|].
    right. exists (rev r), c. by simpl.
Qed.

End PyFacts.

(** ** Properties of the metadata builder *)

Module ScanBooksFacts.
Import Py ScanBooks.

(** *** Scoring of catalog evidence *)

(** The points an evidence record gets for its bounds and for its role. *)
Definition bound_points (item : PersonEvidence.t) : Z :=
  match PersonEvidence.date_not_before item,
        PersonEvidence.date_not_after item with
  | Some _, Some _ => 2
  | None, None => 0
  | _, _ => 1
  end.

Definition authorial (item : PersonEvidence.t) : Prop :=
  PersonEvidence.function item ∈ PREFERRED_FUNCTIONS.

Definition role_points (item : PersonEvidence.t) : Z :=
  if bool_decide (authorial item) then 1 else 0.

Definition both_bounds (item : PersonEvidence.t) : Prop :=
  is_Some (PersonEvidence.date_not_before item)
  /\ is_Some (PersonEvidence.date_not_after item).

Definition one_bound (item : PersonEvidence.t) : Prop :=
  (is_Some (PersonEvidence.date_not_before item)
   /\ PersonEvidence.date_not_after item = None)
  \/ (PersonEvidence.date_not_before item = None
      /\ is_Some (PersonEvidence.date_not_after item)).

(** [best] is the first record of [evidence] with the greatest score. *)
Definition first_of_max_score (evidence : list PersonEvidence.t)
    (best : PersonEvidence.t) : Prop :=
  exists before after,
    evidence = before ++ best :: after
    /\ Forall (fun item => score item < score best) before
    /\ Forall (fun item => score item <= score best) after.

Lemma score_points (item : PersonEvidence.t) :
  score item = bound_points item + role_points item.
Proof.
  unfold score, bound_points, role_points, authorial.
  destruct (PersonEvidence.date_not_before item),
           (PersonEvidence.date_not_after item);
    simpl; case_bool_decide; lia.
Qed.

Lemma score_nonneg (item : PersonEvidence.t) : 0 <= score item.
Proof.
  rewrite score_points. unfold bound_points, role_points.
  destruct (PersonEvidence.date_not_before item),
           (PersonEvidence.date_not_after item);
    case_bool_decide; lia.
Qed.

(** The state of the loop after the records [seen]. *)
Inductive loop_state (seen : list PersonEvidence.t)
  : option PersonEvidence.t -> Z -> Prop :=
| loop_start : seen = [] -> loop_state seen None (-1)
| loop_best best :
    first_of_max_score seen best -> loop_state seen (Some best) (score best).

Lemma choose_best_loop_state (evidence seen : list PersonEvidence.t)
    (best : option PersonEvidence.t) (best_score : Z) :
  loop_state seen best best_score ->
  loop_state (seen ++ evidence)
    (choose_best_loop evidence best best_score)
    (match choose_best_loop evidence best best_score with
     | Some b => score b
     | None => -1
     end).
Proof.
  revert seen best best_score.
  induction evidence as [|item rest IH]; intros seen best best_score Hst.
  - rewrite app_nil_r. simpl. destruct Hst; [by apply loop_start|].
    by apply loop_best.
  - replace (seen ++ item :: rest) with ((seen ++ [item]) ++ rest)
      by (rewrite <- app_assoc; reflexivity).
    simpl. destruct (best_score <? score item) eqn:Hlt.
    + apply IH. apply loop_best.
      apply Z.ltb_lt in Hlt.
      exists seen, []. split; [reflexivity|]. split; [|constructor].
      destruct Hst as [->|b (before & after & -> & Hb & Ha)];
        [constructor|].
      apply Forall_app. split.
      * eapply Forall_impl; [exact Hb|]. simpl. intros; lia.
      * constructor; [lia|]. eapply Forall_impl; [exact Ha|].
        simpl. intros; lia.
    + apply IH. apply Z.ltb_ge in Hlt.
      destruct Hst as [->|b (before & after & -> & Hb & Ha)].
      * pose proof (score_nonneg item). lia.
      * apply loop_best. exists before, (after ++ [item]).
        split; [by rewrite <- app_assoc|]. split; [exact Hb|].
        apply Forall_app. split; [exact Ha|]. by constructor.
Qed.

Lemma choose_best_evidence_result (evidence : list PersonEvidence.t) :
  match choose_best_evidence evidence with
  | None => evidence = []
  | Some best => first_of_max_score evidence best
  end.
Proof.
  unfold choose_best_evidence.
  pose proof (choose_best_loop_state evidence [] None (-1)
                (loop_start [] eq_refl)) as H.
  simpl in H. inversion H; subst; [reflexivity|].
  assumption.
Qed.

(** C4.  [choose_best_evidence] gives each record two points when both bounds
    are present, one point when exactly one is, and one more point when its
    function is in [PREFERRED_FUNCTIONS]; it returns nothing on an empty list
    and otherwise the first of the records with the greatest score.  A record
    with both bounds and an authorial function scores strictly more than a
    record with one bound and a function that is not authorial. *)
Theorem choose_best_evidence_first_max
    (evidence : list PersonEvidence.t) (a b : PersonEvidence.t) :
  (forall item, score item = bound_points item + role_points item)
  /\ match choose_best_evidence evidence with
     | None => evidence = []
     | Some best => first_of_max_score evidence best
     end
  /\ (both_bounds a -> authorial a -> one_bound b -> ~ authorial b ->
      score b < score a).
Proof.
  split; [exact score_points|]. split.
  - apply choose_best_evidence_result.
  - intros [[x Hx] [y Hy]] Ha Hb Hnb. rewrite !score_points.
    unfold bound_points, role_points. rewrite Hx, Hy.
    rewrite (bool_decide_eq_true_2 _ Ha), (bool_decide_eq_false_2 _ Hnb).
    destruct Hb as [[[z Hz] ->]|[-> [z Hz]]]; rewrite Hz; lia.
Qed.

Definition ev_both_author : PersonEvidence.t :=
  PersonEvidence.mk (lit "KR1a0001") (lit "王弼") (lit "注") (lit "魏")
    (lit "226-249") (Some 226) (Some 249).

Definition ev_one_dedicatee : PersonEvidence.t :=
  PersonEvidence.mk (lit "KR1a0001") (lit "某") (lit "贈") (lit "魏")
    (lit "d. 260") None (Some 260).

Lemma choose_best_evidence_first_max_witness :
  choose_best_evidence [ev_one_dedicatee; ev_both_author; ev_both_author]
    = Some ev_both_author
  /\ score ev_one_dedicatee < score ev_both_author.
Proof.
  split; [vm_compute; reflexivity|].
  apply (choose_best_evidence_first_max [] ev_both_author ev_one_dedicatee).
  - split; eexists; reflexivity.
  - apply (proj1 (bool_decide_eq_true (authorial ev_both_author))).
    vm_compute. reflexivity.
  - right. split; [reflexivity | eexists; reflexivity].
  - apply (proj1 (bool_decide_eq_false (authorial ev_one_dedicatee))).
    vm_compute. reflexivity.
Defined.

(** *** The biographical tier *)

(** The row the biographical tier writes for [person] with the interval
    [[nb, na]]. *)
Definition cbdb_row (book : Book.t) (person : CBDBPerson.t) (nb na : Z)
    (date_type : str) : DateRow.t :=
  {| DateRow.work_id := Book.work_id book;
     DateRow.source := lit "cbdb";
     DateRow.date_not_before := Some nb;
     DateRow.date_not_after := Some na;
     DateRow.date_type := date_type;
     DateRow.confidence := lit "medium";
     DateRow.note :=
       lit "name=" ++ CBDBPerson.name person
       ++ lit " id=" ++ CBDBPerson.person_id person;
     DateRow.ref := lit "CBDB_20240208_DATA2" |}.

(** The candidates of a book: the persons recorded under its normalized
    author name. *)
Definition candidates (book : Book.t)
    (cbdb_people : gmap str (list CBDBPerson.t)) : list CBDBPerson.t :=
  match normalize_author_name (Book.author_label book) with
  | Some name => default [] (cbdb_people !! name)
  | None => []
  end.

Definition has_lifespan (person : CBDBPerson.t) : Prop :=
  is_Some (CBDBPerson.birth_year person)
  /\ is_Some (CBDBPerson.death_year person).

Definition has_floruit (person : CBDBPerson.t) : Prop :=
  is_Some (CBDBPerson.fl_earliest person)
  /\ is_Some (CBDBPerson.fl_latest person).

(** C3.  The biographical tier writes a row exactly when the normalized
    author name has one candidate and that candidate has both years of its
    lifespan, or else both years of its floruit: the row then carries the
    lifespan with date type author_lifespan_bound, or else the floruit with
    date type floruit_bound.  With no candidate or with several, and for a
    candidate with neither pair, the tier writes nothing and the catalog tier
    is tried. *)
Theorem cbdb_tier_resolves_iff (book : Book.t)
    (cbdb_people : gmap str (list CBDBPerson.t)) (row : DateRow.t) :
  (cbdb_tier book cbdb_people = Some row <->
   exists name person,
     normalize_author_name (Book.author_label book) = Some name
     /\ default [] (cbdb_people !! name) = [person]
     /\ ((exists b d,
            CBDBPerson.birth_year person = Some b
            /\ CBDBPerson.death_year person = Some d
            /\ row = cbdb_row book person b d (lit "author_lifespan_bound"))
         \/ (~ has_lifespan person
             /\ exists e l,
                  CBDBPerson.fl_earliest person = Some e
                  /\ CBDBPerson.fl_latest person = Some l
                  /\ row = cbdb_row book person e l (lit "floruit_bound"))))
  /\ (length (candidates book cbdb_people) <> 1%nat ->
      cbdb_tier book cbdb_people = None)
  /\ (forall person,
        candidates book cbdb_people = [person] ->
        ~ has_lifespan person -> ~ has_floruit person ->
        cbdb_tier book cbdb_people = None).
Proof.
  unfold cbdb_tier, candidates, has_lifespan, has_floruit, cbdb_date_range.
  destruct (normalize_author_name (Book.author_label book)) as [name|];
    cycle 1.
  { repeat split; try done. by intros (? & ? & ? & _). }
  destruct (default [] (cbdb_people !! name)) as [|p [|q l]] eqn:Hc; simpl.
  1, 3: repeat split; try done;
    intros (name' & p' & [= <-] & Hp & _); by rewrite Hc in Hp.
  destruct (CBDBPerson.birth_year p) as [b|] eqn:Hb,
           (CBDBPerson.death_year p) as [d|] eqn:Hd,
           (CBDBPerson.fl_earliest p) as [e|] eqn:He,
           (CBDBPerson.fl_latest p) as [l|] eqn:Hl;
    unfold cbdb_row, is_Some; simpl;
    (split; [split|split; [done|]]);
    try (intros [= <-]; exists name, p; split; [done|]; split; [done|]);
    try (intros (name' & p' & [= <-] & Hp & H); rewrite Hc in Hp;
         injection Hp as <-);
    try (intros p' [= <-] H1 H2);
    naive_solver.
Qed.

Definition book_wang : Book.t :=
  Book.mk (lit "KR1") (lit "KR1a0001") (lit "周易注") (lit "魏")
    (lit "王弼(撰)") (lit "KR1a0001 周易注-魏-王弼(撰).txt")
    (lit "KR1a/KR1a0001 周易注-魏-王弼(撰).txt").

Definition person_wang : CBDBPerson.t :=
  CBDBPerson.mk (lit "30340") (lit "王弼") (Some 226) (Some 249) None None.

Lemma cbdb_tier_resolves_iff_witness :
  cbdb_tier book_wang {[ lit "王弼" := [person_wang] ]}
    = Some (cbdb_row book_wang person_wang 226 249
              (lit "author_lifespan_bound"))
  /\ cbdb_tier book_wang {[ lit "王弼" := [person_wang; person_wang] ]} = None.
Proof.
  split.
  - apply (proj1 (cbdb_tier_resolves_iff book_wang _ _)).
    exists (lit "王弼"), person_wang.
    split; [vm_compute; reflexivity|]. split; [vm_compute; reflexivity|].
    left. exists 226, 249. repeat split.
  - apply (proj2 (cbdb_tier_resolves_iff book_wang _
                    (cbdb_row book_wang person_wang 0 0 []))).
    vm_compute. intros H; discriminate H.
Defined.

(** *** The dynasty fallback *)

(** The label looked up in the range table: the canonical label of an
    alias, the label itself otherwise. *)
Definition canonical_label (dynasty_label : str) : str :=
  default dynasty_label (DYNASTY_ALIASES !! dynasty_label).

Definition interval (r : option Z * option Z * str) : option Z * option Z :=
  (r.1.1, r.1.2).

(** Every alias is a non-empty label that differs from its canonical label,
    and no canonical label is itself an alias. *)
Lemma alias_canonical (alias canonical : str) :
  DYNASTY_ALIASES !! alias = Some canonical ->
  alias <> [] /\ canonical <> [] /\ canonical <> alias
  /\ DYNASTY_ALIASES !! canonical = None.
Proof.
  intros H. apply elem_of_list_to_map_2 in H.
  repeat (apply elem_of_cons in H as [H|H];
          [injection H as -> ->; vm_compute; repeat split; discriminate|]).
  by apply elem_of_nil in H.
Qed.

Lemma resolve_unaliased (label : str) (ranges : gmap str (Z * Z)) :
  label <> [] -> DYNASTY_ALIASES !! label = None ->
  resolve_dynasty_range label ranges =
    match ranges !! label with
    | None => (None, None, lit "unmapped dynasty label=" ++ label)
    | Some (nb, na) => (Some nb, Some na, lit "dynasty_label=" ++ label)
    end.
Proof.
  intros Hne Hnone. unfold resolve_dynasty_range. rewrite Hnone. simpl.
  destruct label as [|c label]; [done|]. simpl.
  destruct (ranges !! (c :: label)) as [[nb na]|]; [|done].
  unfold str_eqb. by rewrite bool_decide_eq_true_2.
Qed.

Lemma resolve_aliased (label canonical : str) (ranges : gmap str (Z * Z)) :
  DYNASTY_ALIASES !! label = Some canonical ->
  resolve_dynasty_range label ranges =
    match ranges !! canonical with
    | None => (None, None, lit "unmapped dynasty label=" ++ label)
    | Some (nb, na) =>
      (Some nb, Some na,
       lit "dynasty_label=" ++ label ++ lit " alias=" ++ canonical)
    end.
Proof.
  intros Halias. destruct (alias_canonical _ _ Halias) as (Hne & _ & Hdiff & _).
  unfold resolve_dynasty_range. rewrite Halias. simpl.
  destruct label as [|c label]; [done|]. simpl.
  destruct (ranges !! canonical) as [[nb na]|]; [|done].
  unfold str_eqb. by rewrite bool_decide_eq_false_2.
Qed.

(** C6.  [resolve_dynasty_range] on an empty label gives no interval and the
    note "missing dynasty label"; on a label whose canonical form is not in
    the table, no interval and a note naming the label; on an alias, the
    interval that its canonical label gives, with a note naming the alias and
    the canonical label when the table has it; on a label that is in the
    table and is not an alias, the interval of the table with a note naming
    the label. *)
Theorem resolve_dynasty_range_cases (dynasty_label : str)
    (ranges : gmap str (Z * Z)) :
  let r := resolve_dynasty_range dynasty_label ranges in
  let canonical := canonical_label dynasty_label in
  (dynasty_label = [] -> r = (None, None, lit "missing dynasty label"))
  /\ (dynasty_label <> [] -> ranges !! canonical = None ->
      r = (None, None, lit "unmapped dynasty label=" ++ dynasty_label))
  /\ (is_Some (DYNASTY_ALIASES !! dynasty_label) ->
      interval r = interval (resolve_dynasty_range canonical ranges)
      /\ forall nb na,
           ranges !! canonical = Some (nb, na) ->
           r = (Some nb, Some na,
                lit "dynasty_label=" ++ dynasty_label
                ++ lit " alias=" ++ canonical))
  /\ (dynasty_label <> [] -> DYNASTY_ALIASES !! dynasty_label = None ->
      forall nb na,
        ranges !! dynasty_label = Some (nb, na) ->
        r = (Some nb, Some na, lit "dynasty_label=" ++ dynasty_label)).
Proof.
  simpl. unfold canonical_label. repeat split.
  - by intros ->.
  - intros Hne Hnone.
    destruct (DYNASTY_ALIASES !! dynasty_label) as [c|] eqn:Halias; simpl in *.
    + by rewrite (resolve_aliased _ _ _ Halias), Hnone.
    + by rewrite (resolve_unaliased _ _ Hne Halias), Hnone.
  - destruct H as [c Halias]. rewrite Halias. simpl.
    destruct (alias_canonical _ _ Halias) as (_ & Hc & _ & Hnot).
    rewrite (resolve_aliased _ _ _ Halias), (resolve_unaliased _ _ Hc Hnot).
    by destruct (ranges !! c) as [[nb na]|].
  - destruct H as [c Halias]. rewrite Halias. simpl. intros nb na Hin.
    by rewrite (resolve_aliased _ _ _ Halias), Hin.
  - intros Hne Hnone nb na Hin.
    by rewrite (resolve_unaliased _ _ Hne Hnone), Hin.
Qed.

Lemma resolve_dynasty_range_cases_witness :
  is_Some (DYNASTY_ALIASES !! lit "前漢")
  /\ interval (resolve_dynasty_range (lit "前漢") DEFAULT_DYNASTY_RANGES)
     = interval (resolve_dynasty_range (lit "西漢") DEFAULT_DYNASTY_RANGES)
  /\ resolve_dynasty_range (lit "前漢") DEFAULT_DYNASTY_RANGES
     = (Some (-206), Some 8, lit "dynasty_label=前漢 alias=西漢").
Proof.
  assert (Halias : is_Some (DYNASTY_ALIASES !! lit "前漢"))
    by (eexists; vm_compute; reflexivity).
  split; [exact Halias|].
  destruct (resolve_dynasty_range_cases (lit "前漢") DEFAULT_DYNASTY_RANGES)
    as (_ & _ & H & _).
  destruct (H Halias) as [Hint Hnote]. split.
  - exact Hint.
  - rewrite (Hnote (-206) 8); vm_compute; reflexivity.
Defined.

(** *** The catalog tier and the fallback *)

(** The evidence records of a book. *)
Definition evidence_of (book : Book.t)
    (kr_evidence : gmap str (list PersonEvidence.t))
    : list PersonEvidence.t :=
  default [] (kr_evidence !! Book.work_id book).

Definition some_bound (item : PersonEvidence.t) : Prop :=
  is_Some (PersonEvidence.date_not_before item)
  \/ is_Some (PersonEvidence.date_not_after item).

Lemma choose_best_evidence_nonempty (item : PersonEvidence.t)
    (rest : list PersonEvidence.t) :
  exists best,
    choose_best_evidence (item :: rest) = Some best
    /\ first_of_max_score (item :: rest) best.
Proof.
  pose proof (choose_best_evidence_result (item :: rest)) as H.
  destruct (choose_best_evidence (item :: rest)) as [best|]; [|done].
  by exists best.
Qed.

Definition book_anon : Book.t :=
  Book.mk (lit "KR1") (lit "KR1a0002") (lit "易傳") (lit "前漢") (lit "佚名")
    (lit "KR1a0002 易傳-前漢-佚名.txt") (lit "KR1a/KR1a0002 易傳-前漢-佚名.txt").

End ScanBooksFacts.

(** ** Properties of the query command *)

Module CliFacts.
Import Py PyFacts Cli.

(** *** The order of the works *)

Definition str_lt (a b : str) : Prop := str_ltb a b = true.

(** [p < q] on pairs of integers. *)
Definition lex_lt (p q : Z * Z) : Prop :=
  p.1 < q.1 \/ (p.1 = q.1 /\ p.2 < q.2).

Definition sorts_before (a b : Book.t) : Prop :=
  key_ltb (book_sort_key a) (book_sort_key b) = true.

(** Both bounds of the book are known, and they are the pair [p]. *)
Definition known (book : Book.t) (p : Z * Z) : Prop :=
  Book.date_not_before book = Some p.1 /\ Book.date_not_after book = Some p.2.

Definition unknown (book : Book.t) : Prop :=
  Book.date_not_before book = None \/ Book.date_not_after book = None.

(** The tie-break: by work identifier, then by relative path. *)
Definition tie_break (a b : Book.t) : Prop :=
  str_lt (Book.work_id a) (Book.work_id b)
  \/ (Book.work_id a = Book.work_id b
      /\ str_lt (Book.rel_path a) (Book.rel_path b)).

(** The date part of the sort key. *)
Definition date_key (book : Book.t) : Z * Z :=
  ((book_sort_key book).1.1.1, (book_sort_key book).1.1.2).

Lemma pair_ltb_lex_lt (p q : Z * Z) : pair_ltb p q = true <-> lex_lt p q.
Proof.
  unfold pair_ltb, lex_lt.
  destruct (Z.eqb_spec p.1 q.1); simpl; rewrite Z.ltb_lt; lia.
Qed.

Lemma key_ltb_spec (a b : Z * Z * str * str) :
  key_ltb a b = true <->
  lex_lt (a.1.1.1, a.1.1.2) (b.1.1.1, b.1.1.2)
  \/ ((a.1.1.1, a.1.1.2) = (b.1.1.1, b.1.1.2)
      /\ (str_lt a.1.2 b.1.2 \/ (a.1.2 = b.1.2 /\ str_lt a.2 b.2))).
Proof.
  destruct a as [[[a1 a2] a3] a4], b as [[[b1 b2] b3] b4].
  unfold key_ltb, lex_lt, str_lt, str_eqb. simpl.
  destruct (Z.eqb_spec a1 b1) as [->|]; simpl.
  2: { rewrite Z.ltb_lt. split; [lia|]. intros [?|[[= ? ?] _]]; lia. }
  destruct (Z.eqb_spec a2 b2) as [->|]; simpl.
  2: { rewrite Z.ltb_lt. split; [lia|]. intros [?|[[= ?] _]]; lia. }
  case_bool_decide as Heq; simpl.
  - subst. rewrite str_ltb_irrefl. split; [by auto|].
    intros [?|[_ [?|[_ ?]]]]; try done; lia.
  - split; [by auto|]. intros [?|[_ [?|[? _]]]]; try done; lia.
Qed.

Lemma key_ltb_irrefl (a : Z * Z * str * str) : key_ltb a a = false.
Proof.
  destruct (key_ltb a a) eqn:E; [|done]. apply key_ltb_spec in E.
  unfold lex_lt, str_lt in E. simpl in E.
  rewrite !str_ltb_irrefl in E. destruct E as [?|[_ [?|[_ ?]]]]; try done; lia.
Qed.

Lemma key_ltb_trans (a b c : Z * Z * str * str) :
  key_ltb a b = true -> key_ltb b c = true -> key_ltb a c = true.
Proof.
  rewrite !key_ltb_spec. unfold lex_lt, str_lt. simpl.
  intros [Hab|[[= Hab1 Hab2] Hab]] [Hbc|[[= Hbc1 Hbc2] Hbc]].
  - left. lia.
  - left. lia.
  - left. lia.
  - right. split; [congruence|].
    destruct Hab as [Hab|[Hab3 Hab]], Hbc as [Hbc|[Hbc3 Hbc]].
    + left. by eapply str_ltb_trans.
    + left. by rewrite <- Hbc3.
    + left. by rewrite Hab3.
    + right. split; [congruence|]. by eapply str_ltb_trans.
Qed.

Lemma key_ltb_total (a b : Z * Z * str * str) :
  key_ltb a b = false -> key_ltb b a = false -> a = b.
Proof.
  destruct a as [[[a1 a2] a3] a4], b as [[[b1 b2] b3] b4].
  unfold key_ltb, str_eqb.
  destruct (Z.eqb_spec a1 b1) as [E1|E1], (Z.eqb_spec b1 a1) as [E1'|E1'];
    simpl; try congruence; try (rewrite !Z.ltb_ge; intros; lia).
  destruct (Z.eqb_spec a2 b2) as [E2|E2], (Z.eqb_spec b2 a2) as [E2'|E2'];
    simpl; try congruence; try (rewrite !Z.ltb_ge; intros; lia).
  subst. repeat case_bool_decide; simpl; try congruence.
  - subst. intros H1 H2. by rewrite (str_ltb_total _ _ H1 H2).
  - intros H1 H2. by pose proof (str_ltb_total _ _ H1 H2).
Qed.

Lemma date_key_known (book : Book.t) (p : Z * Z) :
  known book p -> date_key book = p.
Proof.
  intros [Hb Ha]. unfold date_key, book_sort_key. rewrite Hb, Ha.
  by destruct p.
Qed.

Lemma date_key_unknown (book : Book.t) :
  unknown book -> date_key book = UNKNOWN_DATE_KEY.
Proof.
  unfold date_key, book_sort_key.
  intros [H|H]; rewrite H; [done|].
  by destruct (Book.date_not_before book).
Qed.

Lemma sorts_before_spec (a b : Book.t) :
  sorts_before a b <->
  lex_lt (date_key a) (date_key b)
  \/ (date_key a = date_key b /\ tie_break a b).
Proof. unfold sorts_before. by rewrite key_ltb_spec. Qed.

Lemma StronglySorted_not_after (l : list Book.t) :
  StronglySorted (not_after key_ltb book_sort_key) l ->
  StronglySorted (fun a b => ~ sorts_before b a) l.
Proof.
  induction 1 as [|a l Hs IH Ha]; constructor; [done|].
  eapply Forall_impl; [exact Ha|]. unfold not_after, sorts_before.
  intros b Hb. by rewrite Hb.
Qed.

(** C1, as the code has it.  [load_books] returns the books of the listing
    arranged by their sort keys.  Between two books whose bounds are both
    known the pair of bounds decides, lexicographically, and equal pairs are
    ordered by work identifier, then by relative path.  A book with an absent
    bound takes the place of the pair (10^9, 10^9): it comes after every book
    whose known pair is below that pair, and the books with an absent bound
    are ordered among themselves by work identifier, then by relative
    path. *)
Theorem load_books_sorted (env : Env.t) (data_dir : Path)
    (date_ranges : gmap str (Z * Z)) :
  Env.file_exists env (path_join data_dir (lit "books.csv")) = true ->
  exists books,
    load_books env data_dir date_ranges = Ok books
    /\ Permutation books
         (read_books data_dir date_ranges
            (Env.csv_rows env (path_join data_dir (lit "books.csv"))))
    /\ StronglySorted (fun a b => ~ sorts_before b a) books
    /\ (forall a b p q,
          known a p -> known b q ->
          (sorts_before a b <-> lex_lt p q \/ (p = q /\ tie_break a b)))
    /\ (forall a b p,
          known a p -> unknown b -> lex_lt p UNKNOWN_DATE_KEY ->
          sorts_before a b /\ ~ sorts_before b a)
    /\ (forall a b,
          unknown a -> unknown b -> (sorts_before a b <-> tie_break a b)).
Proof.
  intros Hex. unfold load_books, open_csv. rewrite Hex.
  eexists. split; [reflexivity|]. split; [apply sort_by_Permutation|].
  split.
  { apply StronglySorted_not_after, sort_by_sorted.
    - exact key_ltb_irrefl.
    - exact key_ltb_trans.
    - exact key_ltb_total. }
  split; [|split].
  - intros a b p q Ha Hb. rewrite sorts_before_spec.
    by rewrite (date_key_known _ _ Ha), (date_key_known _ _ Hb).
  - intros a b p Ha Hb Hlt. rewrite !sorts_before_spec.
    rewrite (date_key_known _ _ Ha), (date_key_unknown _ Hb).
    split; [by left|]. unfold lex_lt in *.
    intros [?|[Heq _]]; [lia|]. rewrite <- Heq in Hlt. lia.
  - intros a b Ha Hb. rewrite sorts_before_spec.
    rewrite (date_key_unknown _ Ha), (date_key_unknown _ Hb).
    unfold lex_lt. split; [|by auto]. intros [?|[_ ?]]; [lia|done].
Qed.

(** *** A small corpus for the examples *)

(** A reader of decimal numbers for the examples: an optional minus sign,
    then ASCII digits.  [int] accepts these strings with the same value. *)
Fixpoint digits_value (s : str) (acc : Z) : option Z :=
  match s with
  | [] => Some acc
  | c :: r =>
    if ((48 <=? c) && (c <=? 57))%N
    then digits_value r (acc * 10 + Z.of_N (c - 48))
    else None
  end.

Definition int_ascii (s : str) : option Z :=
  match s with
  | [] => None
  | c :: r =>
    if (c =? 45)%N
    then (if is_empty r then None else Z.opp <$> digits_value r 0)
    else digits_value s 0
  end.

(** A row in which every column of [fields] has a value. *)
Definition row_of (fields : list (str * str)) : Row :=
  list_to_map (map (fun kv => (kv.1, Some kv.2)) fields).

Definition books_csv : Path := [lit "data"; lit "books.csv"].
Definition dates_csv : Path := [lit "data"; lit "publication_date_range.csv"].

(** The data directory [data] under the working directory [.], with the two
    tables and the text files [texts], given by relative path; every text
    file can be opened. *)
Definition corpus (books dates : list Row) (texts : list (str * list str))
    : Env.t :=
  {| Env.file_exists := fun p =>
       bool_decide (p = books_csv) || bool_decide (p = dates_csv)
       || existsb (fun t => bool_decide (p = [lit "data"; t.1])) texts;
     Env.csv_rows := fun p =>
       if bool_decide (p = books_csv) then books else dates;
     Env.text_error := fun _ => None;
     Env.text_lines := fun p =>
       match List.find (fun t => bool_decide (p = [lit "data"; t.1])) texts with
       | Some t => t.2
       | None => []
       end;
     Env.cwd := [];
     Env.package_root := [lit "src"] |}.

(** The surroundings [env], except that [open] raises [e] for the text file
    [p]. *)
Definition unreadable (env : Env.t) (p : Path) (e : exn) : Env.t :=
  {| Env.file_exists := Env.file_exists env;
     Env.csv_rows := Env.csv_rows env;
     Env.text_error := fun q =>
       if bool_decide (q = p) then Some e else Env.text_error env q;
     Env.text_lines := Env.text_lines env;
     Env.cwd := Env.cwd env;
     Env.package_root := Env.package_root env |}.

Definition book_row (work_id title dynasty author path : string) : Row :=
  row_of [ (lit "collection", lit "KR9"); (lit "work_id", lit work_id);
           (lit "title", lit title); (lit "dynasty_label", lit dynasty);
           (lit "author_label", lit author); (lit "filename", lit path);
           (lit "path", lit path) ].

Definition date_row_of (work_id not_before not_after : string) : Row :=
  row_of [ (lit "work_id", lit work_id); (lit "source", lit "kr_catalog");
           (lit "date_not_before", lit not_before);
           (lit "date_not_after", lit not_after) ].

Definition three_works : Env.t :=
  corpus
    [ book_row "KR9z0003" "丙" "" "" "c.txt";
      book_row "KR9z0002" "乙" "漢" "" "b.txt";
      book_row "KR9z0001" "甲" "秦" "" "a.txt" ]
    [ date_row_of "KR9z0001" "-200" "-150";
      date_row_of "KR9z0002" "100" "200" ]
    [ (lit "a.txt", [lit "天地玄黃" ++ [10%N]; lit "宇宙洪荒"]);
      (lit "b.txt", [lit "日月盈昃 天地"]);
      (lit "c.txt", [lit "天地天地"]) ].

(** The dates of the two dated works of [three_works]. *)
Definition three_ranges : gmap str (Z * Z) :=
  {[ lit "KR9z0001" := (-200, -150); lit "KR9z0002" := (100, 200) ]}.

Lemma load_books_sorted_witness :
  exists a b c,
    load_books three_works [lit "data"] three_ranges = Ok [a; b; c]
    /\ known a (-200, -150) /\ known b (100, 200) /\ unknown c
    /\ sorts_before a b
    /\ (sorts_before b c /\ ~ sorts_before c b)
    /\ StronglySorted (fun x y => ~ sorts_before y x) [a; b; c].
Proof.
  destruct (load_books_sorted three_works [lit "data"] three_ranges eq_refl)
    as (books & Hload & _ & Hsorted & Hkk & Hku & _).
  assert (Hbooks := Hload). vm_compute in Hbooks.
  injection Hbooks as <-.
  match type of Hload with
  | _ = Ok [?a; ?b; ?c] => exists a, b, c
  end.
  split; [exact Hload|].
  split; [split; reflexivity|]. split; [split; reflexivity|].
  split; [left; reflexivity|]. split; [|split; [|exact Hsorted]].
  - apply (Hkk _ _ (-200, -150) (100, 200)); try (split; reflexivity).
    left. unfold lex_lt. simpl. lia.
  - apply (Hku _ _ (100, 200)); [split; reflexivity|left; reflexivity|].
    unfold lex_lt, UNKNOWN_DATE_KEY. simpl. lia.
Defined.

(** A corpus in which one work is dated to the year 2000000000 and the other
    has no date. *)
Definition far_future : Env.t :=
  corpus
    [ book_row "KR9z0001" "甲" "" "" "a.txt";
      book_row "KR9z0002" "乙" "" "" "b.txt" ]
    [ date_row_of "KR9z0001" "2000000000" "2000000000" ]
    [].

(** C1 as stated fails: a book without date is placed before a book whose
    two bounds are known and are greater than 10^9. *)
Lemma load_books_unknown_before_known :
  exists ranges u k,
    load_date_ranges int_ascii far_future dates_csv = Ok ranges
    /\ load_books far_future [lit "data"] ranges = Ok [u; k]
    /\ unknown u
    /\ known k (2000000000, 2000000000)
    /\ sorts_before u k.
Proof.
  eexists _, _, _. split; [vm_compute; reflexivity|].
  split; [vm_compute; reflexivity|].
  split; [left; reflexivity|]. split; [split; reflexivity|].
  vm_compute. reflexivity.
Qed.

(** *** Loading the date ranges *)

Section DateRanges.
Variable py_int : str -> option Z.

(** What a row contributes: its work identifier and its pair of dates when
    the identifier is not blank and both date fields are present and are
    integers; nothing otherwise. *)
Definition parsed_row (row : Row) : option (str * (Z * Z)) :=
  let work_id := get_stripped row (lit "work_id") in
  if is_empty work_id then None
  else
    match row !! lit "date_not_before", row !! lit "date_not_after" with
    | Some (Some before), Some (Some after) =>
      match py_int before, py_int after with
      | Some nb, Some na => Some (work_id, (nb, na))
      | _, _ => None
      end
    | _, _ => None
    end.

(** The pairs the rows contribute to a work, in the order of the rows. *)
Definition pairs_of (rows : list Row) (work_id : str) : list (Z * Z) :=
  omap (fun row =>
          match parsed_row row with
          | Some (w, p) => if decide (w = work_id) then Some p else None
          | None => None
          end) rows.

(** The header of the table has the two date columns. *)
Definition has_date_columns (row : Row) : Prop :=
  is_Some (row !! lit "date_not_before")
  /\ is_Some (row !! lit "date_not_after").

(** [p] is a least pair of [l]. *)
Definition least_pair (l : list (Z * Z)) (p : Z * Z) : Prop :=
  p ∈ l /\ Forall (fun q => ~ lex_lt q p) l.

(** The update of one entry of [ranges] by one candidate. *)
Definition keep_least (current : option (Z * Z)) (candidate : Z * Z)
    : option (Z * Z) :=
  match current with
  | None => Some candidate
  | Some c => if pair_ltb candidate c then Some candidate else Some c
  end.

Lemma try_candidate_parsed (row : Row) :
  has_date_columns row ->
  is_empty (get_stripped row (lit "work_id")) = false ->
  try_candidate py_int row = Ok (snd <$> parsed_row row).
Proof.
  intros [[b Hb] [a Ha]] Hid.
  unfold try_candidate, int_of_field, parsed_row. rewrite Hid, Hb, Ha.
  destruct b as [b|]; [|by destruct a].
  destruct (py_int b) as [nb|]; [|by destruct a].
  destruct a as [a|]; [|done]. by destruct (py_int a).
Qed.

Lemma pairs_of_cons (row : Row) (rows : list Row) (work_id : str) :
  pairs_of (row :: rows) work_id =
    match parsed_row row with
    | Some (w, p) =>
      if decide (w = work_id) then p :: pairs_of rows work_id
      else pairs_of rows work_id
    | None => pairs_of rows work_id
    end.
Proof.
  unfold pairs_of. cbn [omap list_omap].
  destruct (parsed_row row) as [[w p]|]; [|done].
  by destruct (decide (w = work_id)).
Qed.

Lemma parsed_row_work_id (row : Row) (w : str) (p : Z * Z) :
  parsed_row row = Some (w, p) -> w = get_stripped row (lit "work_id").
Proof. unfold parsed_row. repeat case_match; congruence. Qed.

(** The entry of [work_id] after one round of the loop with the candidate
    [p] for the work [w]. *)
Lemma load_date_ranges_round (w : str) (p : Z * Z)
    (ranges : gmap str (Z * Z)) :
  exists ranges1,
    (forall k, ranges1 !! k
               = if decide (w = k) then keep_least (ranges !! w) p
                 else ranges !! k)
    /\ forall rows,
         match ranges !! w with
         | None => load_date_ranges_loop py_int rows (<[w:=p]> ranges)
         | Some current =>
           if pair_ltb p current
           then load_date_ranges_loop py_int rows (<[w:=p]> ranges)
           else load_date_ranges_loop py_int rows ranges
         end = load_date_ranges_loop py_int rows ranges1.
Proof.
  unfold keep_least. destruct (ranges !! w) as [c|] eqn:Hc.
  - destruct (pair_ltb p c).
    + exists (<[w:=p]> ranges). split; [|done].
      intros k. rewrite lookup_insert. by case_decide.
    + exists ranges. split; [|done].
      intros k. case_decide; by subst.
  - exists (<[w:=p]> ranges). split; [|done].
    intros k. rewrite lookup_insert. by case_decide.
Qed.

Lemma load_date_ranges_loop_fold (rows : list Row)
    (ranges : gmap str (Z * Z)) :
  Forall has_date_columns rows ->
  exists ranges',
    load_date_ranges_loop py_int rows ranges = Ok ranges'
    /\ forall work_id,
         ranges' !! work_id
         = fold_left keep_least (pairs_of rows work_id) (ranges !! work_id).
Proof.
  intros Hrows. revert ranges.
  induction Hrows as [|row rows Hrow _ IH]; intros ranges.
  - by exists ranges.
  - cbn [load_date_ranges_loop]. setoid_rewrite pairs_of_cons.
    destruct (is_empty (get_stripped row (lit "work_id"))) eqn:Hid.
    { unfold parsed_row. rewrite Hid. apply IH. }
    rewrite (try_candidate_parsed row Hrow Hid).
    destruct (parsed_row row) as [[w p]|] eqn:Hp; simpl; [|apply IH].
    rewrite <- (parsed_row_work_id _ _ _ Hp).
    destruct (load_date_ranges_round w p ranges) as (ranges1 & Hlook & ->).
    destruct (IH ranges1) as (ranges' & Hload & Hfold).
    exists ranges'. split; [done|]. intros k.
    rewrite Hfold, Hlook. case_decide; by subst.
Qed.

Lemma fold_keep_least_some (l : list (Z * Z)) (c : Z * Z) :
  exists p,
    fold_left keep_least l (Some c) = Some p
    /\ (p = c \/ p ∈ l) /\ ~ lex_lt c p /\ Forall (fun q => ~ lex_lt q p) l.
Proof.
  revert c; induction l as [|q l IH]; intros c; simpl.
  - exists c. unfold lex_lt. repeat split; auto; lia.
  - destruct (pair_ltb q c) eqn:E.
    + apply pair_ltb_lex_lt in E.
      destruct (IH q) as (p & -> & Hin & Hle & Hall).
      exists p. split; [done|]. unfold lex_lt in *.
      split; [|split].
      * right. destruct Hin as [->|Hin]; [left|by right].
      * lia.
      * by constructor.
    + assert (~ lex_lt q c) by (rewrite <- pair_ltb_lex_lt; congruence).
      destruct (IH c) as (p & -> & Hin & Hle & Hall).
      exists p. split; [done|]. unfold lex_lt in *.
      split; [|split].
      * destruct Hin as [->|Hin]; [by left|right; by right].
      * done.
      * constructor; [lia|done].
Qed.

Lemma fold_keep_least_none (l : list (Z * Z)) :
  match fold_left keep_least l None with
  | None => l = []
  | Some p => least_pair l p
  end.
Proof.
  destruct l as [|q l]; simpl; [done|].
  destruct (fold_keep_least_some l q) as (p & -> & Hin & Hle & Hall).
  split.
  - destruct Hin as [->|Hin]; [left|by right].
  - by constructor.
Qed.

(** White space only. *)
Definition blank (s : str) : Prop := forallb isspace s = true.

(** [w] is [v] without the white space at its two ends: [v] is [w] between
    two runs of white space, and [w] neither starts nor ends with white
    space. *)
Definition trimmed (v w : str) : Prop :=
  exists a b,
    v = a ++ w ++ b /\ blank a /\ blank b
    /\ (forall c r, w = c :: r -> isspace c = false)
    /\ (forall r c, w = r ++ [c] -> isspace c = false).

Lemma rstrip_by_blank (p : N -> bool) (s b : str) :
  forallb p b = true -> rstrip_by p (s ++ b) = rstrip_by p s.
Proof.
  intros Hb. unfold rstrip_by. rewrite rev_app_distr.
  rewrite lstrip_by_app; [done|].
  rewrite forallb_forall in *. intros x Hx. apply Hb. by apply in_rev.
Qed.

Lemma strip_trimmed (v w : str) : trimmed v w <-> strip v = w.
Proof.
  unfold strip, lstrip, rstrip. split.
  - intros (a & b & -> & Ha & Hb & Hhead & Hlast).
    rewrite lstrip_by_app by done.
    destruct w as [|c r].
    { simpl. rewrite <- (app_nil_r b), lstrip_by_app by done. done. }
    change ((c :: r) ++ b) with (c :: (r ++ b)).
    rewrite lstrip_by_head by (by eapply Hhead).
    change (c :: (r ++ b)) with ((c :: r) ++ b).
    rewrite rstrip_by_blank by done.
    destruct (exists_last (l := c :: r) ltac:(done)) as (r' & c' & Hw).
    rewrite Hw. apply rstrip_by_last. by eapply Hlast.
  - intros <-.
    destruct (lstrip_by_split isspace v) as (a & Hv & Ha & Hhead).
    destruct (rstrip_by_split isspace (lstrip_by isspace v))
      as (b & Hl & Hb & Hlast).
    exists a, b. split; [by rewrite <- Hl|]. split; [done|]. split; [done|].
    split.
    + intros c r Hw. rewrite Hw in Hl. rewrite Hl in Hhead. done.
    + intros r c Hw. destruct Hlast as [Hnil|(r' & c' & Hw' & Hc')].
      * rewrite Hnil in Hw. by destruct r.
      * rewrite Hw' in Hw. by apply app_inj_tail in Hw as [_ ->].
Qed.

(** A row that can be parsed, independently of how the code reads it: its
    work identifier, without the white space at its ends, is [work_id],
    which is not empty, and its two date fields are there and are the
    integers of the pair [p]. *)
Definition contributes (row : Row) (work_id : str) (p : Z * Z) : Prop :=
  exists id before after,
    row !! lit "work_id" = Some (Some id)
    /\ trimmed id work_id /\ work_id <> []
    /\ row !! lit "date_not_before" = Some (Some before)
    /\ py_int before = Some p.1
    /\ row !! lit "date_not_after" = Some (Some after)
    /\ py_int after = Some p.2.

(** The work identifier of a row is blank: the column is absent, the field
    is missing or it holds white space only. *)
Definition blank_work_id (row : Row) : Prop :=
  match row !! lit "work_id" with
  | Some (Some id) => blank id
  | _ => True
  end.

(** The date field [key] of a row is missing or is not an integer. *)
Definition bad_date (row : Row) (key : str) : Prop :=
  match row !! key with
  | Some (Some v) => py_int v = None
  | _ => True
  end.

Lemma parsed_row_contributes (row : Row) (work_id : str) (p : Z * Z) :
  parsed_row row = Some (work_id, p) <-> contributes row work_id p.
Proof.
  unfold parsed_row, contributes, get_stripped. split.
  - destruct (row !! lit "work_id") as [[id|]|] eqn:Hid; try done.
    destruct (is_empty (strip id)) eqn:Hempty; [done|].
    destruct (row !! lit "date_not_before") as [[before|]|]; try done.
    destruct (row !! lit "date_not_after") as [[after|]|]; try done.
    destruct (py_int before) as [nb|] eqn:Hnb; [|done].
    destruct (py_int after) as [na|] eqn:Hna; [|done].
    intros [= <- <-]. exists id, before, after.
    repeat split; try done.
    + by apply strip_trimmed.
    + by destruct (strip id).
  - intros (id & before & after & -> & Hid & Hne & -> & Hnb & -> & Hna).
    apply strip_trimmed in Hid. rewrite Hid, Hnb, Hna.
    destruct work_id; [done|]. by destruct p.
Qed.

Lemma pairs_of_contributes (rows : list Row) (work_id : str) (p : Z * Z) :
  p ∈ pairs_of rows work_id
  <-> exists row, row ∈ rows /\ contributes row work_id p.
Proof.
  unfold pairs_of. rewrite list_elem_of_omap.
  split; intros (row & Hrow & H); exists row; (split; [done|]).
  - apply parsed_row_contributes.
    destruct (parsed_row row) as [[w q]|]; [|done].
    case_decide; [|done]. by simplify_eq.
  - apply parsed_row_contributes in H. rewrite H.
    by rewrite decide_True.
Qed.

(** C10, for a table with the two date columns.  [load_date_ranges] returns
    a dict in which a work has the pair [p] exactly when some row
    contributes [p] to it and no row contributes to it a pair that is
    smaller, lexicographically; a work to which no row contributes has no
    entry.  A row contributes to the work whose identifier is the field
    without the white space at its ends, when both date fields are
    integers.  A row whose work identifier is blank, or with a date field
    that is missing or is not an integer, contributes nothing to any
    work. *)
Theorem load_date_ranges_least (env : Env.t) (path : Path) :
  Env.file_exists env path = true ->
  Forall has_date_columns (Env.csv_rows env path) ->
  exists ranges,
    load_date_ranges py_int env path = Ok ranges
    /\ (forall work_id p,
          ranges !! work_id = Some p <->
          (exists row,
             row ∈ Env.csv_rows env path /\ contributes row work_id p)
          /\ forall row q,
               row ∈ Env.csv_rows env path -> contributes row work_id q ->
               ~ lex_lt q p)
    /\ (forall work_id,
          ranges !! work_id = None <->
          forall row q,
            row ∈ Env.csv_rows env path -> ~ contributes row work_id q)
    /\ (forall row,
          blank_work_id row
          \/ bad_date row (lit "date_not_before")
          \/ bad_date row (lit "date_not_after") ->
          forall work_id p, ~ contributes row work_id p).
Proof.
  intros Hex Hrows. unfold load_date_ranges, open_csv. rewrite Hex.
  destruct (load_date_ranges_loop_fold _ ∅ Hrows) as (ranges & Hload & Hfold).
  exists ranges. split; [done|].
  assert (Hentry : forall work_id,
             match ranges !! work_id with
             | None => pairs_of (Env.csv_rows env path) work_id = []
             | Some p => least_pair (pairs_of (Env.csv_rows env path) work_id) p
             end).
  { intros work_id. rewrite Hfold, lookup_empty. apply fold_keep_least_none. }
  split; [|split].
  - intros work_id p. specialize (Hentry work_id).
    destruct (ranges !! work_id) as [p'|].
    + destruct Hentry as [Hin Hall]. rewrite Forall_forall in Hall. split.
      * intros [= <-]. split; [by apply pairs_of_contributes|].
        intros row q Hrow Hq. apply Hall, pairs_of_contributes. eauto.
      * intros [Hp Hleast]. f_equal.
        apply pairs_of_contributes in Hin as (row' & Hrow' & Hp').
        apply pairs_of_contributes in Hp.
        specialize (Hall _ Hp). specialize (Hleast _ _ Hrow' Hp').
        unfold lex_lt in *. destruct p, p'; simpl in *. f_equal; lia.
    + split; [done|]. intros [Hp _].
      apply pairs_of_contributes in Hp. rewrite Hentry in Hp.
      by apply elem_of_nil in Hp.
  - intros work_id. specialize (Hentry work_id).
    destruct (ranges !! work_id) as [p'|].
    + split; [done|]. intros Hnone. destruct Hentry as [Hin _].
      apply pairs_of_contributes in Hin as (row & Hrow & Hp).
      by destruct (Hnone row p' Hrow).
    + split; [|done]. intros _ row q Hrow Hq.
      assert (Hin : q ∈ pairs_of (Env.csv_rows env path) work_id)
        by (apply pairs_of_contributes; eauto).
      rewrite Hentry in Hin. by apply elem_of_nil in Hin.
  - intros row Hbad work_id p
      (id & before & after & Hid & Htrim & Hne & Hb & Hnb & Ha & Hna).
    unfold blank_work_id, bad_date in Hbad. rewrite Hid, Hb, Ha in Hbad.
    destruct Hbad as [Hblank|[?|?]]; [|congruence|congruence].
    destruct Htrim as (a & b & -> & _ & _ & Hhead & _).
    destruct work_id as [|c r]; [done|].
    specialize (Hhead c r eq_refl). unfold blank in Hblank.
    rewrite !forallb_app in Hblank. simpl in Hblank.
    rewrite Hhead in Hblank. simpl in Hblank.
    by rewrite andb_false_r in Hblank.
Qed.
End DateRanges.

Definition dates_with_gaps : Env.t :=
  corpus []
    [ date_row_of "KR9z0001" "300" "400";
      date_row_of "KR9z0001" "-200" "-150";
      date_row_of "KR9z0001" "-200" "-180";
      date_row_of "  " "1" "2";
      date_row_of "KR9z0002" "" "20";
      date_row_of "KR9z0002" "10" "x";
      <[lit "date_not_after" := None]> (date_row_of "KR9z0002" "10" "") ]
    [].

Lemma load_date_ranges_least_witness :
  exists ranges,
    load_date_ranges int_ascii dates_with_gaps dates_csv = Ok ranges
    /\ ranges !! lit "KR9z0001" = Some (-200, -180)
    /\ (forall q,
          ~ contributes int_ascii (date_row_of "  " "1" "2") (lit "  ") q)
    /\ ranges !! lit "KR9z0002" = None.
Proof.
  assert (Hcols : Forall has_date_columns
                    (Env.csv_rows dates_with_gaps dates_csv)).
  { repeat constructor; eexists; vm_compute; reflexivity. }
  destruct (load_date_ranges_least int_ascii dates_with_gaps dates_csv
              eq_refl Hcols) as (ranges & Hload & _ & _ & Hskip).
  exists ranges. split; [exact Hload|].
  vm_compute in Hload. injection Hload as <-.
  split; [vm_compute; reflexivity|]. split; [|vm_compute; reflexivity].
  intros q. apply Hskip. left. vm_compute. reflexivity.
Defined.

(** A table whose header has no column date_not_before, with one row. *)
Definition dates_without_column : Env.t :=
  corpus []
    [ row_of [ (lit "work_id", lit "KR9z0001");
               (lit "date_not_after", lit "5") ] ]
    [].

(** C10 as stated fails for a table without one of the date columns: the
    row, whose field date_not_before is missing, is not skipped, and the
    loading stops with a [KeyError] instead of returning the empty dict. *)
Lemma load_date_ranges_missing_column :
  Env.csv_rows dates_without_column dates_csv
  = [ row_of [ (lit "work_id", lit "KR9z0001");
               (lit "date_not_after", lit "5") ] ]
  /\ row_of [ (lit "work_id", lit "KR9z0001");
              (lit "date_not_after", lit "5") ] !! lit "date_not_before"
     = None
  /\ load_date_ranges int_ascii dates_without_column dates_csv
     = Raise (KeyError (lit "date_not_before"))
  /\ load_date_ranges int_ascii dates_without_column dates_csv <> Ok ∅.
Proof.
  split; [reflexivity|]. split; [vm_compute; reflexivity|].
  split; [vm_compute; reflexivity|]. vm_compute. intros [=].
Qed.

(** *** The matches of one line *)

(** [term] occurs in [line] at the position [i]. *)
Definition occurs_at (line term : str) (i : nat) : Prop :=
  take (length term) (drop i line) = term.

(** The positions at which one variant is reported. *)
Definition offsets (line term : str) : list nat :=
  map fst (term_matches line term).

Definition match_lt (a b : nat * str) : Prop :=
  (a.1 < b.1)%nat \/ (a.1 = b.1 /\ str_lt a.2 b.2).

Lemma startswith_take (s t : str) :
  startswith s t = true <-> take (length t) s = t.
Proof.
  revert s; induction t as [|x t IH]; intros [|y s]; simpl; try done.
  rewrite andb_true_iff, N.eqb_eq, IH. split.
  - by intros [-> ->].
  - by intros [= -> ->].
Qed.

Lemma find_from_some (s term : str) (pos idx : nat) :
  find_from s term pos = Some idx ->
  (pos <= idx)%nat
  /\ take (length term) (drop (idx - pos) s) = term
  /\ forall j, (pos <= j < idx)%nat ->
               take (length term) (drop (j - pos) s) <> term.
Proof.
  revert pos; induction s as [|c s IH]; intros pos; cbn [find_from].
  - destruct (startswith [] term) eqn:E; [|done]. intros [= <-].
    apply startswith_take in E. rewrite Nat.sub_diag. split; [lia|].
    split; [done|]. intros; lia.
  - destruct (startswith (c :: s) term) eqn:E.
    + intros [= <-]. apply startswith_take in E. rewrite Nat.sub_diag.
      split; [lia|]. split; [done|]. intros; lia.
    + intros H. apply IH in H as (Hle & Hocc & Hmin).
      split; [lia|]. split.
      * replace (idx - pos)%nat with (S (idx - S pos)) by lia. done.
      * intros j Hj. destruct (decide (j = pos)) as [->|Hne].
        { rewrite Nat.sub_diag. simpl. intros Ht.
          apply startswith_take in Ht. congruence. }
        replace (j - pos)%nat with (S (j - S pos)) by lia.
        apply Hmin. lia.
Qed.

Lemma find_from_none (s term : str) (pos : nat) :
  find_from s term pos = None ->
  forall j, take (length term) (drop j s) <> term.
Proof.
  revert pos; induction s as [|c s IH]; intros pos; cbn [find_from].
  - destruct (startswith [] term) eqn:E; [done|]. intros _ j.
    rewrite drop_nil. intros Ht. apply startswith_take in Ht. congruence.
  - destruct (startswith (c :: s) term) eqn:E; [done|].
    intros H [|j]; simpl.
    + intros Ht. apply startswith_take in Ht. congruence.
    + by eapply IH.
Qed.

Lemma find_some (line term : str) (start idx : nat) :
  find line term start = Some idx ->
  (start <= idx)%nat /\ occurs_at line term idx
  /\ forall j, (start <= j < idx)%nat -> ~ occurs_at line term j.
Proof.
  unfold find, occurs_at.
  destruct (length line <? start)%nat eqn:E; [done|].
  intros H. apply find_from_some in H as (Hle & Hocc & Hmin).
  rewrite drop_drop in Hocc. split; [done|]. split.
  - by replace (start + (idx - start))%nat with idx in Hocc by lia.
  - intros j Hj. specialize (Hmin j Hj). rewrite drop_drop in Hmin.
    by replace (start + (j - start))%nat with j in Hmin by lia.
Qed.

Lemma find_none (line : str) (c : N) (t : str) (start : nat) :
  find line (c :: t) start = None ->
  forall j, (start <= j)%nat -> ~ occurs_at line (c :: t) j.
Proof.
  unfold find, occurs_at.
  destruct (length line <? start)%nat eqn:E.
  - apply Nat.ltb_lt in E. intros _ j Hj.
    rewrite drop_ge by lia. done.
  - intros H j Hj. pose proof (find_from_none _ _ _ H (j - start)) as Hn.
    rewrite drop_drop in Hn.
    by replace (start + (j - start))%nat with j in Hn by lia.
Qed.

(** The positions of the occurrences of [term] found from left to right,
    each search starting where the occurrence before it ends. *)
Inductive scan (line term : str) : nat -> list nat -> Prop :=
| scan_end start :
    (forall j, (start <= j)%nat -> ~ occurs_at line term j) ->
    scan line term start []
| scan_hit start i rest :
    (start <= i)%nat ->
    occurs_at line term i ->
    (forall j, (start <= j < i)%nat -> ~ occurs_at line term j) ->
    scan line term (i + length term) rest ->
    scan line term start (i :: rest).

Lemma find_loop_scan (line : str) (c : N) (t : str) (start : nat) :
  scan line (c :: t) start (map fst (find_loop line c t start))
  /\ Forall (fun m => m.2 = c :: t) (find_loop line c t start).
Proof.
  functional induction (find_loop line c t start) as [start idx Hfind IH|].
  - destruct IH as [Hscan Hall].
    pose proof (find_some _ _ _ _ Hfind) as (Hle & Hocc & Hmin).
    split; [|by constructor].
    simpl. by apply scan_hit.
  - split; [|constructor]. apply scan_end. by apply find_none.
Qed.

Lemma scan_from (line term : str) (start : nat) (l : list nat) :
  scan line term start l -> Forall (fun i => (start <= i)%nat) l.
Proof.
  induction 1 as [|start i rest Hle Hocc Hmin Hscan IH]; constructor; [done|].
  eapply Forall_impl; [exact IH|]. simpl. intros; lia.
Qed.

Lemma scan_occurs (line term : str) (start : nat) (l : list nat) :
  scan line term start l -> Forall (occurs_at line term) l.
Proof. induction 1; by constructor. Qed.

Lemma scan_apart (line term : str) (start : nat) (l : list nat) :
  scan line term start l ->
  forall k i j, l !! k = Some i -> l !! S k = Some j ->
                (i + length term <= j)%nat.
Proof.
  induction 1 as [|start i rest Hle Hocc Hmin Hscan IH]; intros k a b;
    [done|].
  destruct k as [|k]; simpl.
  - intros [= <-] Hb. apply scan_from in Hscan.
    rewrite Forall_lookup in Hscan. by apply (Hscan 0%nat).
  - apply IH.
Qed.

Lemma scan_covers (line term : str) (start : nat) (l : list nat) :
  scan line term start l ->
  forall p, (start <= p)%nat -> occurs_at line term p ->
            exists i, i ∈ l /\ (i <= p < i + length term)%nat.
Proof.
  induction 1 as [start Hnone|start i rest Hle Hocc Hmin Hscan IH];
    intros p Hp Hoccp.
  - by destruct (Hnone p Hp).
  - destruct (decide (p < i)%nat) as [Hlt|Hge].
    { by destruct (Hmin p (conj Hp Hlt)). }
    destruct (decide (p < i + length term)%nat) as [Hin|Hout].
    + exists i. split; [left|lia].
    + destruct (IH p ltac:(lia) Hoccp) as (i' & Hi' & Hr).
      exists i'. split; [by right|done].
Qed.

Lemma match_ltb_spec (a b : nat * str) :
  match_ltb a b = true <-> match_lt a b.
Proof.
  unfold match_ltb, match_lt, str_lt.
  destruct (Nat.eqb_spec a.1 b.1) as [->|]; simpl.
  - split; [by auto|]. intros [?|[_ ?]]; [lia|done].
  - rewrite Nat.ltb_lt. split; [by auto|]. intros [?|[? _]]; [done|lia].
Qed.

Lemma match_ltb_irrefl (a : nat * str) : match_ltb a a = false.
Proof.
  destruct (match_ltb a a) eqn:E; [|done]. apply match_ltb_spec in E.
  unfold match_lt, str_lt in E. rewrite str_ltb_irrefl in E.
  destruct E as [?|[_ ?]]; [lia|done].
Qed.

Lemma match_ltb_trans (a b c : nat * str) :
  match_ltb a b = true -> match_ltb b c = true -> match_ltb a c = true.
Proof.
  rewrite !match_ltb_spec. unfold match_lt, str_lt.
  intros [?|[? Hab]] [?|[? Hbc]]; try (left; lia).
  right. split; [lia|]. by eapply str_ltb_trans.
Qed.

Lemma match_ltb_total (a b : nat * str) :
  match_ltb a b = false -> match_ltb b a = false -> a = b.
Proof.
  destruct a as [i s], b as [j t]. unfold match_ltb. simpl.
  destruct (Nat.eqb_spec i j) as [E|E], (Nat.eqb_spec j i) as [E'|E'];
    simpl; try congruence; try (rewrite !Nat.ltb_ge; intros; lia).
  intros H1 H2. by rewrite E, (str_ltb_total _ _ H1 H2).
Qed.

Lemma term_matches_offsets (line term : str) :
  term_matches line term = map (fun i => (i, term)) (offsets line term).
Proof.
  unfold offsets, term_matches. destruct term as [|c t]; [done|].
  destruct (find_loop_scan line c t 0) as [_ Hall].
  induction Hall as [|[i s] l Hs Hall IH]; simpl in *; [done|].
  by rewrite Hs, <- IH.
Qed.

(** C7.  [iter_line_matches] returns, arranged by position and then by
    variant, the occurrences found for each variant of the list.  An empty
    variant has none.  For a variant that is not empty these are the
    occurrences met from left to right without overlap: each reported
    position is an occurrence, two consecutive ones are at least the length
    of the variant apart, and every occurrence of the variant in the line
    begins inside a reported one.  The occurrences of two variants are found
    independently of each other. *)
Theorem iter_line_matches_sorted_occurrences (line : str)
    (variants : list str) :
  Permutation (iter_line_matches line variants)
    (flat_map (fun term => map (fun i => (i, term)) (offsets line term))
       variants)
  /\ StronglySorted (fun a b => ~ match_lt b a)
       (iter_line_matches line variants)
  /\ offsets line [] = []
  /\ forall term,
       term <> [] ->
       Forall (occurs_at line term) (offsets line term)
       /\ (forall k i j,
             offsets line term !! k = Some i ->
             offsets line term !! S k = Some j ->
             (i + length term <= j)%nat)
       /\ (forall p,
             occurs_at line term p ->
             exists i, i ∈ offsets line term
                       /\ (i <= p < i + length term)%nat).
Proof.
  split; [|split; [|split; [done|]]].
  - unfold iter_line_matches. rewrite sort_by_Permutation.
    induction variants as [|term variants IH]; simpl; [done|].
    by rewrite term_matches_offsets, IH.
  - unfold iter_line_matches.
    pose proof (sort_by_sorted match_ltb id match_ltb_irrefl match_ltb_trans
                  match_ltb_total (flat_map (term_matches line) variants))
      as Hsorted.
    induction Hsorted as [|a l Hs IH Ha]; constructor; [done|].
    eapply Forall_impl; [exact Ha|]. unfold not_after. simpl.
    intros b Hb Hlt. apply match_ltb_spec in Hlt. congruence.
  - intros [|c t] Hne; [done|]. unfold offsets, term_matches.
    destruct (find_loop_scan line c t 0) as [Hscan _].
    split; [by eapply scan_occurs|]. split; [by eapply scan_apart|].
    intros p Hp. eapply scan_covers; [exact Hscan|lia|done].
Qed.

Lemma iter_line_matches_sorted_occurrences_witness :
  iter_line_matches (lit "aaaa ab") [lit "aa"; lit "a"; []; lit "ab"]
  = [ (0, lit "a"); (0, lit "aa"); (1, lit "a"); (2, lit "a");
      (2, lit "aa"); (3, lit "a"); (5, lit "a"); (5, lit "ab") ]%nat
  /\ occurs_at (lit "aaaa ab") (lit "aa") 1
  /\ exists i, i ∈ offsets (lit "aaaa ab") (lit "aa") /\ (i <= 1 < i + 2)%nat.
Proof.
  split; [vm_compute; reflexivity|].
  assert (Hocc : occurs_at (lit "aaaa ab") (lit "aa") 1)
    by (vm_compute; reflexivity).
  split; [exact Hocc|].
  destruct (iter_line_matches_sorted_occurrences (lit "aaaa ab") [lit "aa"])
    as (_ & _ & _ & H).
  destruct (H (lit "aa") ltac:(discriminate)) as (_ & _ & Hcover).
  exact (Hcover 1%nat Hocc).
Defined.

(** *** The snippet *)

Lemma slice_index_in_range (n i : Z) : 0 <= i <= n -> slice_index n i = i.
Proof. unfold slice_index. destruct (Z.ltb_spec i 0); lia. Qed.

Lemma slice_in_range (s : str) (a b : Z) :
  0 <= a <= len s -> 0 <= b <= len s ->
  slice s a b = take (Z.to_nat b - Z.to_nat a) (drop (Z.to_nat a) s).
Proof.
  intros Ha Hb. unfold slice.
  rewrite !slice_index_in_range by done. f_equal. lia.
Qed.

Lemma lstrip_by_keep (p : N -> bool) (a r : str) (ch : N) :
  p ch = false -> lstrip_by p (a ++ ch :: r) = lstrip_by p a ++ ch :: r.
Proof.
  intros Hch. induction a as [|x a IH]; simpl; [by rewrite Hch|].
  by destruct (p x).
Qed.

Lemma replace_tab_length (line : str) :
  length (replace_tab line) = length line.
Proof. apply length_map. Qed.

Lemma replace_tab_lookup (line : str) (i : nat) (ch : N) :
  line !! i = Some ch ->
  replace_tab line !! i = Some (if (ch =? 9)%N then 32%N else ch).
Proof.
  revert i; induction line as [|x line IH]; intros [|i]; simpl; try done.
  - by intros [= ->].
  - apply IH.
Qed.

(** The line as [render_snippet] shows it. *)
Definition shown_line (line : str) : str := rstrip (replace_tab line).

Lemma shown_line_trimmed (line : str) :
  exists trailing,
    replace_tab line = shown_line line ++ trailing
    /\ forallb isspace trailing = true
    /\ (shown_line line = []
        \/ exists r ch, shown_line line = r ++ [ch] /\ isspace ch = false).
Proof. apply rstrip_by_split. Qed.

(** The three parts of a string around the [k] characters at [o]. *)
Lemma split_around (s : str) (o k : nat) :
  (o + k <= length s)%nat ->
  s = take o s ++ take k (drop o s) ++ drop (o + k) s
  /\ length (take o s) = o /\ length (take k (drop o s)) = k
  /\ length (drop (o + k) s) = (length s - o - k)%nat.
Proof.
  intros H. split; [|split; [|split]].
  - rewrite <- drop_drop, take_drop. by rewrite take_drop.
  - rewrite length_take. lia.
  - rewrite length_take, length_drop. lia.
  - rewrite length_drop. lia.
Qed.

(** The window [render_snippet] cuts out of the shown line. *)
Lemma render_snippet_slices (line : str) (offset : Z) (term : str)
    (context : Z) :
  let s := shown_line line in
  let c := Z.max context 0 in
  let o := Z.to_nat offset in
  let k := length term in
  0 <= offset -> offset + len term <= len s ->
  render_snippet line offset term context =
    strip ((if c <? offset then lit "..." else [])
           ++ drop (Z.to_nat (offset - c)) (take o s)
           ++ lit "[" ++ take k (drop o s) ++ lit "]"
           ++ take (Z.to_nat c) (drop (o + k) s)
           ++ (if c <? len (drop (o + k) s) then lit "..." else [])).
Proof.
  intros s c o k Hoff Hend. unfold render_snippet.
  fold (shown_line line). fold s. fold c.
  assert (Hlen : length (drop (o + k) s) = (length s - o - k)%nat)
    by (rewrite length_drop; lia).
  set (start := Z.max 0 (offset - c)).
  set (end_ := Z.min (len s) (offset + len term + c)).
  rewrite !slice_in_range by (unfold len in *; lia).
  assert (E1 : (0 <? start) = (c <? offset))
    by (destruct (Z.ltb_spec 0 start), (Z.ltb_spec c offset); lia).
  assert (E2 : take (Z.to_nat offset - Z.to_nat start)
                 (drop (Z.to_nat start) s)
               = drop (Z.to_nat (offset - c)) (take o s)).
  { rewrite take_drop_commute. f_equal; [lia|]. f_equal. lia. }
  assert (E3 : take (Z.to_nat (offset + len term) - Z.to_nat offset)
                 (drop (Z.to_nat offset) s)
               = take k (drop o s)).
  { f_equal. unfold len. lia. }
  assert (E4 : take (Z.to_nat end_ - Z.to_nat (offset + len term))
                 (drop (Z.to_nat (offset + len term)) s)
               = take (Z.to_nat c) (drop (o + k) s)).
  { replace (Z.to_nat (offset + len term)) with (o + k)%nat
      by (unfold len; lia).
    destruct (decide (len s <= offset + len term + c)).
    - rewrite (take_ge _ (Z.to_nat c)) by (unfold len in *; lia).
      apply take_ge. unfold len in *. lia.
    - f_equal. unfold len in *. lia. }
  assert (E5 : (end_ <? len s) = (c <? len (drop (o + k) s))).
  { unfold len in *. rewrite Hlen.
    destruct (Z.ltb_spec end_ (Z.of_nat (length s))),
             (Z.ltb_spec c (Z.of_nat (length s - o - k))); lia. }
  by rewrite E1, E2, E3, E4, E5.
Qed.

(** [strip] on a bracketed window: only white space at the start of the
    prefix can go, and only when no marker stands before it. *)
Lemma strip_window (lm P M S rm : str) :
  lm = [] \/ lm = lit "..." ->
  rm = lit "..."
  \/ (rm = [] /\ (S = [] \/ exists a ch, S = a ++ [ch] /\ isspace ch = false)) ->
  strip (lm ++ P ++ lit "[" ++ M ++ lit "]" ++ S ++ rm)
  = lm ++ (if is_empty lm then lstrip P else P)
      ++ lit "[" ++ M ++ lit "]" ++ S ++ rm.
Proof.
  intros Hlm Hrm. unfold strip.
  assert (Hl : lstrip (lm ++ P ++ lit "[" ++ M ++ lit "]" ++ S ++ rm)
               = lm ++ (if is_empty lm then lstrip P else P)
                   ++ lit "[" ++ M ++ lit "]" ++ S ++ rm).
  { destruct Hlm as [->| ->]; [|done]. simpl.
    unfold lstrip. by rewrite lstrip_by_keep. }
  rewrite Hl. unfold rstrip.
  destruct Hrm as [->|[-> [->|(a & ch & -> & Hch)]]].
  - change (lit "...") with ([46; 46] ++ [46])%N.
    rewrite !app_assoc. by apply rstrip_by_last.
  - rewrite !app_nil_r. change (lit "]") with [93%N].
    rewrite !app_assoc. by apply rstrip_by_last.
  - rewrite !app_nil_r. rewrite !app_assoc. by apply rstrip_by_last.
Qed.

(** The end of a string that ends with [ch] ends with [ch]. *)
Lemma nonempty_tail_last (x tail r : str) (ch : N) :
  x ++ tail = r ++ [ch] -> tail <> [] -> exists a, tail = a ++ [ch].
Proof.
  intros Heq Hne. destruct (exists_last Hne) as (a & y & ->).
  rewrite app_assoc in Heq. apply app_inj_tail in Heq as [_ ->].
  by exists a.
Qed.

(** C8, for a match that lies in the shown line.  [render_snippet] works
    on the line with every tab replaced by a
    space, which keeps all positions, and without its white space at the
    end.  For a match that lies in this line it returns the matched
    characters in brackets, with before them the [context] characters that
    precede the match, or all of them when there are fewer, and after them
    the [context] characters that follow it, or all of them; the marker
    "..." stands at the left exactly when characters before the match are
    left out, and at the right exactly when characters after it are.  The
    final [strip] removes white space at the start of the prefix when no
    marker stands before it, and nothing else. *)
Theorem render_snippet_window (line : str) (offset : Z) (term : str)
    (context : Z) :
  let s := shown_line line in
  let c := Z.max context 0 in
  0 <= offset -> offset + len term <= len s ->
  length (replace_tab line) = length line
  /\ (forall i ch,
        line !! i = Some ch ->
        replace_tab line !! i = Some (if (ch =? 9)%N then 32%N else ch))
  /\ (exists trailing,
        replace_tab line = s ++ trailing
        /\ forallb isspace trailing = true
        /\ (s = [] \/ exists r ch, s = r ++ [ch] /\ isspace ch = false))
  /\ exists before matched after,
       s = before ++ matched ++ after
       /\ len before = offset
       /\ len matched = len term
       /\ (take (length term) (drop (Z.to_nat offset) line) = term ->
           matched = replace_tab term)
       /\ let prefix := drop (Z.to_nat (offset - c)) before in
          let suffix := take (Z.to_nat c) after in
          let left_marker := if c <? offset then lit "..." else [] in
          let right_marker := if c <? len after then lit "..." else [] in
          len prefix = Z.min c offset
          /\ len suffix = Z.min c (len after)
          /\ render_snippet line offset term context
             = left_marker
                 ++ (if c <? offset then prefix else lstrip prefix)
                 ++ lit "[" ++ matched ++ lit "]" ++ suffix ++ right_marker.
Proof.
  intros s c Hoff Hend.
  split; [apply replace_tab_length|]. split; [apply replace_tab_lookup|].
  destruct (shown_line_trimmed line) as (trailing & Hline & Htr & Hlast).
  split; [by exists trailing|]. fold s in Hline, Hlast.
  set (o := Z.to_nat offset). set (k := length term).
  assert (Hok : (o + k <= length s)%nat) by (unfold len in *; lia).
  destruct (split_around s o k Hok) as (Hs & Hb & Hm & Ha).
  exists (take o s), (take k (drop o s)), (drop (o + k) s).
  split; [exact Hs|]. split; [unfold len; lia|].
  split; [unfold len; lia|]. split.
  { intros Hocc. rewrite <- Hocc. unfold replace_tab.
    rewrite <- !firstn_map, <- !skipn_map. fold (replace_tab line).
    rewrite Hline, drop_app_le by lia. rewrite take_app_le; [done|].
    rewrite length_drop. lia. }
  simpl. split; [|split].
  - unfold len. rewrite length_drop, Hb. lia.
  - unfold len. rewrite length_take, Ha. lia.
  - rewrite render_snippet_slices by done. fold s c o k.
    assert (Hc0 : 0 <= c) by lia.
    destruct (Z.ltb_spec c offset) as [Hlt|Hge].
    + rewrite strip_window; [done|by right|].
      destruct (Z.ltb_spec c (len (drop (o + k) s))) as [Hlt'|Hge'];
        [by left|right; split; [done|]].
      rewrite take_ge by (unfold len in *; lia).
      destruct (drop (o + k) s) as [|x tail] eqn:Htail; [by left|right].
      destruct Hlast as [Hnil|(r & ch & Hr & Hch)].
      { rewrite Hnil in Hs. by destruct (take o []), (take k (drop o [])). }
      rewrite Hr, app_assoc in Hs. symmetry in Hs.
      apply nonempty_tail_last in Hs as [a Hs]; [|done].
      by exists a, ch.
    + rewrite strip_window; [done|by left|].
      destruct (Z.ltb_spec c (len (drop (o + k) s))) as [Hlt'|Hge'];
        [by left|right; split; [done|]].
      rewrite take_ge by (unfold len in *; lia).
      destruct (drop (o + k) s) as [|x tail] eqn:Htail; [by left|right].
      destruct Hlast as [Hnil|(r & ch & Hr & Hch)].
      { rewrite Hnil in Hs. by destruct (take o []), (take k (drop o [])). }
      rewrite Hr, app_assoc in Hs. symmetry in Hs.
      apply nonempty_tail_last in Hs as [a Hs]; [|done].
      by exists a, ch.
Qed.

Definition tabbed_line : str :=
  ([32; 32] ++ lit "hello" ++ [9] ++ lit "world foo bar  ")%N.

Example render_snippet_tabbed :
  render_snippet tabbed_line 8 (lit "world") 3 = lit "...lo [world] fo...".
Proof. vm_compute. reflexivity. Qed.

Example render_snippet_leading_space :
  render_snippet (lit "  hello") 2 (lit "hello") 30 = lit "[hello]".
Proof. vm_compute. reflexivity. Qed.

Lemma render_snippet_window_witness :
  (0 <= 8 /\ 8 + len (lit "world") <= len (shown_line tabbed_line))
  /\ exists before matched after,
       shown_line tabbed_line = before ++ matched ++ after
       /\ len before = 8
       /\ matched = replace_tab (lit "world")
       /\ render_snippet tabbed_line 8 (lit "world") 3
          = lit "..." ++ drop 5 before ++ lit "[" ++ matched ++ lit "]"
              ++ take 3 after
              ++ (if 3 <? len after then lit "..." else []).
Proof.
  assert (Hend : 8 + len (lit "world") <= len (shown_line tabbed_line))
    by (vm_compute; discriminate).
  split; [split; [lia | exact Hend]|].
  destruct (render_snippet_window tabbed_line 8 (lit "world") 3
              ltac:(lia) Hend)
    as (_ & _ & _ & before & matched & after
        & Hs & Hb & _ & Hm & _ & _ & H).
  exists before, matched, after.
  split; [exact Hs|]. split; [exact Hb|].
  split; [apply Hm; vm_compute; reflexivity|]. exact H.
Defined.

(** C8 as stated fails for a match that reaches into the white space at the
    end of the line: [iter_line_matches] finds the term "b " in "ab  " at
    offset 1, the line without its trailing white space is shorter than
    the end of the match, and the brackets hold "b", not the matched
    term. *)
Lemma render_snippet_trailing_space :
  iter_line_matches (lit "ab  ") [lit "b "] = [(1%nat, lit "b ")]
  /\ render_snippet (lit "ab  ") 1 (lit "b ") 30 = lit "a[b]"
  /\ lit "a[b]" <> lit "a[b ]"
  /\ len (shown_line (lit "ab  ")) < 1 + len (lit "b ").
Proof.
  split; [vm_compute; reflexivity|]. split; [vm_compute; reflexivity|].
  split; [vm_compute; intros [=]|]. vm_compute. reflexivity.
Qed.

(** *** The scan loop *)

(** The matches of one line as [iter_matches] yields them. *)
Definition matches_of (book : Book.t) (line_no : Z) (line : str)
    (found : list (nat * str)) : list Match.t :=
  map (fun item =>
         {| Match.book := book; Match.line_no := line_no;
            Match.offset := Z.of_nat item.1; Match.term := item.2;
            Match.line := line |}) found.

(** All the matches of a book: what [iter_matches] yields without a cap. *)
Definition all_matches (env : Env.t) (variants : list str) (book : Book.t)
    : list Match.t :=
  iter_matches env book variants None.

Definition has_match (env : Env.t) (variants : list str) (book : Book.t)
    : bool :=
  match all_matches env variants book with [] => false | _ :: _ => true end.

(** The file of the book exists, can be opened, and one of its lines contains
    a variant that is not empty. *)
Definition contains_variant (env : Env.t) (variants : list str)
    (book : Book.t) : Prop :=
  Env.file_exists env (Book.path book) = true
  /\ Env.text_error env (Book.path book) = None
  /\ exists line term i,
       line ∈ Env.text_lines env (Book.path book)
       /\ term ∈ variants /\ term <> []
       /\ occurs_at (rstrip_nl line) term i.

Lemma yield_line_none (book : Book.t) (line_no : Z) (line : str)
    (found : list (nat * str)) :
  yield_line book line_no line found None
  = (matches_of book line_no line found, Some None).
Proof.
  induction found as [|[offset term] found IH]; simpl; [done|].
  by rewrite IH.
Qed.

Lemma yield_line_some (book : Book.t) (line_no : Z) (line : str)
    (found : list (nat * str)) (n : Z) :
  1 <= n ->
  yield_line book line_no line found (Some n)
  = if Z.of_nat (length found) <? n
    then (matches_of book line_no line found,
          Some (Some (n - Z.of_nat (length found))))
    else (take (Z.to_nat n) (matches_of book line_no line found), None).
Proof.
  revert n; induction found as [|[offset term] found IH]; intros n Hn.
  - simpl. change (Z.of_nat 0) with 0.
    destruct (Z.ltb_spec 0 n); [|lia]. do 3 f_equal. lia.
  - cbn [yield_line]. destruct (Z.leb_spec (n - 1) 0) as [Hle|Hgt].
    + assert (n = 1) as -> by lia.
      destruct (Z.ltb_spec (Z.of_nat (length ((offset, term) :: found))) 1)
        as [Hlt|_]; [simpl in Hlt; lia|]. done.
    + rewrite IH by lia.
      destruct (Z.ltb_spec (Z.of_nat (length found)) (n - 1)),
               (Z.ltb_spec (Z.of_nat (length ((offset, term) :: found))) n);
        simpl in *; try lia.
      * do 3 f_equal. lia.
      * replace (Z.to_nat n) with (S (Z.to_nat (n - 1))) by lia. done.
Qed.

Lemma yield_lines_some (book : Book.t) (variants : list str) (line_no : Z)
    (lines : list str) (n : Z) :
  1 <= n ->
  yield_lines book variants line_no lines (Some n)
  = take (Z.to_nat n) (yield_lines book variants line_no lines None).
Proof.
  revert line_no n; induction lines as [|line lines IH]; intros line_no n Hn.
  - simpl. by rewrite take_nil.
  - cbn [yield_lines]. rewrite yield_line_none, yield_line_some by done.
    set (found := iter_line_matches (rstrip_nl line) variants).
    set (ms := matches_of book line_no (rstrip_nl line) found).
    assert (Hms : length ms = length found) by apply length_map.
    destruct (Z.ltb_spec (Z.of_nat (length found)) n).
    + rewrite IH by lia. rewrite take_app_ge by lia.
      do 2 f_equal. lia.
    + rewrite take_app_le by lia. done.
Qed.

Lemma iter_matches_some (env : Env.t) (book : Book.t) (variants : list str)
    (n : Z) :
  1 <= n ->
  iter_matches env book variants (Some n)
  = take (Z.to_nat n) (all_matches env variants book).
Proof.
  intros Hn. unfold all_matches, iter_matches.
  destruct (negb _); [by rewrite take_nil|].
  destruct (open_text env _); [|by rewrite take_nil].
  by apply yield_lines_some.
Qed.

Lemma yield_lines_book (book : Book.t) (variants : list str) (line_no : Z)
    (lines : list str) :
  Forall (fun m => Match.book m = book)
    (yield_lines book variants line_no lines None).
Proof.
  revert line_no; induction lines as [|line lines IH]; intros line_no;
    cbn [yield_lines]; [constructor|].
  rewrite yield_line_none. apply Forall_app. split; [|apply IH].
  unfold matches_of. by apply Forall_map, Forall_true.
Qed.

Lemma all_matches_book (env : Env.t) (variants : list str) (book : Book.t) :
  Forall (fun m => Match.book m = book) (all_matches env variants book).
Proof.
  unfold all_matches, iter_matches. destruct (negb _); [constructor|].
  destruct (open_text env _); [|constructor]. apply yield_lines_book.
Qed.

(** With deduplication every book gives its first match, if it has one. *)
Definition first_matches (env : Env.t) (variants : list str)
    (books : list Book.t) : list Match.t :=
  flat_map (fun book => take 1 (all_matches env variants book)) books.

Lemma first_matches_books (env : Env.t) (variants : list str)
    (books : list Book.t) :
  map Match.book (first_matches env variants books)
  = List.filter (has_match env variants) books.
Proof.
  induction books as [|book books IH]; simpl; [done|].
  rewrite map_app, IH. unfold has_match.
  pose proof (all_matches_book env variants book) as Hb.
  destruct (all_matches env variants book) as [|m ms]; [done|].
  inversion Hb; subst. simpl. by f_equal.
Qed.

(** What one book can contribute to the results: with deduplication its
    first match, without it all its matches. *)
Definition contribution (env : Env.t) (variants : list str) (dedup : bool)
    (book : Book.t) : list Match.t :=
  if dedup then take 1 (iter_matches env book variants None)
  else iter_matches env book variants None.

Lemma first_matches_contribution (env : Env.t) (variants : list str)
    (books : list Book.t) :
  first_matches env variants books
  = flat_map (contribution env variants true) books.
Proof. done. Qed.

(** A scan that ends without exception, from the state [results]. *)
Lemma scan_loop_from (env : Env.t) (variants : list str) (limit : Z)
    (dedup : bool) (books : list Book.t) (results found : list Match.t) :
  scan_loop env variants limit dedup books results = Ok found ->
  found = results ++ take (Z.to_nat limit - length results)
                       (flat_map (contribution env variants dedup) books).
Proof.
  revert results; induction books as [|book books IH]; intros results.
  - simpl. intros [= <-]. by rewrite take_nil, app_nil_r.
  - cbn [scan_loop flat_map].
    destruct (Z.leb_spec (limit - Z.of_nat (length results)) 0).
    + intros [= <-].
      replace (Z.to_nat limit - length results)%nat with 0%nat by lia.
      by rewrite app_nil_r.
    + destruct (iter_matches_raises env book); [done|].
      intros Hscan. apply IH in Hscan as ->.
      rewrite iter_matches_some by (destruct dedup; lia).
      rewrite <- app_assoc. f_equal.
      rewrite take_app, length_app. unfold contribution, all_matches.
      set (all := iter_matches env book variants None).
      destruct dedup.
      * change (Z.to_nat 1) with 1%nat.
        assert (Hle : (length (take 1 all) <= 1)%nat)
          by (rewrite length_take; lia).
        rewrite (take_ge (take 1 all)) by lia.
        do 2 f_equal. lia.
      * replace (Z.to_nat (limit - Z.of_nat (length results)))
          with (Z.to_nat limit - length results)%nat by lia.
        f_equal. rewrite length_take.
        set (room := (Z.to_nat limit - length results)%nat).
        destruct (decide (length all <= room)%nat).
        -- f_equal. lia.
        -- replace (Z.to_nat limit
                    - (length results + room `min` length all))%nat
             with 0%nat by lia.
           replace (room - length all)%nat with 0%nat by lia. done.
Qed.

(** A scan ends with an exception only when a generator raises it. *)
Lemma scan_loop_raises (env : Env.t) (variants : list str) (limit : Z)
    (dedup : bool) (books : list Book.t) (results : list Match.t) (e : exn) :
  scan_loop env variants limit dedup books results = Raise e ->
  exists book, book ∈ books /\ iter_matches_raises env book = Some e.
Proof.
  revert results; induction books as [|book books IH]; intros results;
    cbn [scan_loop]; [done|].
  destruct (limit - Z.of_nat (length results) <=? 0); [done|].
  destruct (iter_matches_raises env book) as [e'|] eqn:He.
  - intros [= <-]. exists book. split; [left|done].
  - intros (b & Hb & Hr)%IH. exists b. split; [by right|done].
Qed.

Lemma scan_loop_length (env : Env.t) (variants : list str) (limit : Z)
    (dedup : bool) (books : list Book.t) (results found : list Match.t) :
  scan_loop env variants limit dedup books results = Ok found ->
  Z.of_nat (length results) <= limit ->
  Z.of_nat (length found) <= limit.
Proof.
  intros -> %scan_loop_from Hlen. rewrite length_app, length_take. lia.
Qed.

Lemma term_matches_nonempty (line term : str) :
  term_matches line term <> []
  <-> term <> [] /\ exists i, occurs_at line term i.
Proof.
  destruct term as [|c t]; [by split; [|intros [? _]]|].
  unfold term_matches.
  destruct (find_loop_scan line c t 0) as [Hscan _].
  destruct (find_loop line c t 0) as [|[i s] l]; simpl in Hscan.
  - split; [done|]. intros [_ [i Hi]]. inversion Hscan as [? Hnone|]; subst.
    destruct (Hnone i ltac:(lia) Hi).
  - split; [|done]. intros _. split; [done|].
    inversion Hscan; subst. by exists i.
Qed.

Lemma flat_term_matches_nonempty (line : str) (variants : list str) :
  flat_map (term_matches line) variants <> []
  <-> exists term i, term ∈ variants /\ term <> [] /\ occurs_at line term i.
Proof.
  induction variants as [|v variants IH]; simpl.
  - split; [done|]. intros (term & i & Hin & _). by apply elem_of_nil in Hin.
  - split.
    + intros Hne. destruct (term_matches line v) eqn:Hv.
      * apply IH in Hne as (term & i & Hin & Hr).
        exists term, i. split; [by right|done].
      * assert (Hv' : term_matches line v <> []) by by rewrite Hv.
        apply term_matches_nonempty in Hv' as [Hvne [i Hi]].
        exists v, i. split; [by left|done].
    + intros (term & i & Hin & Hne & Hocc).
      apply elem_of_cons in Hin as [->|Hin].
      * assert (Hv : term_matches line v <> [])
          by (apply term_matches_nonempty; eauto).
        by destruct (term_matches line v).
      * intros Happ. apply app_eq_nil in Happ as [_ Happ].
        revert Happ. apply IH. eauto.
Qed.

Lemma iter_line_matches_nonempty (line : str) (variants : list str) :
  iter_line_matches line variants <> []
  <-> exists term i, term ∈ variants /\ term <> [] /\ occurs_at line term i.
Proof.
  rewrite <- flat_term_matches_nonempty. unfold iter_line_matches.
  assert (Hperm := sort_by_Permutation match_ltb id
                     (flat_map (term_matches line) variants)).
  apply Permutation_length in Hperm.
  split; intros Hne Hnil; apply Hne.
  - by rewrite Hnil.
  - rewrite Hnil in Hperm. by destruct (flat_map _ _).
Qed.

Lemma yield_lines_nonempty (book : Book.t) (variants : list str)
    (line_no : Z) (lines : list str) :
  yield_lines book variants line_no lines None <> []
  <-> exists line, line ∈ lines
                   /\ iter_line_matches (rstrip_nl line) variants <> [].
Proof.
  revert line_no; induction lines as [|line lines IH]; intros line_no;
    cbn [yield_lines].
  - split; [done|]. intros (line & Hin & _). by apply elem_of_nil in Hin.
  - rewrite yield_line_none. split.
    + intros Hne.
      destruct (iter_line_matches (rstrip_nl line) variants) eqn:Hl.
      * simpl in Hne. apply IH in Hne as (l & Hin & Hr).
        exists l. split; [by right|done].
      * exists line. split; [by left|by rewrite Hl].
    + intros (l & Hin & Hne). apply elem_of_cons in Hin as [->|Hin].
      * unfold matches_of.
        by destruct (iter_line_matches (rstrip_nl line) variants).
      * intros Happ. apply app_eq_nil in Happ as [_ Happ].
        revert Happ. apply IH. eauto.
Qed.

Lemma has_match_contains (env : Env.t) (variants : list str) (book : Book.t) :
  has_match env variants book = true <-> contains_variant env variants book.
Proof.
  unfold has_match, contains_variant.
  assert (Hne : all_matches env variants book <> []
                <-> Env.file_exists env (Book.path book) = true
                    /\ Env.text_error env (Book.path book) = None
                    /\ exists line,
                         line ∈ Env.text_lines env (Book.path book)
                         /\ iter_line_matches (rstrip_nl line) variants <> []).
  { unfold all_matches, iter_matches, open_text.
    destruct (Env.file_exists env (Book.path book)); simpl.
    - destruct (Env.text_error env (Book.path book)).
      + by split; [|intros (_ & ? & _)].
      + rewrite yield_lines_nonempty. by split; [|intros (_ & _ & ?)].
    - by split; [|intros [? _]]. }
  setoid_rewrite iter_line_matches_nonempty in Hne.
  destruct (all_matches env variants book) eqn:Hall.
  - split; [done|]. intros (Hex & Hopen & line & term & i & Hin & Hr).
    destruct (proj2 Hne); [|done]. split; [done|]. split; [done|].
    exists line. eauto.
  - split; [|done]. intros _. destruct (proj1 Hne ltac:(done))
      as (Hex & Hopen & line & Hin & term & i & Hr).
    split; [done|]. split; [done|]. exists line, term, i. tauto.
Qed.

Lemma NoDup_map_filter {A B} (f : A -> B) (p : A -> bool) (l : list A) :
  NoDup (map f l) -> NoDup (map f (List.filter p l)).
Proof.
  induction l as [|x l IH]; simpl; [done|].
  intros Hnd. apply NoDup_cons in Hnd as [Hx Hnd].
  destruct (p x); simpl; [|by apply IH].
  apply NoDup_cons. split; [|by apply IH].
  intros Hin. apply Hx. apply list_elem_of_In in Hin.
  apply list_elem_of_In. apply in_map_iff in Hin as (y & Hy & Hin).
  apply in_map_iff. exists y. split; [done|].
  by apply filter_In in Hin as [Hin _].
Qed.

(** The dedup scan over books with distinct work identifiers. *)
Lemma scan_loop_first_matches (env : Env.t) (variants : list str)
    (limit : Z) (books : list Book.t) (results : list Match.t) :
  1 <= limit ->
  scan_loop env variants limit true books [] = Ok results ->
  results = take (Z.to_nat limit) (first_matches env variants books)
  /\ map Match.book results
     = take (Z.to_nat limit) (List.filter (has_match env variants) books).
Proof.
  intros Hlimit -> %scan_loop_from. simpl. rewrite Nat.sub_0_r.
  rewrite <- first_matches_contribution. split; [done|].
  rewrite <- firstn_map. by rewrite first_matches_books.
Qed.

(** The three works of the corpus [three_works], in the order of their
    dates. *)
Definition three_books : list Book.t :=
  match load_date_ranges int_ascii three_works dates_csv with
  | Ok ranges =>
    match load_books three_works [lit "data"] ranges with
    | Ok books => books
    | Raise _ => []
    end
  | Raise _ => []
  end.

Example three_books_order :
  map (fun book => (Book.work_id book, Book.date_not_before book)) three_books
  = [ (lit "KR9z0001", Some (-200)); (lit "KR9z0002", Some 100);
      (lit "KR9z0003", None) ].
Proof. vm_compute. reflexivity. Qed.

(** A listing in which two files belong to the same work, as a corpus with
    the files of one work in two directories gives. *)
Definition two_files_one_work : Env.t :=
  corpus
    [ book_row "KR9z0001" "甲" "" "" "v1/a.txt";
      book_row "KR9z0001" "甲" "" "" "v2/a.txt" ]
    []
    [ (lit "v1/a.txt", [lit "天地玄黃"]);
      (lit "v2/a.txt", [lit "天地玄黃"]) ].

Definition query_same_work : Args.t :=
  {| Args.term := lit "天地"; Args.limit := 2; Args.context := 30;
     Args.data_dir := None; Args.dedup := true |}.

(** C2.  The code at an input on which it breaks the claim: a listing with
    two files of the work KR9z0001, both with the term.  With deduplication
    and limit 2 the scan returns two matches of the same work, and [main]
    prints both, although one work only contains the term. *)
Theorem scan_loop_dedup_same_work :
  exists books m1 m2,
    load_books two_files_one_work [lit "data"] ∅ = Ok books
    /\ scan_loop two_files_one_work [lit "天地"] 2 true books []
       = Ok [m1; m2]
    /\ Book.work_id (Match.book m1) = Book.work_id (Match.book m2)
    /\ remove_dups
         (map Book.work_id
            (List.filter (has_match two_files_one_work [lit "天地"]) books))
       = [lit "KR9z0001"]
    /\ main int_ascii id id two_files_one_work query_same_work
       = Return 0
           [ lit "query: 天地";
             lit "variants: 天地";
             lit "limit: 2";
             lit "dedup: on";
             lit "results: 2";
             [];
             lit "1) unknown | KR9z0001 | 甲 | - | - | v1/a.txt:1";
             lit "    [天地]玄黃";
             lit "2) unknown | KR9z0001 | 甲 | - | - | v2/a.txt:1";
             lit "    [天地]玄黃" ]
           [].
Proof.
  eexists _, _, _. split; [vm_compute; reflexivity|].
  split; [vm_compute; reflexivity|].
  split; [vm_compute; reflexivity|].
  split; vm_compute; reflexivity.
Qed.

(** *** The exit code *)

Section Main.
Variable py_int : str -> option Z.
Variable s2t t2s : str -> str.

(** The arguments pass the two checks at the start of [main]. *)
Definition valid_args (args : Args.t) : Prop :=
  strip (Args.term args) <> [] /\ 1 <= Args.limit args.

(** No data directory is found: the directory given on the command line
    has no books.csv, or none is given and neither [data] under the working
    directory nor [data] next to the package has one. *)
Definition unresolved (env : Env.t) (explicit : option str) : Prop :=
  match explicit with
  | Some (c :: e) => has_books_csv env [c :: e] = false
  | _ =>
    has_books_csv env (path_join (Env.cwd env) (lit "data")) = false
    /\ has_books_csv env (path_join (Env.package_root env) (lit "data"))
       = false
  end.

(** The matches of the query, when the tables can be loaded and the scan
    ends without exception. *)
Definition query_results (env : Env.t) (args : Args.t)
    : option (list Match.t) :=
  match resolve_data_dir env (Args.data_dir args) with
  | Ok data_dir =>
    match load_date_ranges py_int env
            (path_join data_dir (lit "publication_date_range.csv")) with
    | Ok date_ranges =>
      match load_books env data_dir date_ranges with
      | Ok books =>
        match scan_loop env (term_variants s2t t2s (strip (Args.term args)))
                (Args.limit args) (Args.dedup args) books [] with
        | Ok results => Some results
        | Raise _ => None
        end
      | Raise _ => None
      end
    | Raise _ => None
    end
  | Raise _ => None
  end.

Lemma resolve_data_dir_cases (env : Env.t) (explicit : option str) :
  (unresolved env explicit
   /\ exists exc, resolve_data_dir env explicit
                  = Raise (FileNotFoundError exc))
  \/ (~ unresolved env explicit
      /\ exists data_dir, resolve_data_dir env explicit = Ok data_dir).
Proof.
  unfold unresolved, resolve_data_dir.
  destruct explicit as [[|c e]|].
  2: { destruct (has_books_csv env [c :: e]); simpl;
         [right|left]; split; eauto; congruence. }
  all: destruct (has_books_csv env (path_join (Env.cwd env) (lit "data")));
    [right; split; [by intros [? _]|eauto]|];
    destruct (has_books_csv env
                (path_join (Env.package_root env) (lit "data")));
    [right; split; [by intros [_ ?]|eauto]|];
    left; split; eauto.
Qed.

(** C9.  For arguments that pass the checks of the term and of the limit,
    [main] returns 0, 1 or 2, when it returns: an exception raised while
    the tables are loaded or while a text file is opened leaves [main]
    without exit code.  It returns 2 exactly when no data directory
    is found, and has then printed one line, an error message, on the error
    stream and nothing on the output stream; it returns 0 exactly when the
    query ran and found a match, and 1 exactly when the query ran and found
    none. *)
Theorem main_exit_code (env : Env.t) (args : Args.t) :
  valid_args args ->
  let out := main py_int s2t t2s env args in
  (forall code stdout stderr,
     out = Return code stdout stderr -> code = 0 \/ code = 1 \/ code = 2)
  /\ ((exists stdout stderr, out = Return 2 stdout stderr) <->
      unresolved env (Args.data_dir args))
  /\ (forall stdout stderr,
        out = Return 2 stdout stderr ->
        stdout = [] /\ exists exc, stderr = [lit "error: " ++ exc])
  /\ ((exists stdout stderr, out = Return 0 stdout stderr) <->
      exists m results, query_results env args = Some (m :: results))
  /\ ((exists stdout stderr, out = Return 1 stdout stderr) <->
      query_results env args = Some []).
Proof.
  intros [Hterm Hlimit]. unfold main, query_results. simpl.
  destruct (strip (Args.term args)) as [|ch term]; [done|]. simpl.
  destruct (Z.ltb_spec (Args.limit args) 1) as [Hlim|_]; [lia|].
  destruct (resolve_data_dir_cases env (Args.data_dir args))
    as [[Hun (exc & ->)]|[Hres (data_dir & ->)]].
  { naive_solver. }
  destruct (load_date_ranges py_int env _) as [date_ranges|e];
    [|naive_solver].
  destruct (load_books env data_dir date_ranges) as [books|e];
    [|naive_solver].
  destruct (scan_loop env _ _ _ books []) as [[|m results]|e];
    naive_solver.
Qed.
End Main.

Definition query_heaven_earth (data_dir : option str) : Args.t :=
  {| Args.term := lit " 天地 "; Args.limit := 2; Args.context := 30;
     Args.data_dir := data_dir; Args.dedup := true |}.

(** The end-to-end scenario: three works dated [-200, -150], [100, 200] and
    unknown all contain the term; with limit 2 and deduplication the first
    two are reported, in this order. *)
Example main_three_works :
  main int_ascii id id three_works (query_heaven_earth None)
  = Return 0
      [ lit "query: 天地";
        lit "variants: 天地";
        lit "limit: 2";
        lit "dedup: on";
        lit "results: 2";
        [];
        lit "1) -200..-150 | KR9z0001 | 甲 | 秦 | - | a.txt:1";
        lit "    [天地]玄黃";
        lit "2) 100..200 | KR9z0002 | 乙 | 漢 | - | b.txt:1";
        lit "    日月盈昃 [天地]" ]
      [].
Proof. vm_compute. reflexivity. Qed.

Lemma main_exit_code_witness :
  valid_args (query_heaven_earth None)
  /\ (exists stdout stderr,
        main int_ascii id id three_works (query_heaven_earth None)
        = Return 0 stdout stderr)
  /\ (exists stderr,
        main int_ascii id id three_works
          (query_heaven_earth (Some (lit "elsewhere")))
        = Return 2 [] stderr).
Proof.
  assert (Hvalid : forall data_dir, valid_args (query_heaven_earth data_dir))
    by (intros data_dir; split; vm_compute; discriminate).
  split; [apply Hvalid|]. split.
  - apply (main_exit_code int_ascii id id three_works
             (query_heaven_earth None) (Hvalid None)).
    eexists _, _. vm_compute. reflexivity.
  - destruct (main_exit_code int_ascii id id three_works
                (query_heaven_earth (Some (lit "elsewhere")))
                (Hvalid _))
      as (_ & Hiff & Hout & _).
    destruct (proj2 Hiff) as (stdout & stderr & Hmain);
      [vm_compute; reflexivity|].
    destruct (Hout _ _ Hmain) as [-> _]. by exists stderr.
Defined.

(** The corpus [three_works] in which the path of the second work is a
    directory. *)
Definition with_directory : Env.t :=
  unreadable three_works [lit "data"; lit "b.txt"]
    (OSError (lit "[Errno 21] Is a directory: 'data/b.txt'")).

(** The first work gives a match, then [open] raises for the second: the
    exception leaves [main], which prints nothing and returns no code. *)
Example main_listed_directory :
  main int_ascii id id with_directory (query_heaven_earth None)
  = Uncaught (OSError (lit "[Errno 21] Is a directory: 'data/b.txt'")).
Proof. vm_compute. reflexivity. Qed.

End CliFacts.

(** ** Further facts about the Python values *)

Module PyMore.
Import Py PyFacts.

(** *** Stripping *)

Lemma lstrip_by_snoc (p : N -> bool) (a : str) (ch : N) :
  p ch = false -> lstrip_by p (a ++ [ch]) = lstrip_by p a ++ [ch].
Proof.
  intros Hch. induction a as [|x a IH]; simpl; [by rewrite Hch|].
  by destruct (p x).
Qed.

Lemma rstrip_by_cons (p : N -> bool) (ch : N) (s : str) :
  p ch = false -> rstrip_by p (ch :: s) = ch :: rstrip_by p s.
Proof.
  intros Hch. unfold rstrip_by. simpl.
  rewrite lstrip_by_snoc by done. by rewrite rev_app_distr.
Qed.

Lemma lstrip_by_idem (p : N -> bool) (s : str) :
  lstrip_by p (lstrip_by p s) = lstrip_by p s.
Proof.
  induction s as [|c s IH]; simpl; [done|].
  destruct (p c) eqn:E; [done|]. simpl. by rewrite E.
Qed.

Lemma rstrip_by_idem (p : N -> bool) (s : str) :
  rstrip_by p (rstrip_by p s) = rstrip_by p s.
Proof.
  unfold rstrip_by. by rewrite rev_involutive, lstrip_by_idem.
Qed.

Lemma lstrip_rstrip (p : N -> bool) (s : str) :
  lstrip_by p (rstrip_by p (lstrip_by p s)) = rstrip_by p (lstrip_by p s).
Proof.
  destruct (lstrip_by_split p s) as (a & _ & _ & Hhead).
  destruct (lstrip_by p s) as [|c r]; [done|].
  rewrite rstrip_by_cons by done. simpl. by rewrite Hhead.
Qed.

Lemma strip_idem (s : str) : strip (strip s) = strip s.
Proof.
  unfold strip, lstrip, rstrip.
  by rewrite lstrip_rstrip, rstrip_by_idem.
Qed.

(** A stripped string is a part of the string. *)
Lemma lstrip_by_suffix (p : N -> bool) (s : str) :
  exists a, s = a ++ lstrip_by p s.
Proof. destruct (lstrip_by_split p s) as (a & H & _). by exists a. Qed.

Lemma strip_infix (s : str) : exists a b, s = a ++ strip s ++ b.
Proof.
  unfold strip, rstrip, lstrip.
  destruct (lstrip_by_suffix isspace s) as (a & Ha).
  destruct (rstrip_by_split isspace (lstrip_by isspace s)) as (b & Hb & _).
  exists a, b. by rewrite <- Hb.
Qed.

Lemma strip_elem (s : str) (c : N) : c ∈ strip s -> c ∈ s.
Proof.
  intros H. destruct (strip_infix s) as (a & b & ->).
  rewrite !elem_of_app. auto.
Qed.

(** A string that does not begin and does not end with white space is left
    as it is. *)
Definition stripped (s : str) : Prop := strip s = s.

Lemma stripped_strip (s : str) : stripped (strip s).
Proof. apply strip_idem. Qed.

Lemma stripped_nil : stripped [].
Proof. done. Qed.

(** *** Stability of the sort *)

Section Stable.
Context {A K : Type} (ltb : K -> K -> bool) (key : A -> K).
Hypothesis ltb_irrefl : forall x, ltb x x = false.

(** Elements that have the same key keep their order: whatever is selected
    by a test that depends on the key alone, and on one key at most, is
    selected in the same order before and after the sort. *)
Lemma insert_by_filter (same : A -> bool) (x : A) (l : list A) :
  (forall a b, same a = true -> same b = true -> key a = key b) ->
  List.filter same (insert_by ltb key x l) = List.filter same (x :: l).
Proof.
  intros Hkey. induction l as [|y l IH]; [done|].
  cbn [insert_by]. destruct (ltb (key y) (key x)) eqn:E; [|done].
  cbn [List.filter] in *. rewrite IH.
  destruct (same x) eqn:Hx, (same y) eqn:Hy; try done.
  rewrite (Hkey y x Hy Hx), ltb_irrefl in E. done.
Qed.

Lemma sort_by_stable (same : A -> bool) (l : list A) :
  (forall a b, same a = true -> same b = true -> key a = key b) ->
  List.filter same (sort_by ltb key l) = List.filter same l.
Proof.
  intros Hkey. induction l as [|x l IH]; [done|].
  cbn [sort_by]. rewrite insert_by_filter by done.
  cbn [List.filter]. by rewrite IH.
Qed.
End Stable.

End PyMore.

(** ** Further properties of the metadata builder *)

Module ScanBooksMore.
Import Py PyFacts PyMore ScanBooks ScanBooksFacts.

(** *** The label of a file name *)

Lemma split_last_some (sep : N) (s a b : str) :
  split_last sep s = Some (a, b) -> s = a ++ sep :: b /\ sep ∉ b.
Proof.
  revert a b; induction s as [|c s IH]; intros a b; simpl; [done|].
  destruct (split_last sep s) as [[a' b']|] eqn:E.
  - intros [= <- <-]. destruct (IH _ _ eq_refl) as [-> Hb]. done.
  - destruct (N.eqb_spec c sep) as [->|]; [|done].
    intros [= <- <-]. split; [done|].
    clear IH. revert E. induction s as [|x s IH]; simpl.
    + intros _. apply not_elem_of_nil.
    + destruct (split_last sep s) as [[? ?]|]; [done|].
      destruct (N.eqb_spec x sep); [done|]. intros _.
      apply not_elem_of_cons. split; [done|by apply IH].
Qed.

Lemma split_last_none (sep : N) (s : str) :
  sep ∉ s -> split_last sep s = None.
Proof.
  induction s as [|c s IH]; simpl; [done|].
  intros H. apply not_elem_of_cons in H as [Hc Hs]. rewrite (IH Hs).
  by destruct (N.eqb_spec c sep).
Qed.

Lemma split_last_app (sep : N) (a b : str) :
  sep ∉ b -> split_last sep (a ++ sep :: b) = Some (a, b).
Proof.
  intros Hb. induction a as [|c a IH]; simpl.
  - by rewrite (split_last_none _ _ Hb), N.eqb_refl.
  - by rewrite IH.
Qed.

Lemma strip_no_sep (sep : N) (s : str) : sep ∉ s -> sep ∉ strip s.
Proof. intros H Hin. by apply H, strip_elem. Qed.

(** X1.  The three components of a label never begin or end with white space,
    and the last two contain no hyphen; a label without hyphen is a title. *)
Theorem parse_metadata_parts (label : str) :
  let '(title, dynasty_label, author_label) := parse_metadata label in
  stripped title /\ stripped dynasty_label /\ stripped author_label
  /\ (45%N ∉ dynasty_label) /\ (45%N ∉ author_label)
  /\ (45%N ∉ label ->
      title = strip label /\ dynasty_label = [] /\ author_label = []).
Proof.
  unfold parse_metadata. cbn [rsplit].
  destruct (split_last 45 label) as [[a1 b1]|] eqn:E1.
  - destruct (split_last_some _ _ _ _ E1) as [-> Hb1].
    destruct (split_last 45 a1) as [[a2 b2]|] eqn:E2.
    + destruct (split_last_some _ _ _ _ E2) as [-> Hb2]. simpl.
      repeat split; try apply stripped_strip; try by apply strip_no_sep.
      all: exfalso;
        match goal with Hno : 45%N ∉ _ ++ _ :: _ |- _ => apply Hno end;
        rewrite !elem_of_app, !elem_of_cons; auto.
    + simpl. repeat split; try apply stripped_strip; try done;
        try by apply strip_no_sep.
      all: try apply not_elem_of_nil.
      all: exfalso;
        match goal with Hno : 45%N ∉ _ ++ _ :: _ |- _ => apply Hno end;
        rewrite !elem_of_app, !elem_of_cons; auto.
  - simpl. repeat split; try apply stripped_strip; try done;
      apply not_elem_of_nil.
Qed.

(** X2.  A title, a dynasty and an author joined by hyphens are read back as
    they are, when none of them has white space at its ends and the dynasty and
    the author have no hyphen. *)
Theorem parse_metadata_round_trip (title dynasty_label author_label : str) :
  stripped title -> stripped dynasty_label -> stripped author_label ->
  45%N ∉ dynasty_label -> 45%N ∉ author_label ->
  parse_metadata (title ++ lit "-" ++ dynasty_label ++ lit "-" ++ author_label)
  = (title, dynasty_label, author_label).
Proof.
  intros Ht Hd Ha Hnd Hna. unfold parse_metadata. cbn [rsplit].
  change (lit "-") with [45%N]. simpl app.
  replace (title ++ 45%N :: dynasty_label ++ 45%N :: author_label)
    with ((title ++ 45%N :: dynasty_label) ++ 45%N :: author_label)
    by (rewrite <- app_assoc; done).
  rewrite split_last_app, split_last_app by done. simpl.
  by rewrite Ht, Hd, Ha.
Qed.

Lemma parse_metadata_round_trip_witness :
  parse_metadata (lit "周易注-魏-王弼") = (lit "周易注", lit "魏", lit "王弼")
  /\ parse_metadata (lit "春秋-左傳 - 周 - ") = (lit "春秋-左傳", lit "周", []).
Proof.
  split.
  - apply (parse_metadata_round_trip (lit "周易注") (lit "魏") (lit "王弼"));
      try (vm_compute; reflexivity);
      apply (bool_decide_unpack _); vm_compute; exact I.
  - vm_compute. reflexivity.
Defined.

Lemma parse_metadata_parts_witness :
(45%N ∉ lit "周易") /\ parse_metadata (lit " 周易 ") = (lit "周易", [], []).
Proof.
  assert (H : 45%N ∉ lit " 周易 ")
    by (apply (bool_decide_unpack _); vm_compute; exact I).
  split; [apply (bool_decide_unpack _); vm_compute; exact I|].
  pose proof (parse_metadata_parts (lit " 周易 ")) as Hp.
  destruct (parse_metadata (lit " 周易 ")) as [[t d] a].
  destruct Hp as (_ & _ & _ & _ & _ & Hp).
  destruct (Hp H) as (-> & -> & ->). vm_compute. reflexivity.
Defined.

(** *** The author name *)

(** No opening parenthesis of [s] has a closing one after it. *)
Fixpoint no_pair (s : str) : bool :=
  match s with
  | [] => true
  | c :: r => negb (is_open_paren c && existsb is_close_paren r) && no_pair r
  end.

Lemma paren_sub_from_elem (inside : bool) (s : str) (x : N) :
  x ∈ paren_sub_from inside s -> x ∈ s.
Proof.
  revert inside; induction s as [|c s IH]; intros inside; simpl; [done|].
  destruct inside.
  - intros H. right. by eapply IH.
  - destruct (is_open_paren c && existsb is_close_paren s).
    + intros H. right. by eapply IH.
    + intros H. apply elem_of_cons in H as [->|H]; [left|right; by eapply IH].
Qed.

Lemma existsb_false_elem (p : N -> bool) (s t : str) :
  (forall x, x ∈ t -> x ∈ s) -> existsb p s = false -> existsb p t = false.
Proof.
  intros Hsub Hs. destruct (existsb p t) eqn:E; [|done].
  apply existsb_exists in E as (x & Hx & Hp).
  assert (existsb p s = true); [|congruence].
  apply existsb_exists. exists x. split; [|done].
  by apply list_elem_of_In, Hsub, list_elem_of_In.
Qed.

Lemma paren_sub_from_no_pair (inside : bool) (s : str) :
  no_pair (paren_sub_from inside s) = true.
Proof.
  revert inside; induction s as [|c s IH]; intros inside; simpl; [done|].
  destruct inside; [apply IH|].
  destruct (is_open_paren c && existsb is_close_paren s) eqn:E; [apply IH|].
  simpl. rewrite IH, andb_true_r. apply negb_true_iff.
  destruct (is_open_paren c); [|done]. simpl in *.
  eapply existsb_false_elem; [|exact E]. apply paren_sub_from_elem.
Qed.

Lemma paren_sub_no_pair (s : str) : no_pair s = true -> paren_sub s = s.
Proof.
  unfold paren_sub. induction s as [|c s IH]; simpl; [done|].
  intros H. apply andb_prop in H as [Hc Hs].
  apply negb_true_iff in Hc. rewrite Hc. by rewrite IH.
Qed.

Lemma no_pair_app (a b : str) :
  no_pair (a ++ b) = true -> no_pair a = true /\ no_pair b = true.
Proof.
  induction a as [|c a IH]; simpl; [done|].
  intros H. apply andb_prop in H as [Hc H]. destruct (IH H) as [Ha Hb].
  split; [|done]. rewrite Ha, andb_true_r.
  apply negb_true_iff. apply negb_true_iff in Hc.
  destruct (is_open_paren c); [|done]. simpl in *.
  eapply existsb_false_elem; [|exact Hc].
  intros x Hx. apply elem_of_app. by left.
Qed.

Lemma no_pair_strip (s : str) : no_pair s = true -> no_pair (strip s) = true.
Proof.
  intros H. destruct (strip_infix s) as (a & b & Hs). rewrite Hs in H.
  apply no_pair_app in H as [_ H]. by apply no_pair_app in H as [H _].
Qed.

Lemma contains_occurs (s marker : str) :
  marker <> [] ->
  contains s marker = false ->
  forall i, ~ CliFacts.occurs_at s marker i.
Proof.
  intros Hne. unfold contains. destruct marker as [|c t]; [done|].
  destruct (find s (c :: t) 0) eqn:E; [done|]. intros _ i.
  apply (CliFacts.find_none _ _ _ _ E). lia.
Qed.

Lemma normalize_author_name_some (author_label name : str) :
  normalize_author_name author_label = Some name ->
  name = strip (paren_sub (strip author_label))
  /\ name <> [] /\ stripped name
  /\ no_pair name = true
  /\ forall marker i,
       marker ∈ UNKNOWN_AUTHOR_MARKERS -> ~ CliFacts.occurs_at name marker i.
Proof.
  unfold normalize_author_name.
  destruct (is_empty (strip author_label)); [done|].
  destruct (strip (paren_sub (strip author_label))) as [|c n] eqn:En; [done|].
  cbn [is_empty].
  destruct (existsb _ UNKNOWN_AUTHOR_MARKERS) eqn:Em; [done|].
  intros [= <-]. split; [done|]. split; [done|].
  split; [rewrite <- En; apply stripped_strip|]. split.
  { rewrite <- En. apply no_pair_strip, paren_sub_from_no_pair. }
  intros marker i Hin. apply contains_occurs.
  - intros ->. revert Hin. unfold UNKNOWN_AUTHOR_MARKERS.
    rewrite !elem_of_cons, elem_of_nil. vm_compute. naive_solver.
  - destruct (contains (c :: n) marker) eqn:Ec; [|done].
    assert (existsb (fun m => contains (c :: n) m) UNKNOWN_AUTHOR_MARKERS
            = true); [|congruence].
    apply existsb_exists. exists marker. split; [|done].
    by apply list_elem_of_In.
Qed.

(** X3.  A name that [normalize_author_name] returns is the label without its
    parenthetical annotations and without white space at its ends; it is not
    empty and none of the markers of an unknown author occurs in it. *)
Theorem normalize_author_name_clean (author_label name : str) :
  normalize_author_name author_label = Some name ->
  name = strip (paren_sub (strip author_label))
  /\ name <> [] /\ stripped name
  /\ no_pair name = true
  /\ forall marker i,
       marker ∈ UNKNOWN_AUTHOR_MARKERS -> ~ CliFacts.occurs_at name marker i.
Proof. apply normalize_author_name_some. Qed.

(** X4.  Normalizing a normalized name gives the name back. *)
Theorem normalize_author_name_idempotent (author_label name : str) :
  normalize_author_name author_label = Some name ->
  normalize_author_name name = Some name.
Proof.
  intros H.
  destruct (normalize_author_name_some _ _ H) as (_ & Hne & Hs & Hp & _).
  unfold normalize_author_name in *.
  destruct (is_empty (strip author_label)); [done|].
  destruct (is_empty (strip (paren_sub (strip author_label)))) eqn:E1;
    [done|].
  destruct (existsb _ UNKNOWN_AUTHOR_MARKERS) eqn:Em; [done|].
  injection H as H. unfold stripped in Hs. rewrite Hs.
  rewrite (paren_sub_no_pair _ Hp), Hs.
  rewrite H in Em, E1. rewrite E1. by rewrite Em.
Qed.

Lemma normalize_author_name_clean_witness :
  normalize_author_name (lit " 王弼(撰)（魏） ") = Some (lit "王弼")
  /\ stripped (lit "王弼").
Proof.
  assert (H : normalize_author_name (lit " 王弼(撰)（魏） ") = Some (lit "王弼"))
    by (vm_compute; reflexivity).
  split; [exact H|].
  apply (normalize_author_name_clean _ _ H).
Defined.

Lemma normalize_author_name_idempotent_witness :
  normalize_author_name (lit " 王弼(撰)（魏） ") = Some (lit "王弼")
  /\ normalize_author_name (lit "王弼") = Some (lit "王弼").
Proof.
  assert (H : normalize_author_name (lit " 王弼(撰)（魏） ") = Some (lit "王弼"))
    by (vm_compute; reflexivity).
  split; [exact H|].
  exact (normalize_author_name_idempotent _ _ H).
Defined.

(** *** The biographical export *)

Section ReaderFacts.
Variable py_int : str -> option Z.

Lemma parse_year_some (value : str) (year : Z) :
  parse_year py_int value = Some year ->
  year <> 0 /\ py_int (strip value) = Some year.
Proof.
  unfold parse_year. destruct (is_empty _ || str_eqb _ _); [done|].
  destruct (py_int (strip value)) as [y|]; [|done].
  destruct (Z.eqb_spec y 0); [done|]. by intros [= <-].
Qed.

Lemma parse_year_truthy (value : str) :
  truthy (parse_year py_int value) = true <->
  is_Some (parse_year py_int value).
Proof.
  destruct (parse_year py_int value) as [y|] eqn:E; simpl.
  - apply parse_year_some in E as [Hy _].
    destruct (Z.eqb_spec y 0); [done|]. by split.
  - split; [done|]. by intros [? ?].
Qed.

(** A person as [load_cbdb_people] records it under [name]. *)
Definition recorded_person (name : str) (person : CBDBPerson.t) : Prop :=
  CBDBPerson.name person = name
  /\ stripped (CBDBPerson.person_id person)
  /\ (is_Some (CBDBPerson.birth_year person)
      \/ is_Some (CBDBPerson.death_year person)
      \/ is_Some (CBDBPerson.fl_earliest person)
      \/ is_Some (CBDBPerson.fl_latest person))
  /\ CBDBPerson.birth_year person <> Some 0
  /\ CBDBPerson.death_year person <> Some 0
  /\ CBDBPerson.fl_earliest person <> Some 0
  /\ CBDBPerson.fl_latest person <> Some 0.

(** The entries of the dict are lists, not empty, of persons recorded under
    a requested name. *)
Definition recorded (author_names : gset str)
    (people : gmap str (list CBDBPerson.t)) : Prop :=
  forall name persons,
    people !! name = Some persons ->
    persons <> [] /\ name ∈ author_names /\ name <> [] /\ stripped name
    /\ Forall (recorded_person name) persons.

Lemma parse_year_not_zero (value : str) : parse_year py_int value <> Some 0.
Proof. intros H. by apply parse_year_some in H as [? _]. Qed.

Lemma load_cbdb_rows_recorded (cols : Columns.t) (author_names : gset str)
    (rows : list (list str)) (people result : gmap str (list CBDBPerson.t)) :
  recorded author_names people ->
  load_cbdb_rows py_int cols author_names rows people = Ok result ->
  recorded author_names result.
Proof.
  revert people; induction rows as [|row rows IH]; intros people Hrec;
    cbn [load_cbdb_rows].
  - by intros [= <-].
  - destruct (length row <=? Columns.idx_name cols)%nat; [by apply IH|].
    set (name := strip (cell_or_empty row (Columns.idx_name cols))).
    destruct (is_empty name) eqn:Hne; [by apply IH|].
    case_bool_decide as Hin; simpl; [|by apply IH].
    destruct (negb _) eqn:Hany; [by apply IH|].
    destruct (row !! Columns.idx_person cols) as [person_id|]; [|done].
    apply IH. intros name' persons. rewrite lookup_insert.
    case_decide as Hname; [|by apply Hrec].
    subst name'. intros [= <-]. split; [by destruct (default [] _)|].
    split; [done|]. split; [by destruct name|].
    split; [apply stripped_strip|]. apply Forall_app. split.
    + destruct (people !! name) as [old|] eqn:Hold; simpl; [|constructor].
      by apply (Hrec name old).
    + constructor; [|constructor]. unfold recorded_person. simpl.
      split; [done|]. split; [apply stripped_strip|].
      split; [|by repeat split; apply parse_year_not_zero].
      apply negb_false_iff in Hany.
      rewrite !orb_true_iff, !parse_year_truthy in Hany. tauto.
Qed.

(** X5.  Every entry of the dict that [load_cbdb_people] returns is a list, not
    empty, of persons whose name is the key; the key is one of the requested
    author names, is not empty and has no white space at its ends; every person
    has at least one year, and no year is 0.  Without database file or without
    author names the dict is empty. *)
Theorem load_cbdb_people_recorded (mdb_exists : bool)
    (author_names : gset str) (table : list (list str))
    (people : gmap str (list CBDBPerson.t)) :
  load_cbdb_people py_int mdb_exists author_names table = Ok people ->
  recorded author_names people
  /\ (mdb_exists = false \/ author_names = ∅ -> people = ∅).
Proof.
  unfold load_cbdb_people. intros Hload. split.
  - assert (Hempty : recorded author_names ∅).
    { intros name persons. by rewrite lookup_empty. }
    destruct (negb mdb_exists || bool_decide (author_names = ∅));
      [by injection Hload as <-|].
    destruct table as [|[|column header] rows];
      try by injection Hload as <-.
    destruct (find_columns _) as [cols|]; [|done].
    by eapply load_cbdb_rows_recorded.
  - intros [-> | ->]; simpl in Hload.
    + by injection Hload as <-.
    + rewrite bool_decide_eq_true_2, orb_true_r in Hload by done.
      by injection Hload as <-.
Qed.

(** A row with a requested name and a year that is too short to have the
    column of the person identifier. *)
Definition short_person_row (cols : Columns.t) (author_names : gset str)
    (row : list str) : Prop :=
  (Columns.idx_name cols < length row <= Columns.idx_person cols)%nat
  /\ strip (cell_or_empty row (Columns.idx_name cols)) ∈ author_names
  /\ strip (cell_or_empty row (Columns.idx_name cols)) <> []
  /\ (is_Some (parse_year py_int (cell_or_empty row (Columns.idx_birth cols)))
      \/ is_Some (parse_year py_int
                    (cell_or_empty row (Columns.idx_death cols)))
      \/ is_Some (parse_year py_int
                    (cell_or_empty row (Columns.idx_fl_earliest cols)))
      \/ is_Some (parse_year py_int
                    (cell_or_empty row (Columns.idx_fl_latest cols)))).

Lemma load_cbdb_rows_index_error (cols : Columns.t) (author_names : gset str)
    (rows : list (list str)) (people : gmap str (list CBDBPerson.t))
    (row : list str) :
  row ∈ rows -> short_person_row cols author_names row ->
  load_cbdb_rows py_int cols author_names rows people = Raise IndexError.
Proof.
  intros Hin ([Hlo Hhi] & Hname & Hne & Hyear). revert people.
  induction rows as [|r rows IH]; intros people;
    [by apply elem_of_nil in Hin|].
  cbn [load_cbdb_rows]. apply elem_of_cons in Hin as [<-|Hin].
  - destruct (Nat.leb_spec (length row) (Columns.idx_name cols)); [lia|].
    destruct (strip (cell_or_empty row (Columns.idx_name cols))) as [|c n]
      eqn:En; [done|].
    cbn [is_empty]. rewrite bool_decide_eq_true_2 by done. simpl.
    rewrite <- !parse_year_truthy in Hyear.
    assert (Hany : truthy (parse_year py_int
                             (cell_or_empty row (Columns.idx_birth cols)))
                   || truthy (parse_year py_int
                                (cell_or_empty row (Columns.idx_death cols)))
                   || truthy (parse_year py_int
                                (cell_or_empty row
                                   (Columns.idx_fl_earliest cols)))
                   || truthy (parse_year py_int
                                (cell_or_empty row
                                   (Columns.idx_fl_latest cols))) = true).
    { rewrite !orb_true_iff. tauto. }
    rewrite Hany. simpl. by rewrite lookup_ge_None_2 by lia.
  - specialize (IH Hin).
    destruct (length r <=? Columns.idx_name cols)%nat; [apply IH|].
    destruct (is_empty _ || negb _); [apply IH|].
    destruct (negb _); [apply IH|].
    destruct (r !! Columns.idx_person cols); [apply IH|done].
Qed.

(** X6.  A row, anywhere in the table, that has a requested name and a year
    but is too short to have the column of the person identifier stops the
    loading with an [IndexError]; a header without one of the six columns
    stops it with a [ValueError]. *)
Theorem load_cbdb_people_errors (author_names : gset str)
    (header : list str) (rows : list (list str)) :
  author_names <> ∅ -> header <> [] ->
  (forall column,
     column ∈ [ lit "c_name_chn"; lit "c_personid"; lit "c_birthyear";
                lit "c_deathyear"; lit "c_fl_earliest_year";
                lit "c_fl_latest_year" ] ->
     column ∉ header ->
     exists msg,
       load_cbdb_people py_int true author_names (header :: rows)
       = Raise (ValueError msg))
  /\ (forall cols row,
        find_columns header = Ok cols ->
        row ∈ rows ->
        short_person_row cols author_names row ->
        load_cbdb_people py_int true author_names (header :: rows)
        = Raise IndexError).
Proof.
  intros Hnames Hheader. unfold load_cbdb_people.
  rewrite bool_decide_eq_false_2 by done. simpl.
  destruct header as [|column0 header0]; [done|].
  set (header := column0 :: header0). split.
  - assert (Hindex : forall name, name ∉ header ->
                       index_of header name = Raise (ValueError name)).
    { intros name. generalize header. clear.
      induction header as [|c h IH]; simpl; [done|].
      intros Hn. apply not_elem_of_cons in Hn as [Hc Hh].
      unfold str_eqb. rewrite bool_decide_eq_false_2 by done.
      by rewrite IH. }
    assert (Hcases : forall name,
               (exists i, index_of header name = Ok i)
               \/ index_of header name = Raise (ValueError name)).
    { intros name. generalize header. clear.
      induction header as [|c h [[i IH]|IH]]; simpl; [by right| |];
        destruct (str_eqb c name); eauto; rewrite IH; eauto. }
    intros column Hcol Hmissing. unfold find_columns.
    rewrite !elem_of_cons, elem_of_nil in Hcol.
    destruct (Hcases (lit "c_name_chn")) as [[? H1]|H1]; rewrite H1;
      [|eauto].
    destruct (Hcases (lit "c_personid")) as [[? H2]|H2]; rewrite H2;
      [|eauto].
    destruct (Hcases (lit "c_birthyear")) as [[? H3]|H3]; rewrite H3;
      [|eauto].
    destruct (Hcases (lit "c_deathyear")) as [[? H4]|H4]; rewrite H4;
      [|eauto].
    destruct (Hcases (lit "c_fl_earliest_year")) as [[? H5]|H5]; rewrite H5;
      [|eauto].
    destruct (Hcases (lit "c_fl_latest_year")) as [[? H6]|H6]; rewrite H6;
      [|eauto].
    exfalso. pose proof (Hindex _ Hmissing) as Hraise.
    destruct Hcol as [->|[->|[->|[->|[->|[->|[]]]]]]]; congruence.
  - intros cols row -> Hin Hrow.
    by eapply load_cbdb_rows_index_error.
Qed.
End ReaderFacts.

Definition cbdb_table : list (list str) :=
  [ [ lit "c_personid"; lit "c_name_chn"; lit "c_birthyear";
      lit "c_deathyear"; lit "c_fl_earliest_year"; lit "c_fl_latest_year" ];
    [ lit "30340"; lit " 王弼 "; lit "226"; lit "249"; lit "0"; [] ];
    [ lit "1"; lit "無名"; lit "0"; []; []; [] ];
    [ lit "2"; lit "別人"; lit "100"; []; []; [] ];
    [ lit "3" ] ].

Lemma load_cbdb_people_recorded_witness :
  load_cbdb_people CliFacts.int_ascii true {[ lit "王弼"; lit "無名" ]}
    cbdb_table
  = Ok {[ lit "王弼" := [person_wang] ]}
  /\ recorded {[ lit "王弼"; lit "無名" ]} {[ lit "王弼" := [person_wang] ]}.
Proof.
  assert (H : load_cbdb_people CliFacts.int_ascii true
                {[ lit "王弼"; lit "無名" ]} cbdb_table
              = Ok {[ lit "王弼" := [person_wang] ]})
    by (vm_compute; reflexivity).
  split; [exact H|].
  apply (load_cbdb_people_recorded CliFacts.int_ascii _ _ _ _ H).
Defined.

Definition cbdb_header_id_last : list str :=
  [ lit "c_name_chn"; lit "c_birthyear"; lit "c_deathyear";
    lit "c_fl_earliest_year"; lit "c_fl_latest_year"; lit "c_personid" ].

Lemma load_cbdb_people_errors_witness :
  load_cbdb_people CliFacts.int_ascii true {[ lit "王弼" ]}
    [ cbdb_header_id_last;
      [ lit "王弼"; lit "226"; lit "249"; []; []; lit "30340" ];
      [ lit "王弼"; []; lit "249" ] ]
  = Raise IndexError.
Proof.
  assert (Hnames : ({[ lit "王弼" ]} : gset str) <> ∅).
  { intros H. assert (Hin : lit "王弼" ∈ ({[ lit "王弼" ]} : gset str))
      by set_solver. rewrite H in Hin. set_solver. }
  destruct (load_cbdb_people_errors CliFacts.int_ascii {[ lit "王弼" ]}
              cbdb_header_id_last
              [ [ lit "王弼"; lit "226"; lit "249"; []; []; lit "30340" ];
                [ lit "王弼"; []; lit "249" ] ]
              Hnames ltac:(discriminate)) as [_ H].
  eapply (H _ [ lit "王弼"; []; lit "249" ]).
  - vm_compute. reflexivity.
  - right. left.
  - split; [vm_compute; split; lia|].
    split; [vm_compute; set_solver|].
    split; [vm_compute; discriminate|].
    right. left. eexists. vm_compute. reflexivity.
Defined.

(** *** The table of dynasty ranges *)

Section DynastyFile.
Variable py_int : str -> option Z.

(** The label and the two date fields of a row in which none of them is
    blank. *)
Definition complete_row (row : Row) : option (str * str * str) :=
  let label := get_stripped row (lit "dynasty_label") in
  let start := get_stripped row (lit "date_not_before") in
  let end_ := get_stripped row (lit "date_not_after") in
  if is_empty label || is_empty start || is_empty end_ then None
  else Some (label, start, end_).

(** Both date fields of the row are integers, if the row is complete. *)
Definition integer_dates (row : Row) : Prop :=
  forall label start end_,
    complete_row row = Some (label, start, end_) ->
    is_Some (py_int start) /\ is_Some (py_int end_).

(** The range a row gives to [label]. *)
Definition range_for (label : str) (row : Row) : option (Z * Z) :=
  match complete_row row with
  | Some (l, start, end_) =>
    if decide (l = label) then
      match py_int start, py_int end_ with
      | Some nb, Some na => Some (nb, na)
      | _, _ => None
      end
    else None
  | None => None
  end.

Lemma load_dynasty_rows_last (rows : list Row) (ranges : gmap str (Z * Z)) :
  Forall integer_dates rows ->
  exists ranges',
    load_dynasty_rows py_int rows ranges = Ok ranges'
    /\ forall label,
         ranges' !! label
         = match last (omap (range_for label) rows) with
           | Some range => Some range
           | None => ranges !! label
           end.
Proof.
  intros Hrows. revert ranges.
  induction Hrows as [|row rows Hrow _ IH]; intros ranges.
  - by exists ranges.
  - cbn [load_dynasty_rows omap list_omap]. unfold range_for at 1.
    unfold integer_dates, complete_row in *.
    destruct (is_empty _ || is_empty _ || is_empty _); [apply IH|].
    destruct (Hrow _ _ _ eq_refl) as [[nb Hnb] [na Hna]].
    rewrite Hnb, Hna.
    destruct (IH (<[get_stripped row (lit "dynasty_label") := (nb, na)]>
                    ranges)) as (ranges' & -> & Hlook).
    exists ranges'. split; [done|]. intros label. rewrite Hlook.
    case_decide as Hl.
    + subst label. rewrite lookup_insert_eq.
      destruct (omap _ rows) as [|r rs] eqn:Er; [done|].
      change (last ((nb, na) :: r :: rs)) with (last (r :: rs)).
      by destruct (last (r :: rs)) eqn:El;
        [|apply last_None in El].
    + by rewrite lookup_insert_ne.
Qed.

(** X7.  For a file in which every complete row has integer dates,
    [load_dynasty_ranges] returns the dict in which a label has the range of
    the last row that gives it one.  A label that no row of the file gives a
    range is not in the dict, whether the built-in table has it or not. *)
Theorem load_dynasty_ranges_last (rows : list Row) :
  Forall integer_dates rows ->
  exists ranges,
    load_dynasty_ranges py_int (Some rows) = Ok ranges
    /\ forall label, ranges !! label = last (omap (range_for label) rows).
Proof.
  intros Hrows.
  destruct (load_dynasty_rows_last rows ∅ Hrows) as (ranges & Hload & Hlook).
  exists ranges. split; [done|]. intros label.
  rewrite Hlook, lookup_empty. by destruct (last _).
Qed.

(** X8.  A complete row with a date that is not an integer is not skipped: the
    loading stops with a [ValueError]. *)
Theorem load_dynasty_ranges_value_error (before after : list Row) (row : Row)
    (label start end_ : str) :
  Forall integer_dates before ->
  complete_row row = Some (label, start, end_) ->
  py_int start = None \/ py_int end_ = None ->
  exists msg,
    load_dynasty_ranges py_int (Some (before ++ row :: after))
    = Raise (ValueError msg).
Proof.
  intros Hbefore Hrow Hbad. unfold load_dynasty_ranges.
  generalize (∅ : gmap str (Z * Z)).
  induction Hbefore as [|r before Hr _ IH]; intros ranges.
  - cbn [app load_dynasty_rows]. unfold complete_row in Hrow.
    destruct (is_empty _ || is_empty _ || is_empty _); [done|].
    injection Hrow as <- <- <-.
    destruct Hbad as [-> | Hend]; [eauto|].
    destruct (py_int (get_stripped row (lit "date_not_before"))); [|eauto].
    rewrite Hend. eauto.
  - cbn [app load_dynasty_rows]. unfold integer_dates, complete_row in Hr.
    destruct (is_empty _ || is_empty _ || is_empty _); [apply IH|].
    destruct (Hr _ _ _ eq_refl) as [[nb ->] [na ->]]. apply IH.
Qed.
End DynastyFile.

Definition dynasty_file : list Row :=
  [ CliFacts.row_of [ (lit "dynasty_label", lit "唐");
                      (lit "date_not_before", lit "618");
                      (lit "date_not_after", lit "700") ];
    CliFacts.row_of [ (lit "dynasty_label", lit "唐");
                      (lit "date_not_before", lit " 618 ");
                      (lit "date_not_after", lit "907") ];
    CliFacts.row_of [ (lit "dynasty_label", lit "宋");
                      (lit "date_not_before", lit "");
                      (lit "date_not_after", lit "1279") ] ].

Lemma dynasty_file_integer :
  Forall (integer_dates CliFacts.int_ascii) dynasty_file.
Proof.
  unfold dynasty_file.
  repeat (apply Forall_cons; split); [| | |constructor].
  all: intros label start end_ H; vm_compute in H;
    try discriminate; injection H as <- <- <-;
    split; eexists; vm_compute; reflexivity.
Qed.

Lemma load_dynasty_ranges_last_witness :
  exists ranges,
    load_dynasty_ranges CliFacts.int_ascii (Some dynasty_file) = Ok ranges
    /\ ranges !! lit "唐" = Some (618, 907)
    /\ ranges !! lit "宋" = None
    /\ ranges !! lit "漢" = None.
Proof.
  destruct (load_dynasty_ranges_last _ dynasty_file dynasty_file_integer)
    as (ranges & Hload & Hlook).
  exists ranges. split; [exact Hload|].
  rewrite !Hlook. vm_compute. repeat split.
Defined.

Lemma load_dynasty_ranges_value_error_witness :
  exists msg,
    load_dynasty_ranges CliFacts.int_ascii
      (Some ([] ++ CliFacts.row_of [ (lit "dynasty_label", lit "唐");
                                     (lit "date_not_before", lit "618");
                                     (lit "date_not_after", lit "c. 907") ]
                :: dynasty_file))
    = Raise (ValueError msg).
Proof.
  eapply (load_dynasty_ranges_value_error CliFacts.int_ascii [] dynasty_file).
  - constructor.
  - vm_compute. reflexivity.
  - right. vm_compute. reflexivity.
Defined.

(** *** The catalog files *)

(** An evidence record as [flush_person] files it under [work_id]. *)
Definition filed_item (work_id : str) (item : PersonEvidence.t) : Prop :=
  PersonEvidence.work_id item = work_id
  /\ some_bound item
  /\ PersonEvidence.person_name item <> []
  /\ PersonEvidence.raw_dates item <> []
  /\ stripped (PersonEvidence.raw_dates item)
  /\ stripped (PersonEvidence.function item)
  /\ stripped (PersonEvidence.dynasty_label item).

Definition filed (evidence_by_work : gmap str (list PersonEvidence.t))
    : Prop :=
  forall work_id items,
    evidence_by_work !! work_id = Some items ->
    items <> [] /\ work_id <> [] /\ Forall (filed_item work_id) items.

(** What was recorded stays, in its place. *)
Definition extends (before after : gmap str (list PersonEvidence.t)) : Prop :=
  forall work_id items,
    before !! work_id = Some items ->
    exists more, after !! work_id = Some (items ++ more).

Lemma extends_refl (m : gmap str (list PersonEvidence.t)) : extends m m.
Proof. intros w items H. exists []. by rewrite app_nil_r. Qed.

Lemma extends_trans (a b c : gmap str (list PersonEvidence.t)) :
  extends a b -> extends b c -> extends a c.
Proof.
  intros Hab Hbc w items H. destruct (Hab _ _ H) as (m1 & H1).
  destruct (Hbc _ _ H1) as (m2 & H2). exists (m1 ++ m2).
  by rewrite app_assoc.
Qed.

Lemma is_empty_false (s : str) : is_empty s = false -> s <> [].
Proof. by destruct s. Qed.

Section CatalogFacts.
Variable parse_dates : str -> option Z * option Z.
Variable work_match : str -> option str.
Variable people_section_match : str -> bool.
Variable heading4_match : str -> bool.
Variable person_match : str -> option str.
Variable property_match : str -> option (str * str).

Let parse_line :=
  parse_line parse_dates work_match people_section_match heading4_match
    person_match property_match.
Let parse_kr_catalog_file :=
  parse_kr_catalog_file parse_dates work_match people_section_match
    heading4_match person_match property_match.
Let parse_kr_catalog :=
  parse_kr_catalog parse_dates work_match people_section_match
    heading4_match person_match property_match.

Lemma flush_person_filed (st : Parser.t) :
  filed (Parser.evidence_by_work st) ->
  filed (Parser.evidence_by_work (flush_person parse_dates st))
  /\ extends (Parser.evidence_by_work st)
       (Parser.evidence_by_work (flush_person parse_dates st)).
Proof.
  intros Hst. unfold flush_person.
  assert (Hsame : filed (Parser.evidence_by_work st)
                  /\ extends (Parser.evidence_by_work st)
                       (Parser.evidence_by_work st))
    by (split; [done|apply extends_refl]).
  destruct (Parser.current_work_id st) as [w|]; [|exact Hsame].
  destruct (Parser.current_person st) as [p|]; [|exact Hsame].
  destruct (is_empty w) eqn:Hw; [exact Hsame|].
  destruct (is_empty p) eqn:Hp; [exact Hsame|]. simpl.
  destruct (is_empty (strip _)) eqn:Hraw; [exact Hsame|].
  apply is_empty_false in Hw, Hp, Hraw.
  destruct (parse_dates _) as [[nb|] [na|]] eqn:Hd; try exact Hsame.
  all: split;
    [ intros w' items; simpl; rewrite lookup_insert;
      case_decide; [subst w'|by apply Hst];
      intros [= <-]; split; [by intros [_ ?]%app_eq_nil|];
      split; [done|];
      apply Forall_app; split;
      [ destruct (Parser.evidence_by_work st !! w) as [old|] eqn:Hold; simpl;
        [by apply (Hst w)|constructor]
      | apply Forall_cons; split; [|constructor];
        unfold filed_item, some_bound, is_Some; simpl;
        repeat split; eauto using stripped_strip ]
    | intros w' items Hitems; simpl; rewrite lookup_insert;
      case_decide; [|by exists []; rewrite app_nil_r];
      subst w'; rewrite Hitems; simpl; eauto ].
Qed.

Lemma parse_line_filed (st : Catalog.t) (line : str) :
  filed (Parser.evidence_by_work (Catalog.parser st)) ->
  filed (Parser.evidence_by_work (Catalog.parser (parse_line st line)))
  /\ extends (Parser.evidence_by_work (Catalog.parser st))
       (Parser.evidence_by_work (Catalog.parser (parse_line st line))).
Proof.
  intros Hst. unfold parse_line, ScanBooks.parse_line.
  pose proof (flush_person_filed (Catalog.parser st) Hst) as Hflush.
  assert (Hsame : filed (Parser.evidence_by_work (Catalog.parser st))
                  /\ extends (Parser.evidence_by_work (Catalog.parser st))
                       (Parser.evidence_by_work (Catalog.parser st)))
    by (split; [done|apply extends_refl]).
  repeat case_match; simpl; try exact Hflush; exact Hsame.
Qed.

Lemma fold_parse_line_filed (lines : list str) (st : Catalog.t) :
  filed (Parser.evidence_by_work (Catalog.parser st)) ->
  filed (Parser.evidence_by_work
           (Catalog.parser (fold_left parse_line lines st)))
  /\ extends (Parser.evidence_by_work (Catalog.parser st))
       (Parser.evidence_by_work
          (Catalog.parser (fold_left parse_line lines st))).
Proof.
  revert st; induction lines as [|line lines IH]; intros st Hst; simpl.
  - split; [done|apply extends_refl].
  - destruct (parse_line_filed st line Hst) as [Hf He].
    destruct (IH _ Hf) as [Hf' He']. split; [done|].
    by eapply extends_trans.
Qed.

Lemma parse_kr_catalog_file_filed (lines : list str)
    (evidence : gmap str (list PersonEvidence.t)) :
  filed evidence ->
  filed (parse_kr_catalog_file lines evidence)
  /\ extends evidence (parse_kr_catalog_file lines evidence).
Proof.
  intros Hev. unfold parse_kr_catalog_file, ScanBooks.parse_kr_catalog_file.
  set (start := Catalog.mk false (Parser.mk None None ∅ evidence)).
  destruct (fold_parse_line_filed lines start Hev) as [Hf He].
  destruct (flush_person_filed _ Hf) as [Hf' He'].
  split; [exact Hf'|]. by eapply extends_trans.
Qed.

Lemma parse_kr_catalog_is_filed (files : option (list (list str))) :
  filed (parse_kr_catalog files).
Proof.
  unfold parse_kr_catalog, ScanBooks.parse_kr_catalog.
  assert (Hempty : filed ∅) by (intros w items; by rewrite lookup_empty).
  destruct files as [files|]; [|exact Hempty].
  revert Hempty. generalize (∅ : gmap str (list PersonEvidence.t)).
  induction files as [|f files IH]; intros evidence0 Hev; simpl; [done|].
  apply IH. by apply parse_kr_catalog_file_filed.
Qed.

(** X9.  Every entry of the dict that [parse_kr_catalog] returns is a list, not
    empty, of records filed under their own work identifier, which is not
    empty; every record has a person, a date text and at least one bound.
    Reading a further file keeps every record read before, in its place. *)
Theorem parse_kr_catalog_filed (files : option (list (list str)))
    (lines : list str) (evidence : gmap str (list PersonEvidence.t)) :
  filed (parse_kr_catalog files)
  /\ (filed evidence ->
      filed (parse_kr_catalog_file lines evidence)
      /\ extends evidence (parse_kr_catalog_file lines evidence)).
Proof.
  split; [apply parse_kr_catalog_is_filed|apply parse_kr_catalog_file_filed].
Qed.

(** No person is open and the reader is not in a section of people. *)
Definition idle (st : Catalog.t) : Prop :=
  Catalog.in_people_section st = false
  /\ Parser.current_person (Catalog.parser st) = None.

Lemma flush_person_idle (st : Parser.t) :
  Parser.current_person st = None ->
  Parser.evidence_by_work (flush_person parse_dates st)
  = Parser.evidence_by_work st
  /\ Parser.current_person (flush_person parse_dates st) = None.
Proof.
  intros H. unfold flush_person. rewrite H.
  by destruct (Parser.current_work_id st).
Qed.

(** X10.  A file without a heading of a section of people adds no record,
    whatever its other lines are. *)
Theorem parse_kr_catalog_file_no_people (lines : list str)
    (evidence : gmap str (list PersonEvidence.t)) :
  Forall (fun line => people_section_match (rstrip_nl line) = false) lines ->
  parse_kr_catalog_file lines evidence = evidence.
Proof.
  intros Hlines.
  unfold parse_kr_catalog_file, ScanBooks.parse_kr_catalog_file.
  set (start := Catalog.mk false (Parser.mk None None ∅ evidence)).
  assert (Hfold : forall st,
             idle st ->
             idle (fold_left parse_line lines st)
             /\ Parser.evidence_by_work
                  (Catalog.parser (fold_left parse_line lines st))
                = Parser.evidence_by_work (Catalog.parser st)).
  { induction Hlines as [|line lines Hline _ IH]; intros st [Hin Hperson];
      simpl; [done|].
    destruct (flush_person_idle _ Hperson) as [Hev Hnone].
    assert (Hstep : idle (parse_line st line)
                    /\ Parser.evidence_by_work
                         (Catalog.parser (parse_line st line))
                       = Parser.evidence_by_work (Catalog.parser st)).
    { unfold parse_line, ScanBooks.parse_line, idle. rewrite Hline, Hin.
      repeat case_match; simpl; auto. }
    destruct Hstep as [Hidle Hsame].
    destruct (IH _ Hidle) as [Hidle' Hsame']. split; [done|congruence]. }
  destruct (Hfold start) as [[_ Hperson] Hsame]; [done|].
  destruct (flush_person_idle _ Hperson) as [Hev _].
  etransitivity; [exact Hev|exact Hsame].
Qed.
End CatalogFacts.

(** Tests on lines for the examples, simpler than the regular expressions:
    a heading is a run of stars and one space. *)
Definition after_prefix (prefix line : str) : option str :=
  if startswith line prefix then Some (drop (length prefix) line) else None.

Fixpoint break_at (sep : N) (s : str) : option (str * str) :=
  match s with
  | [] => None
  | c :: r =>
    if (c =? sep)%N then Some ([], r)
    else match break_at sep r with
         | Some (a, b) => Some (c :: a, b)
         | None => None
         end
  end.

Definition demo_property (line : str) : option (str * str) :=
  match line with
  | c :: r => if (c =? 58)%N then break_at 58 r else None
  | [] => None
  end.

Definition demo_dates (raw : str) : option Z * option Z :=
  (CliFacts.int_ascii raw, CliFacts.int_ascii raw).

Definition demo_catalog (files : option (list (list str)))
    : gmap str (list PersonEvidence.t) :=
  parse_kr_catalog demo_dates (after_prefix (lit "*** "))
    (fun line => str_eqb line (lit "**** 人物"))
    (fun line => startswith line (lit "**** "))
    (after_prefix (lit "***** ")) demo_property files.

Definition catalog_lines : list str :=
  [ lit "*** KR1a0001"; lit "***** 不算"; lit ":DATES: 1";
    lit "**** 人物"; lit "***** 王弼"; lit ":DATES: 226";
    lit ":FUNCTION: 注"; lit "***** 無日期"; lit ":FUNCTION: 撰";
    lit "**** 版本"; lit "***** 又不算"; lit ":DATES: 5" ].

Lemma parse_kr_catalog_filed_witness :
  demo_catalog (Some [catalog_lines])
  = {[ lit "KR1a0001" :=
         [ PersonEvidence.mk (lit "KR1a0001") (lit "王弼") (lit "注") []
             (lit "226") (Some 226) (Some 226) ] ]}
  /\ filed (demo_catalog (Some [catalog_lines])).
Proof.
  split; [vm_compute; reflexivity|].
  exact (proj1 (parse_kr_catalog_filed demo_dates (after_prefix (lit "*** "))
                  (fun line => str_eqb line (lit "**** 人物"))
                  (fun line => startswith line (lit "**** "))
                  (after_prefix (lit "***** ")) demo_property
                  (Some [catalog_lines]) [] ∅)).
Defined.

Lemma parse_kr_catalog_file_no_people_witness :
  parse_kr_catalog_file demo_dates (after_prefix (lit "*** "))
    (fun line => str_eqb line (lit "**** 人物"))
    (fun line => startswith line (lit "**** "))
    (after_prefix (lit "***** ")) demo_property
    [ lit "*** KR1a0001"; lit "***** 王弼"; lit ":DATES: 226" ] ∅
  = ∅.
Proof.
  apply parse_kr_catalog_file_no_people.
  repeat (apply Forall_cons; split); [| | |constructor];
    vm_compute; reflexivity.
Defined.

(** *** The table of resolved dates *)

Definition has_both (row : DateRow.t) : bool :=
  is_not_none (DateRow.date_not_before row)
  && is_not_none (DateRow.date_not_after row).

(** The three kinds of rows of the table. *)
Definition well_tagged (row : DateRow.t) : Prop :=
  (DateRow.source row = lit "cbdb"
   /\ has_both row = true
   /\ DateRow.confidence row = lit "medium")
  \/ (DateRow.source row = lit "kr_catalog"
      /\ DateRow.confidence row
         = if has_both row then lit "medium" else lit "low")
  \/ (DateRow.source row = lit "filename_dynasty"
      /\ DateRow.confidence row = lit "low"
      /\ is_not_none (DateRow.date_not_before row)
         = is_not_none (DateRow.date_not_after row)).

Lemma cbdb_tier_tagged (book : Book.t)
    (cbdb_people : gmap str (list CBDBPerson.t)) (row : DateRow.t) :
  cbdb_tier book cbdb_people = Some row ->
  DateRow.work_id row = Book.work_id book /\ well_tagged row.
Proof.
  unfold cbdb_tier, well_tagged.
  destruct (normalize_author_name _) as [name|]; [|done].
  destruct (choose_cbdb_person _) as [person|]; [|done].
  destruct (cbdb_date_range person) as [[[nb|] [na|]] date_type]; try done.
  intros [= <-]. split; [done|]. by left.
Qed.

Lemma catalog_tier_tagged (book : Book.t)
    (kr_evidence : gmap str (list PersonEvidence.t)) (row : DateRow.t) :
  catalog_tier book kr_evidence = Some row ->
  DateRow.work_id row = Book.work_id book /\ well_tagged row.
Proof.
  unfold catalog_tier, well_tagged, has_both.
  destruct (default [] (kr_evidence !! Book.work_id book)) as [|item rest];
    [done|].
  destruct (choose_best_evidence (item :: rest)) as [best|]; [|done].
  intros [= <-]. split; [done|]. right; left. simpl. split; [done|].
  by destruct (PersonEvidence.date_not_before best),
              (PersonEvidence.date_not_after best).
Qed.

Lemma dynasty_tier_tagged (book : Book.t) (ranges : gmap str (Z * Z)) :
  DateRow.work_id (dynasty_tier book ranges) = Book.work_id book
  /\ well_tagged (dynasty_tier book ranges).
Proof.
  unfold dynasty_tier, well_tagged, resolve_dynasty_range.
  repeat case_match; simplify_eq; split; try done; right; right; done.
Qed.

(** X11.  [write_publication_date_ranges] writes one row for every book, in the
    order of the books, with the work identifier of the book.  A row of the
    biographical tier has both bounds and confidence medium; a row of the
    catalog tier has confidence medium when it has both bounds and low
    otherwise; a row of the dynasty fallback has both bounds or none, and
    confidence low.  So a row with a blank date has confidence low. *)
Theorem write_publication_date_ranges_rows (books : list Book.t)
    (ranges : gmap str (Z * Z))
    (kr_evidence : gmap str (list PersonEvidence.t))
    (cbdb_people : gmap str (list CBDBPerson.t)) :
  let rows :=
    write_publication_date_ranges books ranges kr_evidence cbdb_people in
  map DateRow.work_id rows = map Book.work_id books
  /\ Forall well_tagged rows
  /\ Forall (fun row =>
               has_both row = false -> DateRow.confidence row = lit "low")
       rows.
Proof.
  assert (Hrow : forall book,
             DateRow.work_id (date_row book ranges kr_evidence cbdb_people)
             = Book.work_id book
             /\ well_tagged (date_row book ranges kr_evidence cbdb_people)).
  { intros book. unfold date_row.
    destruct (cbdb_tier book cbdb_people) eqn:E1;
      [by apply (cbdb_tier_tagged book cbdb_people)|].
    destruct (catalog_tier book kr_evidence) eqn:E2;
      [by apply (catalog_tier_tagged book kr_evidence)|].
    apply dynasty_tier_tagged. }
  simpl. unfold write_publication_date_ranges.
  split; [|split].
  - rewrite map_map. apply map_ext. intros book. apply Hrow.
  - apply Forall_map, Forall_forall. intros book _. apply Hrow.
  - apply Forall_map, Forall_forall. intros book _.
    destruct (Hrow book) as [_ [(_ & Hb & _)|[(_ & Hc)|(_ & Hc & _)]]];
      intros Hnot; [congruence| |done].
    by rewrite Hc, Hnot.
Qed.

Lemma write_publication_date_ranges_rows_witness :
  let rows :=
    write_publication_date_ranges [book_wang; book_anon]
      DEFAULT_DYNASTY_RANGES {[ lit "KR1a0001" := [ev_one_dedicatee] ]}
      {[ lit "王弼" := [person_wang; person_wang] ]} in
  map (fun row => (DateRow.source row, DateRow.confidence row)) rows
  = [ (lit "kr_catalog", lit "low"); (lit "filename_dynasty", lit "low") ]
  /\ Forall well_tagged rows.
Proof.
  split; [vm_compute; reflexivity|].
  apply (write_publication_date_ranges_rows [book_wang; book_anon]).
Defined.

(** *** The catalog tier in the cascade *)

Lemma filed_evidence_of (book : Book.t)
    (kr_evidence : gmap str (list PersonEvidence.t)) :
  filed kr_evidence -> Forall some_bound (evidence_of book kr_evidence).
Proof.
  intros Hfiled. unfold evidence_of.
  destruct (kr_evidence !! Book.work_id book) as [items|] eqn:E; simpl;
    [|constructor].
  destruct (Hfiled _ _ E) as (_ & _ & Hall).
  eapply Forall_impl; [exact Hall|]. by intros item (_ & Hb & _).
Qed.

Lemma first_of_max_score_elem (evidence : list PersonEvidence.t)
    (best : PersonEvidence.t) :
  first_of_max_score evidence best -> best ∈ evidence.
Proof.
  intros (before & after & -> & _). rewrite elem_of_app. right. left.
Qed.

(** C5.  In the cascade the catalog tier works on the evidence that
    [parse_kr_catalog] has filed, and its turn comes when the biographical
    tier has written nothing.  Then, for a work that has no evidence
    record, or whose chosen record has neither bound, the catalog tier
    abstains and the row of the work is the row of the dynasty fallback,
    with source filename_dynasty and not kr_catalog.  The second case does
    not arise, since every filed record has a bound; so the row has source
    kr_catalog exactly when the work has a record. *)
Theorem catalog_tier_abstains (book : Book.t) (ranges : gmap str (Z * Z))
    (kr_evidence : gmap str (list PersonEvidence.t))
    (cbdb_people : gmap str (list CBDBPerson.t)) :
  filed kr_evidence ->
  cbdb_tier book cbdb_people = None ->
  let evidence := evidence_of book kr_evidence in
  let row := date_row book ranges kr_evidence cbdb_people in
  (evidence = []
   \/ (exists best,
         choose_best_evidence evidence = Some best
         /\ PersonEvidence.date_not_before best = None
         /\ PersonEvidence.date_not_after best = None) ->
   catalog_tier book kr_evidence = None
   /\ row = dynasty_tier book ranges
   /\ DateRow.source row = lit "filename_dynasty"
   /\ DateRow.source row <> lit "kr_catalog")
  /\ (forall best,
        choose_best_evidence evidence = Some best -> some_bound best)
  /\ (DateRow.source row = lit "kr_catalog" <-> evidence <> []).
Proof.
  intros Hfiled Hcbdb evidence row.
  assert (Hbound : forall best,
             choose_best_evidence evidence = Some best -> some_bound best).
  { intros best Hbest.
    pose proof (choose_best_evidence_result evidence) as Hres.
    rewrite Hbest in Hres. apply first_of_max_score_elem in Hres.
    pose proof (filed_evidence_of book kr_evidence Hfiled) as Hall.
    rewrite Forall_forall in Hall. by apply Hall. }
  assert (Hfallback : DateRow.source (dynasty_tier book ranges)
                      = lit "filename_dynasty").
  { unfold dynasty_tier. by destruct (resolve_dynasty_range _ _) as [[? ?] ?]. }
  assert (Hempty : evidence = [] ->
                   catalog_tier book kr_evidence = None
                   /\ row = dynasty_tier book ranges).
  { intros Hnil. unfold row, date_row, catalog_tier. rewrite Hcbdb.
    fold (evidence_of book kr_evidence). fold evidence. by rewrite Hnil. }
  split; [|split; [exact Hbound|]].
  - intros [Hnil|(best & Hbest & Hnb & Hna)].
    + destruct (Hempty Hnil) as [Htier Hrow].
      split; [done|]. split; [done|]. rewrite Hrow, Hfallback.
      split; [done|]. vm_compute. intros [=].
    + apply Hbound in Hbest as [[? H]|[? H]]; congruence.
  - destruct evidence as [|item rest] eqn:Hev.
    + destruct (Hempty eq_refl) as [_ ->]. rewrite Hfallback.
      split; [|done]. vm_compute. intros [=].
    + split; [done|]. intros _. unfold row, date_row, catalog_tier.
      rewrite Hcbdb. fold (evidence_of book kr_evidence). fold evidence.
      rewrite Hev.
      by destruct (choose_best_evidence_nonempty item rest) as (best & -> & _).
Qed.

Lemma catalog_tier_abstains_witness :
  filed (demo_catalog (Some [catalog_lines]))
  /\ cbdb_tier book_anon ∅ = None
  /\ date_row book_anon DEFAULT_DYNASTY_RANGES
       (demo_catalog (Some [catalog_lines])) ∅
     = dynasty_tier book_anon DEFAULT_DYNASTY_RANGES
  /\ DateRow.source
       (date_row book_wang DEFAULT_DYNASTY_RANGES
          (demo_catalog (Some [catalog_lines])) ∅)
     = lit "kr_catalog".
Proof.
  assert (Hfiled : filed (demo_catalog (Some [catalog_lines])))
    by apply parse_kr_catalog_is_filed.
  split; [exact Hfiled|]. split; [vm_compute; reflexivity|]. split.
  - destruct (catalog_tier_abstains book_anon DEFAULT_DYNASTY_RANGES
                (demo_catalog (Some [catalog_lines])) ∅ Hfiled eq_refl)
      as (Habstains & _).
    apply Habstains. left. vm_compute. reflexivity.
  - assert (Hwang : cbdb_tier book_wang ∅ = None)
      by (vm_compute; reflexivity).
    destruct (catalog_tier_abstains book_wang DEFAULT_DYNASTY_RANGES
                (demo_catalog (Some [catalog_lines])) ∅ Hfiled Hwang)
      as (_ & _ & Hiff).
    apply Hiff. vm_compute. discriminate.
Defined.

End ScanBooksMore.

(** ** Further properties of the query command *)

Module CliMore.
Import Py PyFacts PyMore Cli CliFacts.

(** *** The data directory *)

(** X12.  The directory [resolve_data_dir] returns has a books.csv.  A
    directory given on the command line is the only one tried; without one,
    [data] under the working directory is taken when it has a books.csv,
    whatever is next to the package. *)
Theorem resolve_data_dir_found (env : Env.t) (explicit : option str) :
  (forall data_dir,
     resolve_data_dir env explicit = Ok data_dir ->
     has_books_csv env data_dir = true)
  /\ (forall c e,
        explicit = Some (c :: e) ->
        has_books_csv env [c :: e] = false ->
        exists msg,
          resolve_data_dir env explicit = Raise (FileNotFoundError msg))
  /\ (forall c e data_dir,
        explicit = Some (c :: e) ->
        resolve_data_dir env explicit = Ok data_dir -> data_dir = [c :: e])
  /\ (explicit = None \/ explicit = Some [] ->
      has_books_csv env (path_join (Env.cwd env) (lit "data")) = true ->
      resolve_data_dir env explicit
      = Ok (path_join (Env.cwd env) (lit "data"))).
Proof.
  unfold resolve_data_dir. repeat split.
  - intros data_dir. destruct explicit as [[|c e]|].
    2: { destruct (has_books_csv env [c :: e]) eqn:E; simpl; [|done].
         by intros [= <-]. }
    all: destruct (has_books_csv env (path_join (Env.cwd env) (lit "data")))
           eqn:E1; [by intros [= <-]|];
      destruct (has_books_csv env
                  (path_join (Env.package_root env) (lit "data"))) eqn:E2;
      [by intros [= <-]|done].
  - intros c e -> ->. simpl. eauto.
  - intros c e data_dir ->.
    destruct (has_books_csv env [c :: e]); simpl; [|done]. by intros [= <-].
  - intros [-> | ->] ->; done.
Qed.

Lemma resolve_data_dir_found_witness :
  resolve_data_dir three_works None = Ok [lit "data"]
  /\ has_books_csv three_works [lit "data"] = true
  /\ exists msg,
       resolve_data_dir three_works (Some (lit "elsewhere"))
       = Raise (FileNotFoundError msg).
Proof.
  destruct (resolve_data_dir_found three_works None) as (Hfound & _ & _ & Hcwd).
  assert (H : resolve_data_dir three_works None = Ok [lit "data"]).
  { apply Hcwd; [by left|]. vm_compute. reflexivity. }
  split; [exact H|]. split; [exact (Hfound _ H)|].
  destruct (resolve_data_dir_found three_works (Some (lit "elsewhere")))
    as (_ & Hraise & _).
  eapply (Hraise _ _ eq_refl). vm_compute. reflexivity.
Defined.

(** *** The date table *)

Section DateTable.
Variable py_int : str -> option Z.

Lemma load_date_ranges_loop_no_column (rows : list Row)
    (ranges : gmap str (Z * Z)) :
  Forall (fun row => row !! lit "date_not_before" = None) rows ->
  load_date_ranges_loop py_int rows ranges
  = if forallb (fun row => is_empty (get_stripped row (lit "work_id"))) rows
    then Ok ranges
    else Raise (KeyError (lit "date_not_before")).
Proof.
  induction 1 as [|row rows Hrow _ IH]; cbn [load_date_ranges_loop forallb];
    [done|].
  destruct (is_empty (get_stripped row (lit "work_id"))); [exact IH|].
  unfold try_candidate, int_of_field. by rewrite Hrow.
Qed.

(** X13.  A table without the column date_not_before is not read as a table
    without dates: the first row with a work identifier raises [KeyError]. Only
    when no row has a work identifier is the result the empty dict. *)
Theorem load_date_ranges_key_error (env : Env.t) (path : Path) :
  Env.file_exists env path = true ->
  Forall (fun row => row !! lit "date_not_before" = None)
    (Env.csv_rows env path) ->
  load_date_ranges py_int env path
  = if forallb (fun row => is_empty (get_stripped row (lit "work_id")))
         (Env.csv_rows env path)
    then Ok ∅
    else Raise (KeyError (lit "date_not_before")).
Proof.
  intros Hex Hrows. unfold load_date_ranges, open_csv. rewrite Hex.
  by apply load_date_ranges_loop_no_column.
Qed.

Lemma least_pair_unique (l : list (Z * Z)) (p q : Z * Z) :
  least_pair l p -> least_pair l q -> p = q.
Proof.
  intros [Hp Hlp] [Hq Hlq]. rewrite Forall_forall in Hlp, Hlq.
  specialize (Hlp q Hq). specialize (Hlq p Hp). unfold lex_lt in *.
  destruct p, q; simpl in *. f_equal; lia.
Qed.

Lemma fold_keep_least_Permutation (l l' : list (Z * Z)) :
  l ≡ₚ l' ->
  fold_left keep_least l None = fold_left keep_least l' None.
Proof.
  intros Hperm.
  pose proof (fold_keep_least_none l) as H.
  pose proof (fold_keep_least_none l') as H'.
  destruct (fold_left keep_least l None) as [p|],
           (fold_left keep_least l' None) as [q|].
  - f_equal. apply (least_pair_unique l'); [|done].
    destruct H as [Hin Hall]. split; by rewrite <- Hperm.
  - subst l'. destruct H as [Hin _]. rewrite Hperm in Hin.
    by apply elem_of_nil in Hin.
  - subst l. destruct H' as [Hin _]. rewrite <- Hperm in Hin.
    by apply elem_of_nil in Hin.
  - done.
Qed.

(** X14.  For a table with the two date columns, the dict of date ranges
    does not depend on the order of the rows. *)
Theorem load_date_ranges_order (env env' : Env.t) (path path' : Path) :
  Env.file_exists env path = true ->
  Env.file_exists env' path' = true ->
  Forall has_date_columns (Env.csv_rows env path) ->
  Env.csv_rows env path ≡ₚ Env.csv_rows env' path' ->
  load_date_ranges py_int env path = load_date_ranges py_int env' path'.
Proof.
  intros Hex Hex' Hrows Hperm. unfold load_date_ranges, open_csv.
  rewrite Hex, Hex'.
  assert (Hrows' : Forall has_date_columns (Env.csv_rows env' path'))
    by by rewrite <- Hperm.
  destruct (load_date_ranges_loop_fold py_int _ ∅ Hrows)
    as (ranges & -> & Hfold).
  destruct (load_date_ranges_loop_fold py_int _ ∅ Hrows')
    as (ranges' & -> & Hfold').
  f_equal. apply map_eq. intros work_id.
  rewrite Hfold, Hfold', lookup_empty.
  apply fold_keep_least_Permutation. unfold pairs_of. by rewrite Hperm.
Qed.
End DateTable.

Lemma csv_rows_dates (books dates : list Row) (texts : list (str * list str)) :
  Env.csv_rows (corpus books dates texts) dates_csv = dates.
Proof. reflexivity. Qed.

Definition no_before_column : Env.t :=
  corpus []
    [ row_of [ (lit "work_id", lit ""); (lit "date_not_after", lit "5") ];
      row_of [ (lit "work_id", lit "KR9z0001");
               (lit "date_not_after", lit "5") ] ]
    [].

Lemma load_date_ranges_key_error_witness :
  load_date_ranges int_ascii no_before_column dates_csv
  = Raise (KeyError (lit "date_not_before")).
Proof.
  rewrite (load_date_ranges_key_error int_ascii no_before_column dates_csv
             eq_refl).
  - vm_compute. reflexivity.
  - repeat (apply Forall_cons; split); [| |constructor];
      vm_compute; reflexivity.
Defined.

Definition dates_reordered : Env.t :=
  corpus []
    [ date_row_of "KR9z0002" "10" "x";
      date_row_of "KR9z0001" "-200" "-180";
      date_row_of "KR9z0001" "300" "400";
      <[lit "date_not_after" := None]> (date_row_of "KR9z0002" "10" "");
      date_row_of "  " "1" "2";
      date_row_of "KR9z0001" "-200" "-150";
      date_row_of "KR9z0002" "" "20" ]
    [].

Lemma load_date_ranges_order_witness :
  load_date_ranges int_ascii dates_with_gaps dates_csv
  = load_date_ranges int_ascii dates_reordered dates_csv.
Proof.
  apply load_date_ranges_order; try reflexivity.
  - repeat (apply Forall_cons; split); try (by constructor);
      split; eexists; vm_compute; reflexivity.
  - change (Env.csv_rows dates_with_gaps dates_csv ≡ₚ
            Env.csv_rows dates_reordered dates_csv).
    unfold dates_with_gaps, dates_reordered. rewrite !csv_rows_dates.
    apply (Permutation_cons_app [_; _] [_; _; _; _]).
    apply (Permutation_cons_app [_; _; _; _] [_]).
    apply (Permutation_cons_app [_] [_; _; _]).
    apply (Permutation_cons_app [_; _] [_]).
    apply (Permutation_cons_app [_; _] []).
    done.
Defined.

(** *** The listing of the books *)

(** The rows of books.csv that give a book: those whose path is not blank. *)
Definition listed (row : Row) : bool :=
  negb (is_empty (get_stripped row (lit "path"))).

(** What [load_books] makes of one row. *)
Definition book_of_row (data_dir : Path) (date_ranges : gmap str (Z * Z))
    (row : Row) (book : Book.t) : Prop :=
  Book.work_id book = get_stripped row (lit "work_id")
  /\ Book.title book = get_stripped row (lit "title")
  /\ Book.dynasty_label book = get_stripped row (lit "dynasty_label")
  /\ Book.author_label book = get_stripped row (lit "author_label")
  /\ Book.rel_path book = get_stripped row (lit "path")
  /\ Book.rel_path book <> []
  /\ Book.path book
     = (if is_absolute (Book.rel_path book) then [Book.rel_path book]
        else data_dir ++ [Book.rel_path book])
  /\ match date_ranges !! Book.work_id book with
     | Some (date_not_before, date_not_after) =>
       Book.date_not_before book = Some date_not_before
       /\ Book.date_not_after book = Some date_not_after
     | None =>
       Book.date_not_before book = None /\ Book.date_not_after book = None
     end.

Lemma read_books_rows (data_dir : Path) (date_ranges : gmap str (Z * Z))
    (rows : list Row) :
  Forall2 (book_of_row data_dir date_ranges) (List.filter listed rows)
    (read_books data_dir date_ranges rows).
Proof.
  induction rows as [|row rows IH]; cbn [read_books List.filter];
    [constructor|].
  unfold listed at 1.
  destruct (is_empty (get_stripped row (lit "path"))) eqn:Hpath; simpl;
    [exact IH|].
  constructor; [|exact IH]. unfold book_of_row. simpl.
  repeat split; try done.
  - intros Hnil. by rewrite Hnil in Hpath.
  - by destruct (date_ranges !! get_stripped row (lit "work_id")) as [[]|].
Qed.

(** X15.  [load_books] returns one book for each row of books.csv whose path is
    not blank, and no other.  The fields of a book are those of its row,
    without surrounding white space; its file is the path of the row under
    the data directory when that path is relative, and the path of the row
    alone when it is absolute; its two bounds are those [date_ranges] has for
    its work identifier, and both are absent when it has none. *)
Theorem load_books_rows (env : Env.t) (data_dir : Path)
    (date_ranges : gmap str (Z * Z)) :
  Env.file_exists env (path_join data_dir (lit "books.csv")) = true ->
  exists books unsorted,
    load_books env data_dir date_ranges = Ok books
    /\ Permutation books unsorted
    /\ Forall2 (book_of_row data_dir date_ranges)
         (List.filter listed
            (Env.csv_rows env (path_join data_dir (lit "books.csv"))))
         unsorted
    /\ Forall (fun book =>
                 stripped (Book.work_id book) /\ stripped (Book.title book)
                 /\ stripped (Book.dynasty_label book)
                 /\ stripped (Book.author_label book)
                 /\ stripped (Book.rel_path book)) books.
Proof.
  intros Hex. unfold load_books, open_csv. rewrite Hex.
  set (rows := Env.csv_rows env _).
  exists (sort_by key_ltb book_sort_key (read_books data_dir date_ranges rows)),
         (read_books data_dir date_ranges rows).
  split; [done|]. split; [apply sort_by_Permutation|].
  split; [apply read_books_rows|].
  rewrite (sort_by_Permutation key_ltb book_sort_key).
  pose proof (read_books_rows data_dir date_ranges rows) as H.
  induction H as [|row book rs bs Hb _ IH]; constructor; [|exact IH].
  destruct Hb as (-> & -> & -> & -> & -> & _).
  unfold get_stripped. repeat split; apply stripped_strip.
Qed.

(** X16.  Books with the same sort key, that is with the same dates, work
    identifier and relative path, keep the order of their rows in books.csv. *)
Theorem load_books_stable (env : Env.t) (data_dir : Path)
    (date_ranges : gmap str (Z * Z)) (books : list Book.t)
    (key : Z * Z * str * str) :
  load_books env data_dir date_ranges = Ok books ->
  List.filter (fun book => bool_decide (book_sort_key book = key)) books
  = List.filter (fun book => bool_decide (book_sort_key book = key))
      (read_books data_dir date_ranges
         (Env.csv_rows env (path_join data_dir (lit "books.csv")))).
Proof.
  unfold load_books, open_csv.
  destruct (Env.file_exists env _); [|done]. intros [= <-].
  apply sort_by_stable; [exact key_ltb_irrefl|].
  intros a b Ha Hb. apply bool_decide_eq_true in Ha, Hb. congruence.
Qed.

Definition listed_twice : Env.t :=
  corpus
    [ book_row "KR9z0002" "乙" "" "" "b.txt";
      book_row "KR9z0001" "甲 second" "" "" "a.txt";
      book_row "KR9z0001" "" "" "" "   ";
      book_row "KR9z0001" "甲 first" "" "" " a.txt ";
      book_row "KR9z0004" "丁" "" "" "/mnt/d.txt" ]
    [] [].

Lemma load_books_rows_witness :
  exists books,
    load_books listed_twice [lit "data"] ∅ = Ok books
    /\ length books = 4%nat
    /\ Forall (fun book => stripped (Book.rel_path book)) books
    /\ map Book.path
         (List.filter (fun book => is_absolute (Book.rel_path book)) books)
       = [[lit "/mnt/d.txt"]].
Proof.
  destruct (load_books_rows listed_twice [lit "data"] ∅ eq_refl)
    as (books & unsorted & Hload & Hperm & Hrows & Hfields).
  exists books. split; [exact Hload|]. split; [|split].
  - rewrite (Permutation_length Hperm).
    rewrite <- (Forall2_length _ _ _ Hrows). vm_compute. reflexivity.
  - eapply Forall_impl; [exact Hfields|]. simpl. tauto.
  - vm_compute in Hload. injection Hload as <-. vm_compute. reflexivity.
Defined.

Lemma load_books_stable_witness :
  exists books,
    load_books listed_twice [lit "data"] ∅ = Ok books
    /\ map Book.title
         (List.filter
            (fun book =>
               bool_decide (book_sort_key book
                            = (10 ^ 9, 10 ^ 9, lit "KR9z0001", lit "a.txt")))
            books)
       = [lit "甲 second"; lit "甲 first"].
Proof.
  destruct (load_books listed_twice [lit "data"] ∅) as [books|e] eqn:Hload;
    [|by vm_compute in Hload].
  exists books. split; [reflexivity|].
  rewrite (load_books_stable listed_twice [lit "data"] ∅ books _ Hload).
  vm_compute. reflexivity.
Defined.

(** *** The variants of the term *)

Section Variants.
Variable s2t t2s : str -> str.

Lemma str_ltb_connex (a b : str) :
  a <> b -> str_ltb b a = false -> str_ltb a b = true.
Proof.
  intros Hne Hba. destruct (str_ltb a b) eqn:Hab; [done|].
  destruct Hne. by apply str_ltb_total.
Qed.

Lemma increasing_of_sorted (l : list str) :
  NoDup l -> StronglySorted (not_after str_ltb id) l ->
  StronglySorted str_lt l.
Proof.
  intros Hnd Hs. induction Hs as [|a l Hs IH Ha]; constructor.
  - apply IH. by apply NoDup_cons_1_2 in Hnd.
  - apply NoDup_cons in Hnd as [Hnotin _].
    rewrite Forall_forall in Ha. apply Forall_forall. intros b Hb.
    apply str_ltb_connex; [|apply Ha, Hb]. intros ->. by apply Hnotin.
Qed.

(** X17.  [term_variants] returns the strings that are not empty among the
    stripped term and the two conversions of the term as given, in strictly
    increasing order of their code points: no variant is empty, none occurs
    twice and there are at most three. *)
Theorem term_variants_members (term : str) :
  let variants := term_variants s2t t2s term in
  (forall v,
     v ∈ variants <->
     v <> [] /\ (v = strip term \/ v = s2t term \/ v = t2s term))
  /\ StronglySorted str_lt variants
  /\ NoDup variants
  /\ (length variants <= 3)%nat.
Proof.
  unfold term_variants. cbv zeta.
  set (all := ({[strip term]} ∪ {[s2t term]} ∪ {[t2s term]} : gset str)).
  match goal with
  | |- context [sort_by str_ltb id (elements ?k)] => set (kept := k)
  end.
  assert (Hperm := sort_by_Permutation str_ltb id (elements kept)).
  assert (Hnd : NoDup (sort_by str_ltb id (elements kept))).
  { rewrite Hperm. apply NoDup_elements. }
  split; [|split; [|split]].
  - intros v. rewrite Hperm, elem_of_elements. unfold kept.
    rewrite elem_of_filter. unfold all. set_solver.
  - apply increasing_of_sorted; [done|].
    apply sort_by_sorted.
    + exact str_ltb_irrefl.
    + exact str_ltb_trans.
    + exact str_ltb_total.
  - done.
  - rewrite (Permutation_length Hperm).
    change (length (elements kept)) with (size kept).
    transitivity (size all).
    + apply subseteq_size. unfold kept. intros v Hv.
      by apply elem_of_filter in Hv as [_ Hv].
    + unfold all.
      pose proof (size_union_alt ({[strip term]} ∪ {[s2t term]} : gset str)
                    {[t2s term]}) as H1.
      pose proof (size_union_alt ({[strip term]} : gset str) {[s2t term]})
        as H2.
      pose proof (subseteq_size ({[t2s term]} ∖ ({[strip term]} ∪ {[s2t term]}) : gset str)
                    {[t2s term]} ltac:(set_solver)) as H3.
      pose proof (subseteq_size ({[s2t term]} ∖ {[strip term]} : gset str)
                    {[s2t term]} ltac:(set_solver)) as H4.
      rewrite !size_singleton in *. lia.
Qed.
End Variants.

(** *** Runs of [main] that return no exit code *)

Section Stops.
Variable py_int : str -> option Z.
Variable s2t t2s : str -> str.

(** X18.  [main] stops in [parser.error] exactly when the stripped term is
    empty or the limit is below 1, whatever the data; the term is checked
    first. *)
Theorem main_parser_error (env : Env.t) (args : Args.t) :
  let out := main py_int s2t t2s env args in
  ((exists message, out = ParserError message) <-> ~ valid_args args)
  /\ (strip (Args.term args) = [] ->
      out = ParserError (lit "term must be non-empty"))
  /\ (strip (Args.term args) <> [] -> Args.limit args < 1 ->
      out = ParserError (lit "limit must be >= 1")).
Proof.
  unfold main, valid_args. simpl.
  destruct (strip (Args.term args)) as [|ch term] eqn:Hterm; simpl.
  { split; [|done]. split; [by intros _ [? _]|eauto]. }
  destruct (Z.ltb_spec (Args.limit args) 1) as [Hlim|Hlim].
  { split; [|done]. split; [intros _ [_ ?]; lia|eauto]. }
  split; [|split; [done|intros _ ?; lia]].
  split; [|intros H; destruct H; split; [done|lia]].
  intros [message Hout]. exfalso. revert Hout.
  destruct (resolve_data_dir env _) as [data_dir|[]]; try done.
  destruct (load_date_ranges py_int env _); try done.
  destruct (load_books env data_dir _); try done.
  by destruct (scan_loop env _ _ _ _ []) as [[|m results]|e].
Qed.

(** X19.  When the data directory is found but has no
    publication_date_range.csv, [main] does not return: the [FileNotFoundError]
    of the date table is not caught, and nothing is printed. *)
Theorem main_missing_date_table (env : Env.t) (args : Args.t)
    (data_dir : Path) :
  valid_args args ->
  resolve_data_dir env (Args.data_dir args) = Ok data_dir ->
  Env.file_exists env (path_join data_dir (lit "publication_date_range.csv"))
  = false ->
  exists msg,
    main py_int s2t t2s env args = Uncaught (FileNotFoundError msg).
Proof.
  intros [Hterm Hlimit] Hdir Hfile. unfold main.
  destruct (strip (Args.term args)); [done|]. simpl.
  destruct (Z.ltb_spec (Args.limit args) 1); [lia|].
  rewrite Hdir. unfold load_date_ranges, open_csv. rewrite Hfile. eauto.
Qed.
End Stops.

Definition books_only : Env.t :=
  {| Env.file_exists := fun p => bool_decide (p = books_csv);
     Env.csv_rows := fun _ => [book_row "KR9z0001" "甲" "" "" "a.txt"];
     Env.text_error := fun _ => None;
     Env.text_lines := fun _ => [];
     Env.cwd := [];
     Env.package_root := [lit "src"] |}.

Lemma main_missing_date_table_witness :
  exists msg,
    main int_ascii id id books_only (query_heaven_earth None)
    = Uncaught (FileNotFoundError msg).
Proof.
  apply (main_missing_date_table int_ascii id id books_only
           (query_heaven_earth None) [lit "data"]).
  - split; vm_compute; [discriminate|discriminate].
  - vm_compute. reflexivity.
  - vm_compute. reflexivity.
Defined.

Lemma main_parser_error_witness :
  main int_ascii id id three_works
    {| Args.term := lit "  "; Args.limit := 0; Args.context := 30;
       Args.data_dir := None; Args.dedup := true |}
  = ParserError (lit "term must be non-empty").
Proof.
  apply (proj1 (proj2 (main_parser_error int_ascii id id three_works _))).
  vm_compute. reflexivity.
Defined.

(** *** The matches of one book *)

Lemma yield_lines_below (book : Book.t) (variants : list str) (line_no : Z)
    (lines : list str) (n : Z) :
  n <= 1 ->
  yield_lines book variants line_no lines (Some n)
  = yield_lines book variants line_no lines (Some 1).
Proof.
  intros Hn. revert line_no; induction lines as [|line lines IH];
    intros line_no; cbn [yield_lines]; [done|].
  destruct (iter_line_matches (rstrip_nl line) variants) as [|[offset term] found];
    cbn [yield_line].
  - simpl. by rewrite IH.
  - destruct (Z.leb_spec (n - 1) 0); [|lia]. done.
Qed.

Lemma iter_matches_take (env : Env.t) (book : Book.t) (variants : list str)
    (n : Z) :
  iter_matches env book variants (Some n)
  = take (Z.to_nat (Z.max 1 n)) (iter_matches env book variants None).
Proof.
  destruct (Z.le_gt_cases 1 n) as [Hn|Hn].
  - rewrite Z.max_r by lia. by apply iter_matches_some.
  - rewrite Z.max_l by lia.
    change (iter_matches env book variants None)
      with (all_matches env variants book).
    rewrite <- (iter_matches_some env book variants 1) by lia.
    unfold iter_matches. destruct (negb _); [done|].
    destruct (open_text env _); [|done].
    apply yield_lines_below. lia.
Qed.

(** X20.  With a cap [n], [iter_matches] yields the first [n] of the matches it
    yields without a cap; a cap below 1 acts as 1, since the count is tested
    only after a match has been yielded. *)
Theorem iter_matches_cap (env : Env.t) (book : Book.t) (variants : list str)
    (n : Z) :
  iter_matches env book variants (Some n)
  = take (Z.to_nat (Z.max 1 n)) (iter_matches env book variants None).
Proof. exact (iter_matches_take env book variants n). Qed.

Lemma term_matches_occurs (line term : str) (i : nat) (t : str) :
  (i, t) ∈ term_matches line term ->
  t = term /\ term <> [] /\ occurs_at line term i.
Proof.
  destruct term as [|c r]; [by intros ?%elem_of_nil|].
  unfold term_matches.
  destruct (find_loop_scan line c r 0) as [Hscan Hall].
  apply scan_occurs in Hscan. rewrite Forall_forall in Hscan.
  rewrite Forall_forall in Hall.
  intros Hin. specialize (Hall _ Hin). simpl in Hall. subst t.
  split; [done|]. split; [done|]. apply Hscan.
  apply list_elem_of_fmap. by exists (i, c :: r).
Qed.

Lemma iter_line_matches_occurs (line : str) (variants : list str) (i : nat)
    (t : str) :
  (i, t) ∈ iter_line_matches line variants ->
  t ∈ variants /\ t <> [] /\ occurs_at line t i.
Proof.
  unfold iter_line_matches.
  rewrite (sort_by_Permutation match_ltb id), list_elem_of_In, in_flat_map.
  intros (term & Hterm & Hin).
  apply list_elem_of_In in Hterm, Hin.
  apply term_matches_occurs in Hin as (-> & Hne & Hocc). done.
Qed.

(** A match points at an occurrence: line [line_no] of the file of [book],
    counted from 1, is [line] followed by line feeds only, and [term], a
    variant that is not empty, stands in [line] at [offset]. *)
Definition points_at (env : Env.t) (book : Book.t) (variants : list str)
    (m : Match.t) : Prop :=
  Match.book m = book
  /\ 1 <= Match.line_no m
  /\ 0 <= Match.offset m
  /\ Match.term m ∈ variants
  /\ Match.term m <> []
  /\ occurs_at (Match.line m) (Match.term m) (Z.to_nat (Match.offset m))
  /\ exists raw,
       Env.text_lines env (Book.path book) !! Z.to_nat (Match.line_no m - 1)
       = Some raw
       /\ Match.line m = rstrip_nl raw.

Lemma yield_lines_points (book : Book.t) (variants : list str) (line_no : Z)
    (lines : list str) (m : Match.t) :
  m ∈ yield_lines book variants line_no lines None ->
  Match.book m = book
  /\ Match.term m ∈ variants
  /\ Match.term m <> []
  /\ 0 <= Match.offset m
  /\ occurs_at (Match.line m) (Match.term m) (Z.to_nat (Match.offset m))
  /\ exists k raw,
       lines !! k = Some raw /\ Match.line_no m = line_no + Z.of_nat k
       /\ Match.line m = rstrip_nl raw.
Proof.
  revert line_no; induction lines as [|line lines IH]; intros line_no;
    cbn [yield_lines]; [by intros ?%elem_of_nil|].
  rewrite yield_line_none, elem_of_app. intros [Hm|Hm].
  - unfold matches_of in Hm. apply list_elem_of_fmap in Hm as ([i t] & -> & Hin).
    apply iter_line_matches_occurs in Hin as (Hv & Hne & Hocc). simpl.
    rewrite Nat2Z.id. repeat split; try done; try lia.
    exists 0%nat, line. repeat split; try done. simpl. lia.
  - apply IH in Hm as (Hb & Hv & Hne & Hoff & Hocc & k & raw & Hk & Hno & Hl).
    repeat split; try done.
    exists (S k), raw. repeat split; try done. lia.
Qed.

Lemma iter_matches_points (env : Env.t) (book : Book.t)
    (variants : list str) (max_matches : option Z) (m : Match.t) :
  m ∈ iter_matches env book variants max_matches ->
  Env.file_exists env (Book.path book) = true
  /\ points_at env book variants m.
Proof.
  intros Hm.
  assert (Hall : m ∈ iter_matches env book variants None).
  { destruct max_matches as [n|]; [|done].
    rewrite iter_matches_take in Hm.
    apply elem_of_take in Hm as (i & Hi & _).
    by eapply list_elem_of_lookup_2. }
  clear Hm. unfold iter_matches, open_text in Hall.
  destruct (Env.file_exists env (Book.path book));
    [|by apply elem_of_nil in Hall].
  split; [done|]. simpl in Hall.
  destruct (Env.text_error env (Book.path book));
    [by apply elem_of_nil in Hall|].
  apply yield_lines_points in Hall
    as (Hb & Hv & Hne & Hoff & Hocc & k & raw & Hk & Hno & Hl).
  unfold points_at. repeat split; try done; try lia.
  exists raw. split; [|done]. rewrite Hno.
  by replace (Z.to_nat (1 + Z.of_nat k - 1)) with k by lia.
Qed.

(** X21.  Every match [iter_matches] yields, with or without a cap, points at
    an occurrence of a variant in the file of the book; a book whose file
    does not exist yields none. *)
Theorem iter_matches_sound (env : Env.t) (book : Book.t)
    (variants : list str) (max_matches : option Z) (m : Match.t) :
  m ∈ iter_matches env book variants max_matches ->
  Env.file_exists env (Book.path book) = true
  /\ points_at env book variants m.
Proof. exact (iter_matches_points env book variants max_matches m). Qed.

Definition book_jia : Book.t :=
  {| Book.work_id := lit "KR9z0001"; Book.title := lit "甲";
     Book.dynasty_label := lit "秦"; Book.author_label := [];
     Book.rel_path := lit "a.txt"; Book.path := [lit "data"; lit "a.txt"];
     Book.date_not_before := Some (-200); Book.date_not_after := Some (-150) |}.

Definition match_jia : Match.t :=
  {| Match.book := book_jia; Match.line_no := 2; Match.offset := 2;
     Match.term := lit "洪荒"; Match.line := lit "宇宙洪荒" |}.

Lemma iter_matches_sound_witness :
  iter_matches three_works book_jia [lit "洪荒"] (Some 0) = [match_jia]
  /\ points_at three_works book_jia [lit "洪荒"] match_jia.
Proof.
  assert (H : iter_matches three_works book_jia [lit "洪荒"] (Some 0)
              = [match_jia]) by (vm_compute; reflexivity).
  split; [exact H|].
  apply (iter_matches_sound three_works book_jia [lit "洪荒"] (Some 0)).
  rewrite H. left.
Defined.

Lemma StronglySorted_app {A} (R : A -> A -> Prop) (l1 l2 : list A) :
  StronglySorted R (l1 ++ l2) <->
  (forall x1 x2, x1 ∈ l1 -> x2 ∈ l2 -> R x1 x2)
  /\ StronglySorted R l1 /\ StronglySorted R l2.
Proof.
  induction l1 as [|x l1 IH]; simpl.
  - split; [|by intros (_ & _ & ?)]. intros Hs.
    split; [by intros ? ? ?%elem_of_nil|]. split; [constructor|done].
  - split.
    + intros Hs. apply StronglySorted_inv in Hs as [Hs Hx].
      apply IH in Hs as (Hc & H1 & H2). apply Forall_app in Hx as [Hx1 Hx2].
      split; [|split; [by constructor|done]].
      intros x1 x2 [->|H]%elem_of_cons Hx2'; [|by apply Hc].
      rewrite Forall_forall in Hx2. by apply Hx2.
    + intros (Hc & Hs1 & Hs2). apply StronglySorted_inv in Hs1 as [Hs1 Hx].
      constructor.
      * apply IH. split; [|done]. intros x1 x2 H1 H2. apply Hc; [by right|done].
      * apply Forall_app. split; [done|]. apply Forall_forall.
        intros x2 H2. apply Hc; [by left|done].
Qed.

Lemma StronglySorted_fmap {A B} (f : A -> B) (R1 : A -> A -> Prop)
    (R2 : B -> B -> Prop) (l : list A) :
  (forall x y, R1 x y -> R2 (f x) (f y)) ->
  StronglySorted R1 l -> StronglySorted R2 (map f l).
Proof.
  intros Hf. induction 1 as [|x l Hs IH Hx]; simpl; constructor; [done|].
  apply Forall_map. eapply Forall_impl; [exact Hx|]. intros y. apply Hf.
Qed.

Lemma StronglySorted_take {A} (R : A -> A -> Prop) (n : nat) (l : list A) :
  StronglySorted R l -> StronglySorted R (take n l).
Proof.
  intros Hs. rewrite <- (take_drop n l) in Hs.
  by apply StronglySorted_app in Hs as (_ & Hs & _).
Qed.

(** [a] stands before [b] in the file: on an earlier line, or on the same
    line at a smaller offset, or at the same place with a smaller term. *)
Definition match_before (a b : Match.t) : Prop :=
  Match.line_no a < Match.line_no b
  \/ (Match.line_no a = Match.line_no b
      /\ (Match.offset a < Match.offset b
          \/ (Match.offset a = Match.offset b
              /\ str_lt (Match.term a) (Match.term b)))).

Lemma matches_of_in_order (book : Book.t) (line_no : Z) (line : str)
    (variants : list str) :
  StronglySorted (fun a b => ~ match_before b a)
    (matches_of book line_no line (iter_line_matches line variants)).
Proof.
  unfold matches_of, iter_line_matches.
  eapply StronglySorted_fmap;
    [|apply (sort_by_sorted match_ltb id);
      [exact match_ltb_irrefl|exact match_ltb_trans|exact match_ltb_total]].
  intros a b Hab. unfold not_after, id in Hab. unfold match_before. simpl.
  intros [?|[_ Hlt]]; [lia|].
  assert (Hm : match_lt b a).
  { unfold match_lt. destruct Hlt as [?|[? ?]]; [left; lia|right].
    split; [lia|done]. }
  apply match_ltb_spec in Hm. congruence.
Qed.

Lemma yield_lines_in_order (book : Book.t) (variants : list str)
    (line_no : Z) (lines : list str) :
  StronglySorted (fun a b => ~ match_before b a)
    (yield_lines book variants line_no lines None).
Proof.
  revert line_no; induction lines as [|line lines IH]; intros line_no;
    cbn [yield_lines]; [constructor|].
  rewrite yield_line_none. apply StronglySorted_app.
  split; [|split; [apply matches_of_in_order|apply IH]].
  intros a b Ha Hb.
  apply list_elem_of_fmap in Ha as (item & -> & _).
  apply yield_lines_points in Hb as (_ & _ & _ & _ & _ & k & raw & _ & Hno & _).
  unfold match_before. simpl. lia.
Qed.

(** X22.  [iter_matches] yields the matches of a book in the order of the file:
    by line, within a line by offset, and at one offset by term. *)
Theorem iter_matches_in_order (env : Env.t) (book : Book.t)
    (variants : list str) (max_matches : option Z) :
  StronglySorted (fun a b => ~ match_before b a)
    (iter_matches env book variants max_matches).
Proof.
  assert (Hall : StronglySorted (fun a b => ~ match_before b a)
                   (iter_matches env book variants None)).
  { unfold iter_matches. destruct (negb _); [constructor|].
    destruct (open_text env _); [|constructor].
    apply yield_lines_in_order. }
  destruct max_matches as [n|]; [|done].
  rewrite iter_matches_take. by apply StronglySorted_take.
Qed.

(** *** The scan *)

(** X23.  When the scan ends without exception, its results are the first
    [limit] of the matches the books contribute, book after book: with
    deduplication the first match of each book, without it all the matches
    of each book; a limit below 1 gives no result.  The scan ends with an
    exception only when [open] raises it for the file of a listed book; when
    every file can be opened, the scan ends without exception. *)
Theorem scan_loop_prefix (env : Env.t) (variants : list str) (limit : Z)
    (dedup : bool) (books : list Book.t) :
  (forall results,
     scan_loop env variants limit dedup books [] = Ok results ->
     results = take (Z.to_nat limit)
                 (flat_map (contribution env variants dedup) books))
  /\ (forall e,
        scan_loop env variants limit dedup books [] = Raise e ->
        exists book, book ∈ books /\ iter_matches_raises env book = Some e)
  /\ (Forall (fun book => iter_matches_raises env book = None) books ->
      exists results,
        scan_loop env variants limit dedup books [] = Ok results).
Proof.
  split; [|split].
  - intros results -> %scan_loop_from. simpl. by rewrite Nat.sub_0_r.
  - apply scan_loop_raises.
  - intros Hopen.
    destruct (scan_loop env variants limit dedup books []) as [results|e]
      eqn:Hscan; [by exists results|].
    apply scan_loop_raises in Hscan as (book & Hbook & Hraise).
    rewrite Forall_forall in Hopen. rewrite (Hopen _ Hbook) in Hraise.
    done.
Qed.

Lemma scan_loop_prefix_witness :
  scan_loop three_works [lit "天地"] 3 false three_books []
  = Ok (take 3 (flat_map (contribution three_works [lit "天地"] false)
                  three_books))
  /\ exists e book,
       scan_loop with_directory [lit "天地"] 3 false three_books []
       = Raise e
       /\ book ∈ three_books
       /\ iter_matches_raises with_directory book = Some e.
Proof.
  destruct (scan_loop_prefix three_works [lit "天地"] 3 false three_books)
    as (Hok & _ & Hends).
  destruct (scan_loop_prefix with_directory [lit "天地"] 3 false three_books)
    as (_ & Hraise & _).
  split.
  - destruct Hends as [results Hscan].
    + repeat (apply Forall_cons; split); [| | |constructor];
        vm_compute; reflexivity.
    + rewrite Hscan. f_equal. by apply Hok.
  - destruct (scan_loop with_directory [lit "天地"] 3 false three_books [])
      as [results|e] eqn:Hscan; [by vm_compute in Hscan|].
    destruct (Hraise e eq_refl) as (book & Hbook & He). by exists e, book.
Defined.

Lemma contribution_elem (env : Env.t) (variants : list str) (dedup : bool)
    (book : Book.t) (m : Match.t) :
  m ∈ contribution env variants dedup book ->
  m ∈ iter_matches env book variants None.
Proof.
  unfold contribution. destruct dedup; [|done].
  intros (i & Hi & _)%elem_of_take. by eapply list_elem_of_lookup_2.
Qed.

Lemma flat_contribution_elem (env : Env.t) (variants : list str)
    (dedup : bool) (books : list Book.t) (m : Match.t) :
  m ∈ flat_map (contribution env variants dedup) books ->
  Match.book m ∈ books
  /\ m ∈ iter_matches env (Match.book m) variants None.
Proof.
  rewrite list_elem_of_In, in_flat_map. intros (book & Hbook & Hm).
  apply list_elem_of_In in Hbook, Hm. apply contribution_elem in Hm.
  pose proof (all_matches_book env variants book) as Hall.
  rewrite Forall_forall in Hall. rewrite (Hall m Hm). done.
Qed.

(** The order of the results by the dates of their books. *)
Definition not_later (m1 m2 : Match.t) : Prop :=
  ~ sorts_before (Match.book m2) (Match.book m1).

Lemma same_book_in_order (book : Book.t) (l : list Match.t) :
  Forall (fun m => Match.book m = book) l -> StronglySorted not_later l.
Proof.
  induction 1 as [|m l Hm Hl IH]; constructor; [done|].
  eapply Forall_impl; [exact Hl|]. intros m' Hm'. unfold not_later.
  rewrite Hm, Hm'. unfold sorts_before. by rewrite key_ltb_irrefl.
Qed.

Lemma flat_contribution_in_order (env : Env.t) (variants : list str)
    (dedup : bool) (books : list Book.t) :
  StronglySorted (fun a b => ~ sorts_before b a) books ->
  StronglySorted not_later
    (flat_map (contribution env variants dedup) books).
Proof.
  induction 1 as [|book books Hs IH Hbook]; cbn [flat_map]; [constructor|].
  pose proof (all_matches_book env variants book) as Hall.
  rewrite Forall_forall in Hall.
  apply StronglySorted_app. split; [|split; [|exact IH]].
  - intros m1 m2 H1 H2. apply contribution_elem in H1.
    apply flat_contribution_elem in H2 as [H2 _].
    unfold not_later. rewrite (Hall m1 H1).
    rewrite Forall_forall in Hbook. by apply Hbook.
  - apply (same_book_in_order book), Forall_forall. intros m Hm.
    apply contribution_elem in Hm. by apply Hall.
Qed.

(** X24.  A scan over the books [load_books] returns that ends without
    exception gives the results in the order of the sort keys of their
    books: no result is followed by one whose book sorts before its own.
    Every result is a match of a listed book whose file exists, and points
    at an occurrence of a variant in that file. *)
Theorem scan_loop_results (env : Env.t) (data_dir : Path)
    (date_ranges : gmap str (Z * Z)) (books : list Book.t)
    (variants : list str) (limit : Z) (dedup : bool)
    (results : list Match.t) :
  load_books env data_dir date_ranges = Ok books ->
  scan_loop env variants limit dedup books [] = Ok results ->
  StronglySorted not_later results
  /\ Forall (fun m =>
               Match.book m ∈ books
               /\ Env.file_exists env (Book.path (Match.book m)) = true
               /\ points_at env (Match.book m) variants m) results.
Proof.
  intros Hload -> %scan_loop_from. simpl. rewrite Nat.sub_0_r. split.
  - apply StronglySorted_take, flat_contribution_in_order.
    revert Hload. unfold load_books.
    destruct (open_csv env _) as [rows|e]; [|done]. intros [= <-].
    apply StronglySorted_not_after, sort_by_sorted.
    + exact key_ltb_irrefl.
    + exact key_ltb_trans.
    + exact key_ltb_total.
  - apply Forall_forall. intros m (i & Hi & _)%elem_of_take.
    apply list_elem_of_lookup_2, flat_contribution_elem in Hi as [Hbook Hm].
    split; [done|]. by apply iter_matches_points in Hm.
Qed.

Lemma scan_loop_results_witness :
  exists books results,
    load_books three_works [lit "data"] three_ranges = Ok books
    /\ scan_loop three_works [lit "天地"] 10 false books [] = Ok results
    /\ StronglySorted not_later results
    /\ length results = 4%nat.
Proof.
  destruct (load_books three_works [lit "data"] three_ranges)
    as [books|e] eqn:Hload; [|by vm_compute in Hload].
  destruct (scan_loop three_works [lit "天地"] 10 false books [])
    as [results|e] eqn:Hscan.
  2: { vm_compute in Hload. injection Hload as <-. by vm_compute in Hscan. }
  exists books, results. split; [reflexivity|]. split; [exact Hscan|]. split.
  - exact (proj1 (scan_loop_results three_works _ _ books [lit "天地"] 10
                    false results Hload Hscan)).
  - vm_compute in Hload. injection Hload as <-.
    vm_compute in Hscan. injection Hscan as <-. reflexivity.
Defined.

(** *** Deduplication when work identifiers are unique *)

(** X27.  When no two books of the list have the same work identifier, a
    scan with deduplication that ends without exception returns the first
    match of each book that has one, in the order of the list, up to
    [limit] matches: no two results have the same work identifier, and
    their number is the least of [limit] and the number of books whose file
    exists, can be opened and has a line that contains a variant. *)
Theorem scan_loop_distinct_works (env : Env.t) (variants : list str)
    (limit : Z) (books : list Book.t) (results : list Match.t) :
  1 <= limit ->
  NoDup (map Book.work_id books) ->
  scan_loop env variants limit true books [] = Ok results ->
  let with_match := List.filter (has_match env variants) books in
  results = take (Z.to_nat limit) (first_matches env variants books)
  /\ map Match.book results = take (Z.to_nat limit) with_match
  /\ NoDup (map (fun m => Book.work_id (Match.book m)) results)
  /\ Z.of_nat (length results)
     = Z.min limit (Z.of_nat (length with_match))
  /\ (forall book,
        book ∈ with_match <->
        book ∈ books /\ contains_variant env variants book).
Proof.
  intros Hlimit Hnd Hscan with_match.
  destruct (scan_loop_first_matches env variants limit books results
              Hlimit Hscan) as [Hresults Hbooks].
  split; [exact Hresults|]. split; [exact Hbooks|]. split; [|split].
  - rewrite <- (map_map Match.book Book.work_id), Hbooks.
    rewrite <- firstn_map. eapply sublist_NoDup; [|apply sublist_take].
    by apply NoDup_map_filter.
  - unfold with_match.
    rewrite <- (length_map Match.book), Hbooks, length_take. lia.
  - intros book. unfold with_match.
    rewrite list_elem_of_In, filter_In, <- list_elem_of_In.
    by rewrite has_match_contains.
Qed.

Lemma scan_loop_distinct_works_witness :
  exists results,
    scan_loop three_works [lit "天地"] 2 true three_books [] = Ok results
    /\ map (fun m => Book.work_id (Match.book m)) results
       = [lit "KR9z0001"; lit "KR9z0002"]
    /\ NoDup (map (fun m => Book.work_id (Match.book m)) results).
Proof.
  destruct (scan_loop three_works [lit "天地"] 2 true three_books [])
    as [results|e] eqn:Hscan; [|by vm_compute in Hscan].
  assert (Hnd : NoDup (map Book.work_id three_books)).
  { vm_compute. repeat (apply NoDup_cons; split);
      [| | |apply NoDup_nil_2];
      rewrite ?elem_of_cons, ?elem_of_nil; intros H;
      repeat (destruct H as [H|H]; [discriminate H|]); done. }
  destruct (scan_loop_distinct_works three_works [lit "天地"] 2 three_books
              results ltac:(lia) Hnd Hscan) as (_ & _ & Hdistinct & _).
  exists results. split; [reflexivity|]. split; [|exact Hdistinct].
  vm_compute in Hscan. injection Hscan as <-. reflexivity.
Defined.

(** *** The snippet, for every input *)

Lemma rstrip_by_keep (p : N -> bool) (a r : str) (ch : N) :
  p ch = false -> rstrip_by p (a ++ ch :: r) = a ++ ch :: rstrip_by p r.
Proof.
  intros Hch. unfold rstrip_by.
  rewrite rev_app_distr. simpl. rewrite <- app_assoc. simpl.
  rewrite lstrip_by_keep by done.
  rewrite rev_app_distr. simpl. rewrite rev_involutive.
  by rewrite <- app_assoc.
Qed.

Lemma strip_bracketed (A M C : str) :
  strip (A ++ lit "[" ++ M ++ lit "]" ++ C)
  = lstrip A ++ lit "[" ++ M ++ lit "]" ++ rstrip C.
Proof.
  unfold strip, lstrip, rstrip. change (lit "[") with [91%N].
  change (lit "]") with [93%N]. simpl.
  rewrite lstrip_by_keep by done.
  transitivity (rstrip_by isspace
                  ((lstrip_by isspace A ++ 91%N :: M) ++ 93%N :: C)).
  - f_equal. by rewrite <- app_assoc.
  - rewrite rstrip_by_keep by done. by rewrite <- app_assoc.
Qed.

Lemma take_elem {A} (n : nat) (l : list A) (x : A) : x ∈ take n l -> x ∈ l.
Proof. intros (i & Hi & _)%elem_of_take. by eapply list_elem_of_lookup_2. Qed.

Lemma drop_elem {A} (n : nat) (l : list A) (x : A) : x ∈ drop n l -> x ∈ l.
Proof. intros H. rewrite <- (take_drop n l), elem_of_app. by right. Qed.

Lemma slice_elem (s : str) (a b : Z) (c : N) : c ∈ slice s a b -> c ∈ s.
Proof. unfold slice. by intros ?%take_elem%drop_elem. Qed.

Lemma rstrip_by_elem (p : N -> bool) (s : str) (c : N) :
  c ∈ rstrip_by p s -> c ∈ s.
Proof.
  intros H. destruct (rstrip_by_split p s) as (b & Hs & _).
  rewrite Hs, elem_of_app. by left.
Qed.

Lemma replace_tab_no_tab (line : str) : 9%N ∉ replace_tab line.
Proof.
  unfold replace_tab. intros (c & Hc & _)%list_elem_of_fmap.
  by destruct (N.eqb_spec c 9).
Qed.

(** X25.  Whatever the offset, the term and the context, the snippet has the
    bracket pair, holds no tab, and neither starts nor ends with white space; a
    negative context gives the snippet of context 0. *)
Theorem render_snippet_shape (line : str) (offset : Z) (term : str)
    (context : Z) :
  let snippet := render_snippet line offset term context in
  (exists before matched after,
     snippet = before ++ lit "[" ++ matched ++ lit "]" ++ after)
  /\ (9%N ∉ snippet)
  /\ strip snippet = snippet
  /\ snippet = render_snippet line offset term (Z.max context 0).
Proof.
  split; [|split; [|split]].
  - unfold render_snippet. rewrite (app_assoc (if _ : bool then _ else _)).
    rewrite !(app_assoc (lit "]")), <- (app_assoc (lit "]")).
    rewrite strip_bracketed. eauto.
  - unfold render_snippet. intros Htab%strip_elem.
    assert (Hs : forall a b,
               9%N ∉ slice (rstrip (replace_tab line)) a b).
    { intros a b H%slice_elem%rstrip_by_elem.
      by apply replace_tab_no_tab in H. }
    assert (Hm : forall c : bool, 9%N ∉ (if c then lit "..." else [])).
    { intros [|]; [|by intros ?%elem_of_nil].
      vm_compute. intros H. by repeat (apply elem_of_cons in H as [|H]);
        try apply elem_of_nil in H. }
    rewrite !elem_of_app in Htab.
    destruct Htab as [H|[H|[H|[H|[H|[H|H]]]]]];
      try (by apply Hs in H); try (by apply Hm in H).
    + vm_compute in H. apply elem_of_cons in H as [|H]; [done|].
      by apply elem_of_nil in H.
    + vm_compute in H. apply elem_of_cons in H as [|H]; [done|].
      by apply elem_of_nil in H.
  - apply strip_idem.
  - unfold render_snippet. by rewrite <- Z.max_assoc, Z.max_id.
Qed.

(** *** The report *)

Lemma print_results_length (context idx : Z) (results : list Match.t) :
  length (print_results context idx results) = (2 * length results)%nat.
Proof.
  revert idx; induction results as [|m results IH]; intros idx; [done|].
  cbn [print_results]. rewrite length_app, IH. simpl. lia.
Qed.

Lemma print_results_lookup (context idx : Z) (results : list Match.t)
    (i : nat) (m : Match.t) :
  results !! i = Some m ->
  take 2 (drop (2 * i) (print_results context idx results))
  = result_lines context (idx + Z.of_nat i) m.
Proof.
  revert idx i; induction results as [|m' results IH]; intros idx i; [done|].
  cbn [print_results]. destruct i as [|i].
  - intros [= ->]. by rewrite Z.add_0_r.
  - intros Hi. replace (2 * S i)%nat with (S (S (2 * i))) by lia.
    change (drop (S (S (2 * i))) (result_lines context idx m' ++ ?l))
      with (drop (2 * i) l).
    rewrite (IH (idx + 1) i Hi). f_equal. lia.
Qed.

Section Report.
Variable py_int : str -> option Z.
Variable s2t t2s : str -> str.

(** X26.  When [main] returns 0 or 1 it has printed nothing on the error stream
    and, on the output stream, six lines of header followed by two lines for
    each result, numbered from 1; the header names the stripped term and the
    number of results, which is at most the limit. *)
Theorem main_report (env : Env.t) (args : Args.t) (code : Z)
    (stdout stderr : list str) :
  main py_int s2t t2s env args = Return code stdout stderr ->
  code <> 2 ->
  exists results,
    query_results py_int s2t t2s env args = Some results
    /\ (code = 0 \/ code = 1)
    /\ stderr = []
    /\ length stdout = (6 + 2 * length results)%nat
    /\ Z.of_nat (length results) <= Args.limit args
    /\ stdout !! 0%nat = Some (lit "query: " ++ strip (Args.term args))
    /\ stdout !! 4%nat
       = Some (lit "results: " ++ str_of_Z (Z.of_nat (length results)))
    /\ stdout !! 5%nat = Some []
    /\ forall i m,
         results !! i = Some m ->
         take 2 (drop (6 + 2 * i) stdout)
         = result_lines (Args.context args) (Z.of_nat i + 1) m.
Proof.
  unfold main, query_results.
  destruct (is_empty (strip (Args.term args))); [done|].
  destruct (Z.ltb_spec (Args.limit args) 1) as [|Hlimit]; [done|].
  destruct (resolve_data_dir env (Args.data_dir args))
    as [data_dir|[msg|key|msg]]; [|by intros [= <- _ _]|done|done].
  destruct (load_date_ranges py_int env _) as [date_ranges|e]; [|done].
  destruct (load_books env data_dir date_ranges) as [books|e]; [|done].
  destruct (scan_loop env _ _ _ books []) as [results|e] eqn:Hscan; [|done].
  assert (Hlen : Z.of_nat (length results) <= Args.limit args)
    by (eapply scan_loop_length; [exact Hscan|simpl; lia]).
  set (header := [_; _; _; _; _; _]).
  intros Hout Hcode. exists results.
  assert (Hstd : stdout = header ++ print_results (Args.context args) 1 results
                 /\ stderr = [] /\ (code = 0 \/ code = 1)).
  { destruct results; injection Hout as <- <- <-; auto. }
  destruct Hstd as (-> & -> & Hc).
  repeat split; try done.
  - rewrite length_app, print_results_length. done.
  - intros i m Hi.
    change (drop (6 + 2 * i) (header ++ ?l)) with (drop (2 * i) l).
    rewrite (print_results_lookup _ _ _ _ _ Hi). f_equal. lia.
Qed.
End Report.

Lemma main_report_witness :
  exists stdout,
    main int_ascii id id three_works (query_heaven_earth None)
    = Return 0 stdout []
    /\ length stdout = 10%nat
    /\ stdout !! 4%nat = Some (lit "results: 2").
Proof.
  destruct (main int_ascii id id three_works (query_heaven_earth None))
    as [code stdout stderr| |] eqn:Hmain;
    [|by vm_compute in Hmain|by vm_compute in Hmain].
  assert (Hcode : code = 0) by (vm_compute in Hmain; congruence).
  destruct (main_report int_ascii id id three_works (query_heaven_earth None)
              code stdout stderr Hmain ltac:(lia))
    as (results & Hq & _ & -> & Hlen & _ & _ & Hcount & _).
  assert (Hn : length results = 2%nat).
  { vm_compute in Hq. injection Hq as <-. reflexivity. }
  exists stdout. rewrite Hcode. split; [reflexivity|].
  rewrite Hlen, Hcount, Hn. split; reflexivity.
Defined.

End CliMore.
